(** * Mini cloud storage server: protocol engine

    A shallow embedding of [server.c] (POSIX) and of the parts of
    [server_windows.c] that differ from it: the line codec, the path
    validator, the command dispatcher, the five command handlers and the
    per-connection command loop, over an explicit model of the socket and of
    the storage directory. *)

From Stdlib Require Import List Bool Arith ZArith Lia Ascii String.
From Stdlib Require Import DecimalString.
Import ListNotations.

Local Open Scope Z_scope.

(** ** Bytes and C strings *)

(** A [char] buffer; a C string is the part of it before the first NUL. *)
Definition bytes := list ascii.

(** The bytes of a string literal of the source. *)
Definition B (s : string) : bytes := list_ascii_of_string s.

Definition NUL : ascii := "000"%char.
Definition LF : ascii := "010"%char.
Definition CR : ascii := "013"%char.
Definition SLASH : ascii := "/"%char.
Definition BACKSLASH : ascii := "\"%char.
Definition DOT : ascii := "."%char.

Fixpoint bytes_eqb (a b : bytes) : bool :=
  match a, b with
  | [], [] => true
  | x :: a', y :: b' => Ascii.eqb x y && bytes_eqb a' b'
  | _, _ => false
  end.

Module Libc.

(** What the [str*] functions see of a buffer: everything before the first
    NUL byte. *)
Fixpoint cstr (buf : bytes) : bytes :=
  match buf with
  | [] => []
  | c :: rest => if Ascii.eqb c NUL then [] else c :: cstr rest
  end.

(** [isspace] in the C locale: space, \t, \n, \v, \f, \r. *)
Definition isspace (c : ascii) : bool :=
  let n := nat_of_ascii c in
  (Nat.eqb n 32 || (Nat.leb 9 n && Nat.leb n 13))%bool.

Definition isdigit (c : ascii) : bool :=
  let n := nat_of_ascii c in (Nat.leb 48 n && Nat.leb n 57)%bool.

(** [strchr(s, c) != NULL] *)
Fixpoint strchr (s : bytes) (c : ascii) : bool :=
  match s with
  | [] => false
  | x :: s' => (Ascii.eqb x c || strchr s' c)%bool
  end.

Fixpoint starts_with (needle s : bytes) : bool :=
  match needle, s with
  | [], _ => true
  | _ :: _, [] => false
  | n :: needle', x :: s' => (Ascii.eqb n x && starts_with needle' s')%bool
  end.

(** [strstr(s, needle) != NULL] *)
Fixpoint strstr (s needle : bytes) : bool :=
  (starts_with needle s ||
   match s with
   | [] => false
   | _ :: s' => strstr s' needle
   end)%bool.

(** [strncmp(a, b, n)]: the sign of the first difference within the first
    [n] characters, the end of a string counting as NUL. *)
Fixpoint strncmp (a b : bytes) (n : nat) {struct n} : Z :=
  match n with
  | O => 0
  | S n' =>
      match a, b with
      | [], [] => 0
      | [], _ :: _ => -1
      | _ :: _, [] => 1
      | x :: a', y :: b' =>
          if Ascii.eqb x y then strncmp a' b' n'
          else if (nat_of_ascii x <? nat_of_ascii y)%nat then -1 else 1
      end
  end.

(** [strcmp(a, b) == 0] *)
Definition strcmp0 (a b : bytes) : bool := bytes_eqb a b.

(** *** [sscanf] for the directives the dispatcher uses *)

Inductive directive :=
| DLit (c : ascii)      (* an ordinary character: must match the next input character *)
| DSpace                (* white space: skips any amount of input white space *)
| DStr (width : nat)    (* %<width>s *)
| DLld.                 (* %lld *)

Inductive scanval :=
| VStr (s : bytes)
| VInt (z : Z).

Definition digit_val (c : ascii) : nat := (nat_of_ascii c - 48)%nat.

Fixpoint read_width (s : bytes) (acc : nat) : nat * bytes :=
  match s with
  | c :: s' => if isdigit c then read_width s' (10 * acc + digit_val c)%nat else (acc, s)
  | [] => (acc, s)
  end.

(** The directives of a format string; conversions other than [%<n>s] and
    [%lld] do not occur in the source and end the parse. *)
Fixpoint parse_fmt_go (fuel : nat) (s : bytes) : list directive :=
  match fuel with
  | O => []
  | S fuel' =>
      match s with
      | [] => []
      | c :: s' =>
          if Ascii.eqb c "%"%char then
            let (w, s1) := read_width s' 0%nat in
            match s1 with
            | x :: s2 =>
                if Ascii.eqb x "s"%char then DStr w :: parse_fmt_go fuel' s2
                else if starts_with (B "lld") s1 then DLld :: parse_fmt_go fuel' (skipn 3 s1)
                else []
            | [] => []
            end
          else if isspace c then DSpace :: parse_fmt_go fuel' s'
          else DLit c :: parse_fmt_go fuel' s'
      end
  end.

Definition parse_fmt (fmt : string) : list directive :=
  parse_fmt_go (String.length fmt) (B fmt).

Fixpoint skip_ws (s : bytes) : bytes :=
  match s with
  | c :: s' => if isspace c then skip_ws s' else s
  | [] => []
  end.

(** Up to [w] characters that are not white space. *)
Fixpoint take_word (w : nat) (s : bytes) : bytes * bytes :=
  match w with
  | O => ([], s)
  | S w' =>
      match s with
      | c :: s' =>
          if isspace c then ([], s)
          else let (tok, rest) := take_word w' s' in (c :: tok, rest)
      | [] => ([], [])
      end
  end.

Fixpoint take_digits (s : bytes) : bytes * bytes :=
  match s with
  | c :: s' =>
      if isdigit c then let (ds, rest) := take_digits s' in (c :: ds, rest)
      else ([], s)
  | [] => ([], [])
  end.

Definition digits_val (ds : bytes) : Z :=
  fold_left (fun acc c => 10 * acc + Z.of_nat (digit_val c)) ds 0.

Definition LLONG_MAX : Z := 9223372036854775807.
Definition LLONG_MIN : Z := -9223372036854775808.

(** The value is kept in range the way [strtoll] does it. *)
Definition clamp_ll (z : Z) : Z := Z.max LLONG_MIN (Z.min LLONG_MAX z).

(** A decimal integer with an optional sign, at the start of [s]. *)
Definition scan_lld (s : bytes) : option (Z * bytes) :=
  let '(neg, s1) :=
    match s with
    | c :: s' =>
        if Ascii.eqb c "-"%char then (true, s')
        else if Ascii.eqb c "+"%char then (false, s')
        else (false, s)
    | [] => (false, s)
    end in
  match take_digits s1 with
  | ([], _) => None
  | (ds, rest) =>
      let v := digits_val ds in
      Some (clamp_ll (if neg then - v else v), rest)
  end.

Definition EOF : Z := -1.

(** Input ran out: EOF before the first conversion, the count otherwise. *)
Definition input_failure (acc : list scanval) : Z * list scanval :=
  match acc with
  | [] => (EOF, [])
  | _ => (Z.of_nat (List.length acc), rev acc)
  end.

Definition matching_failure (acc : list scanval) : Z * list scanval :=
  (Z.of_nat (List.length acc), rev acc).

Fixpoint sscanf_go (fmt : list directive) (s : bytes) (acc : list scanval)
  : Z * list scanval :=
  match fmt with
  | [] => (Z.of_nat (List.length acc), rev acc)
  | DLit c :: fmt' =>
      match s with
      | [] => input_failure acc
      | x :: s' =>
          if Ascii.eqb x c then sscanf_go fmt' s' acc else matching_failure acc
      end
  | DSpace :: fmt' => sscanf_go fmt' (skip_ws s) acc
  | DStr w :: fmt' =>
      match skip_ws s with
      | [] => input_failure acc
      | s1 => let (tok, rest) := take_word w s1 in sscanf_go fmt' rest (VStr tok :: acc)
      end
  | DLld :: fmt' =>
      match skip_ws s with
      | [] => input_failure acc
      | s1 =>
          match scan_lld s1 with
          | Some (z, rest) => sscanf_go fmt' rest (VInt z :: acc)
          | None => matching_failure acc
          end
      end
  end.

(** [sscanf(line, fmt, ...)]: the return value and the values assigned, in
    the order of the arguments. *)
Definition sscanf (line : bytes) (fmt : string) : Z * list scanval :=
  sscanf_go (parse_fmt fmt) line [].

(** [%d] and [%lld] of [printf]. *)
Definition dec (z : Z) : bytes := B (NilZero.string_of_int (Z.to_int z)).

End Libc.


(** ** Paths

    A path names a directory entry through its components.  Resolution is
    lexical, as in a tree without symbolic links: empty components and [.]
    are skipped, [..] steps back to the parent. *)

Definition is_slash (c : ascii) : bool := Ascii.eqb c SLASH.

Fixpoint split_on (sep : ascii -> bool) (s : bytes) : list bytes :=
  match s with
  | [] => [[]]
  | c :: s' =>
      if sep c then [] :: split_on sep s'
      else match split_on sep s' with
           | h :: t => (c :: h) :: t
           | [] => [[c]]
           end
  end.

Definition DOTDOT : bytes := [DOT; DOT].

(** The root directory, as the first component of an absolute path. *)
Definition ROOT : bytes := [SLASH].

(** One component further; the components walked so far, innermost first. *)
Definition walk (stack : list bytes) (comp : bytes) : list bytes :=
  if bytes_eqb comp [] || bytes_eqb comp [DOT] then stack
  else if bytes_eqb comp DOTDOT then
    match stack with
    | [] => [DOTDOT]
    | top :: below =>
        if bytes_eqb top DOTDOT then DOTDOT :: stack
        else if bytes_eqb top ROOT then stack
        else below
    end
  else comp :: stack.

Definition resolve_with (sep : ascii -> bool) (p : bytes) : list bytes :=
  let start := match p with
               | c :: _ => if sep c then [ROOT] else []
               | [] => []
               end in
  rev (fold_left walk (split_on sep p) start).

Definition resolve : bytes -> list bytes := resolve_with is_slash.

(** ** The storage tree *)

Inductive node :=
| Reg (data : bytes)    (* a regular file and its content *)
| Dir.                  (* a directory *)

Fixpoint key_eqb (a b : list bytes) : bool :=
  match a, b with
  | [], [] => true
  | x :: a', y :: b' => bytes_eqb x y && key_eqb a' b'
  | _, _ => false
  end.

(** Entries in enumeration order, each under its resolved path. *)
Definition fsys := list (list bytes * node).

Fixpoint fs_lookup (k : list bytes) (t : fsys) : option node :=
  match t with
  | [] => None
  | (k', n) :: t' => if key_eqb k k' then Some n else fs_lookup k t'
  end.

Fixpoint fs_update (k : list bytes) (n : node) (t : fsys) : fsys :=
  match t with
  | [] => [(k, n)]
  | (k', n') :: t' =>
      if key_eqb k k' then (k, n) :: t' else (k', n') :: fs_update k n t'
  end.

Fixpoint fs_remove (k : list bytes) (t : fsys) : fsys :=
  match t with
  | [] => []
  | (k', n') :: t' =>
      if key_eqb k k' then fs_remove k t' else (k', n') :: fs_remove k t'
  end.

(** [k] as an entry of directory [d]: its name there. *)
Fixpoint child_name (d k : list bytes) : option bytes :=
  match d, k with
  | [], [n] => Some n
  | x :: d', y :: k' => if bytes_eqb x y then child_name d' k' else None
  | _, _ => None
  end.

Fixpoint children (d : list bytes) (t : fsys) : list bytes :=
  match t with
  | [] => []
  | (k, _) :: t' =>
      match child_name d k with
      | Some n => n :: children d t'
      | None => children d t'
      end
  end.

(** Bytes [data] written at offset [off]; a gap is filled with NUL bytes. *)
Definition write_at (content : bytes) (off : nat) (data : bytes) : bytes :=
  firstn off content ++ repeat NUL (off - List.length content)
  ++ data ++ skipn (off + List.length data) content.

(** ** The connection and the environment of one worker *)

(** What one [recv] of the socket yields. *)
Inductive rx_item :=
| Data (c : ascii)      (* the next byte of the stream *)
| Eintr.                (* the call was interrupted: -1 with errno EINTR *)

(** What [recv] yields once the stream is used up. *)
Inductive rx_tail :=
| PeerClosed            (* 0 *)
| RecvError.            (* -1, errno other than EINTR *)

Definition wire (s : bytes) : list rx_item := map Data s.

Fixpoint payload (items : list rx_item) : bytes :=
  match items with
  | [] => []
  | Data c :: rest => c :: payload rest
  | Eintr :: rest => payload rest
  end.

Inductive open_mode :=
| O_RDONLY
| O_RDWR
| O_WRONLY_CREAT_TRUNC.

Inductive lock_type := F_RDLCK | F_WRLCK | F_UNLCK.

(** The file-system calls, as logged. *)
Inductive syscall :=
| SysOpen (path : bytes) (m : open_mode)
| SysClose
| SysFcntl (t : lock_type)
| SysWrite (n : nat)
| SysFsync
| SysFstat
| SysStat (path : bytes)
| SysSendfile
| SysUnlink (path : bytes)
| SysRename (oldp newp : bytes)
| SysOpendir (path : bytes)
| SysClosedir
| WinCreateFile (path : bytes)
| WinCloseHandle
| WinWriteFile (n : nat)
| WinReadFile
| WinGetFileSizeEx
| WinMoveFile (oldp newp : bytes)
| WinDeleteFile (path : bytes)
| WinFindFirstFile (pattern : bytes)
| WinFindClose.

(** How a [send] fails once the connection takes no more. *)
Inductive tx_fault :=
| SendError             (* -1, errno other than EINTR and EPIPE *)
| SendStalled           (* 0 *)
| SendSigpipe.          (* EPIPE; the SIGPIPE that comes with it is left at its
                           default action by [main] and ends the process *)

Record world := mkWorld {
  fs : fsys;                 (* the storage tree *)
  rx : list rx_item;         (* what the socket will still deliver *)
  rx_end : rx_tail;          (* and how the stream ends *)
  tx : list bytes;           (* what went out, one entry per [send_all] or [sendfile] loop *)
  calls : list syscall;      (* the file-system calls made so far *)
  disk_free : nat;           (* bytes the device still accepts *)
  lock_ok : bool;            (* [fcntl(F_SETLKW)] succeeds *)
  malloc_ok : bool;          (* [malloc] succeeds *)
  fstat_ok : bool;           (* [fstat] succeeds *)
  open_ok : bool;            (* [open] is not refused (EACCES, EMFILE, EROFS, ...) *)
  tx_room : option nat;      (* bytes the connection still takes; [None]: all *)
  tx_end : tx_fault          (* what a [send] gets once it takes no more *)
}.

Definition set_fs (t : fsys) (w : world) : world :=
  mkWorld t (rx w) (rx_end w) (tx w) (calls w) (disk_free w) (lock_ok w) (malloc_ok w) (fstat_ok w)
          (open_ok w) (tx_room w) (tx_end w).

Definition set_rx (r : list rx_item) (w : world) : world :=
  mkWorld (fs w) r (rx_end w) (tx w) (calls w) (disk_free w) (lock_ok w) (malloc_ok w) (fstat_ok w)
          (open_ok w) (tx_room w) (tx_end w).

Definition set_disk (d : nat) (w : world) : world :=
  mkWorld (fs w) (rx w) (rx_end w) (tx w) (calls w) d (lock_ok w) (malloc_ok w) (fstat_ok w)
          (open_ok w) (tx_room w) (tx_end w).

Definition set_room (r : option nat) (w : world) : world :=
  mkWorld (fs w) (rx w) (rx_end w) (tx w) (calls w) (disk_free w) (lock_ok w) (malloc_ok w) (fstat_ok w)
          (open_ok w) r (tx_end w).

(** One more transmission. *)
Definition sent (b : bytes) (w : world) : world :=
  mkWorld (fs w) (rx w) (rx_end w) (tx w ++ [b]) (calls w) (disk_free w) (lock_ok w) (malloc_ok w) (fstat_ok w)
          (open_ok w) (tx_room w) (tx_end w).

(** One more file-system call. *)
Definition logged (c : syscall) (w : world) : world :=
  mkWorld (fs w) (rx w) (rx_end w) (tx w) (calls w ++ [c]) (disk_free w) (lock_ok w) (malloc_ok w) (fstat_ok w)
          (open_ok w) (tx_room w) (tx_end w).

(** A computation of a worker: the value it returns, or [None] when the
    process was ended by a signal on the way, and the world it leaves. *)
Definition M (A : Type) : Type := world -> option A * world.

Definition ret {A} (a : A) : M A := fun w => (Some a, w).

Definition bind {A C} (m : M A) (k : A -> M C) : M C :=
  fun w =>
    match m w with
    | (Some a, w') => k a w'
    | (None, w') => (None, w')
    end.

Declare Scope worker_scope.
Delimit Scope worker_scope with worker.
Notation "x <- m ;; k" := (bind m (fun x => k))
  (at level 61, m at next level, right associativity) : worker_scope.
Notation "' p <- m ;; k" := (bind m (fun x => let 'p := x in k))
  (at level 61, p pattern, m at next level, right associativity) : worker_scope.
Notation "m ;; k" := (bind m (fun _ => k))
  (at level 61, right associativity) : worker_scope.
Local Open Scope worker_scope.

(** An open file: the entry it was opened on and the file offset. *)
Record fd := mkFd { fd_key : list bytes; fd_off : nat }.

Module Sys.

(** [open(path, flags, 0644)] *)
Definition open (path : bytes) (m : open_mode) : M (option fd) := fun w =>
  let w1 := logged (SysOpen path m) w in
  let k := resolve path in
  if negb (open_ok w) then (Some None, w1)
  else
    match m with
    | O_RDONLY =>
        match fs_lookup k (fs w) with
        | Some _ => (Some (Some (mkFd k 0)), w1)
        | None => (Some None, w1)
        end
    | O_RDWR =>
        match fs_lookup k (fs w) with
        | Some (Reg _) => (Some (Some (mkFd k 0)), w1)
        | _ => (Some None, w1)
        end
    | O_WRONLY_CREAT_TRUNC =>
        match fs_lookup k (fs w) with
        | Some (Reg _) => (Some (Some (mkFd k 0)), set_fs (fs_update k (Reg []) (fs w)) w1)
        | Some Dir => (Some None, w1)
        | None =>
            match fs_lookup (removelast k) (fs w) with
            | Some Dir => (Some (Some (mkFd k 0)), set_fs (fs_update k (Reg []) (fs w)) w1)
            | _ => (Some None, w1)
            end
        end
    end.

Definition close (f : fd) : M Z := fun w => (Some 0, logged SysClose w).

(** [fcntl(fd, F_SETLKW or F_SETLK, &fl)] on the whole file. *)
Definition fcntl (f : fd) (t : lock_type) : M Z := fun w =>
  let w1 := logged (SysFcntl t) w in
  match t with
  | F_UNLCK => (Some 0, w1)
  | _ => (Some (if lock_ok w then 0 else -1), w1)
  end.

(** [write(fd, buf, n)]: as much of [buf] as the device accepts goes to the
    file at the offset of [f]; the count written, or -1 for none. *)
Definition write (f : fd) (buf : bytes) : M (Z * fd) := fun w =>
  let w1 := logged (SysWrite (List.length buf)) w in
  match fs_lookup (fd_key f) (fs w) with
  | Some (Reg content) =>
      let n := Nat.min (List.length buf) (disk_free w) in
      match n, buf with
      | O, _ :: _ => (Some (-1, f), w1)
      | _, _ =>
          let content' := write_at content (fd_off f) (firstn n buf) in
          (Some (Z.of_nat n, mkFd (fd_key f) (fd_off f + n)),
           set_disk (disk_free w - n) (set_fs (fs_update (fd_key f) (Reg content') (fs w)) w1))
      end
  | _ => (Some (-1, f), w1)
  end.

Definition fsync (f : fd) : M Z := fun w => (Some 0, logged SysFsync w).

(** [S_ISREG] and [st_size] of an entry. *)
Definition stat_of (n : node) : bool * Z :=
  match n with
  | Reg data => (true, Z.of_nat (List.length data))
  | Dir => (false, 4096)
  end.

Definition fstat (f : fd) : M (option (bool * Z)) := fun w =>
  let w1 := logged SysFstat w in
  if fstat_ok w then
    match fs_lookup (fd_key f) (fs w) with
    | Some n => (Some (Some (stat_of n)), w1)
    | None => (Some None, w1)
    end
  else (Some None, w1).

Definition stat (path : bytes) : M (option (bool * Z)) := fun w =>
  let w1 := logged (SysStat path) w in
  match fs_lookup (resolve path) (fs w) with
  | Some n => (Some (Some (stat_of n)), w1)
  | None => (Some None, w1)
  end.

(** The content of the file of [f] from its offset on. *)
Definition rest_of (f : fd) (w : world) : bytes :=
  match fs_lookup (fd_key f) (fs w) with
  | Some (Reg content) => skipn (fd_off f) content
  | _ => []
  end.

Definition unlink (path : bytes) : M Z := fun w =>
  let w1 := logged (SysUnlink path) w in
  let k := resolve path in
  match fs_lookup k (fs w) with
  | Some (Reg _) => (Some 0, set_fs (fs_remove k (fs w)) w1)
  | _ => (Some (-1), w1)
  end.

Definition rename (oldp newp : bytes) : M Z := fun w =>
  let w1 := logged (SysRename oldp newp) w in
  let ko := resolve oldp in
  let kn := resolve newp in
  match fs_lookup ko (fs w) with
  | Some (Reg data) =>
      if key_eqb ko kn then (Some 0, w1)
      else
        match fs_lookup kn (fs w) with
        | Some Dir => (Some (-1), w1)
        | _ => (Some 0, set_fs (fs_update kn (Reg data) (fs_remove ko (fs w))) w1)
        end
  | _ => (Some (-1), w1)
  end.

(** [opendir]: the names [readdir] will enumerate. *)
Definition opendir (path : bytes) : M (option (list bytes)) := fun w =>
  let w1 := logged (SysOpendir path) w in
  let k := resolve path in
  match fs_lookup k (fs w) with
  | Some Dir => (Some (Some ([DOT] :: DOTDOT :: children k (fs w))), w1)
  | _ => (Some None, w1)
  end.

Definition closedir : M Z := fun w => (Some 0, logged SysClosedir w).

Definition malloc : M bool := fun w => (Some (malloc_ok w), w).

(** What the connection takes of [data] when a loop of [send] or of
    [sendfile] calls offers it: the count that went out, and how the call
    after that failed when it was not all. *)
Definition push (data : bytes) (w : world) : nat * option tx_fault * world :=
  match tx_room w with
  | None => (List.length data, None, sent data w)
  | Some room =>
      if (List.length data <=? room)%nat
      then (List.length data, None,
            set_room (Some (room - List.length data)%nat) (sent data w))
      else (room, Some (tx_end w),
            set_room (Some 0%nat)
              (match room with
               | O => w
               | _ => sent (firstn room data) w
               end))
  end.

End Sys.

(** ** server.c *)

Definition MAX_LINE : nat := 4096.
Definition MAX_PATH : nat := 1024.

(** A text line of the source, with its final newline. *)
Definition nl (s : string) : bytes := B s ++ [LF].

(** Whether the command loop goes on reading or has left the loop. *)
Inductive phase := Ready | Closed.

(** The request a control line is taken for. *)
Inductive command :=
| CmdList
| CmdUpload (name : bytes) (size : Z)
| CmdDownload (name : bytes)
| CmdRename (oldn newn : bytes)
| CmdDelete (name : bytes)
| CmdQuit
| CmdUnknown.

(** The chain of tests of [client_thread], the same in both servers. *)
Definition dispatch (line : bytes) : command :=
  if (fst (Libc.sscanf line "LIST") =? 0) && (Libc.strncmp line (B "LIST") 4 =? 0)
  then CmdList
  else
    match Libc.sscanf line "UPLOAD %1023s %lld" with
    | (2, [Libc.VStr a1; Libc.VInt size]) => CmdUpload a1 size
    | _ =>
        match Libc.sscanf line "DOWNLOAD %1023s" with
        | (1, [Libc.VStr a1]) => CmdDownload a1
        | _ =>
            match Libc.sscanf line "RENAME %1023s %1023s" with
            | (2, [Libc.VStr a1; Libc.VStr a2]) => CmdRename a1 a2
            | _ =>
                match Libc.sscanf line "DELETE %1023s" with
                | (1, [Libc.VStr a1]) => CmdDelete a1
                | _ =>
                    if Libc.strncmp line (B "QUIT") 4 =? 0 then CmdQuit
                    else CmdUnknown
                end
            end
        end
    end.

(** [chomp]: the trailing \n and \r are cut off. *)
Definition is_eol (c : ascii) : bool := Ascii.eqb c LF || Ascii.eqb c CR.

Fixpoint drop_eol (r : bytes) : bytes :=
  match r with
  | c :: r' => if is_eol c then drop_eol r' else r
  | [] => []
  end.

Definition chomp (s : bytes) : bytes := rev (drop_eol (rev s)).

Module Posix.

(** [send_all]: the loop goes on until all of [buf] went out or a [send]
    fails; a [send] on a connection that takes no more returns -1, returns 0,
    or raises SIGPIPE, and the signal ends the process. *)
Definition send_all (buf : bytes) : M Z := fun w =>
  match Sys.push buf w with
  | (_, None, w') => (Some (Z.of_nat (List.length buf)), w')
  | (_, Some SendError, w') => (Some (-1), w')
  | (n, Some SendStalled, w') => (Some (Z.of_nat n), w')
  | (_, Some SendSigpipe, w') => (None, w')
  end.

(** [send_line]: the formatted text, cut to the buffer, is handed to
    [send_all]. *)
Definition send_line (text : bytes) : M Z :=
  send_all (firstn (MAX_LINE - 1) text).

(** The loop of [recv_all] over what the socket delivers: [len] bytes, or
    fewer when the peer closes; -1 on a receive error. *)
Fixpoint recv_all_from (items : list rx_item) (tl : rx_tail) (len : nat) (got : bytes)
  : Z * bytes * list rx_item :=
  match len with
  | O => (Z.of_nat (List.length got), got, items)
  | S len' =>
      match items with
      | [] =>
          match tl with
          | RecvError => (-1, got, [])
          | PeerClosed => (Z.of_nat (List.length got), got, [])
          end
      | Eintr :: rest => recv_all_from rest tl len got
      | Data c :: rest => recv_all_from rest tl len' (got ++ [c])
      end
  end.

Definition recv_all (len : nat) : M (Z * bytes) := fun w =>
  let '(n, buf, rest) := recv_all_from (rx w) (rx_end w) len [] in
  (Some (n, buf), set_rx rest w).

(** The loop of [recv_line]; [out] holds the [i] bytes read so far. *)
Fixpoint recv_line_from (items : list rx_item) (tl : rx_tail) (cap : nat) (out : bytes)
  : Z * bytes * list rx_item :=
  let i := List.length out in
  if (i + 1 <? cap)%nat then
    match items with
    | [] =>
        match tl with
        | RecvError => (-1, out, [])
        | PeerClosed => if (i =? 0)%nat then (0, out, []) else (Z.of_nat i, out, [])
        end
    | Eintr :: rest => recv_line_from rest tl cap out
    | Data c :: rest =>
        if Ascii.eqb c LF then (Z.of_nat (i + 1), out ++ [c], rest)
        else recv_line_from rest tl cap (out ++ [c])
    end
  else (Z.of_nat i, out, items).

Definition recv_line (cap : nat) : M (Z * bytes) := fun w =>
  let '(n, out, rest) := recv_line_from (rx w) (rx_end w) cap [] in
  (Some (n, out), set_rx rest w).

Definition path_join (cap : nat) (dir name : bytes) : option bytes :=
  if Libc.strstr name DOTDOT || Libc.strchr name SLASH || Libc.strchr name BACKSLASH
  then None
  else
    let out := dir ++ [SLASH] ++ name in
    let r := Z.of_nat (List.length out) in
    if (0 <? r) && (r <? Z.of_nat cap) then Some out else None.

Definition lock_fd (f : fd) (t : lock_type) : M Z := Sys.fcntl f t.

Definition unlock_fd (f : fd) : M Z := Sys.fcntl f F_UNLCK.

(** The second loop of [handle_list], over the names of [readdir]. *)
Fixpoint list_entries (storage_dir : bytes) (names : list bytes) : M unit :=
  match names with
  | [] => ret tt
  | name :: rest =>
      if Libc.strcmp0 name [DOT] || Libc.strcmp0 name DOTDOT
      then list_entries storage_dir rest
      else
        match path_join MAX_PATH storage_dir name with
        | None => list_entries storage_dir rest
        | Some path =>
            st <- Sys.stat path ;;
            match st with
            | Some (true, size) =>
                send_line (B "FILE " ++ name ++ B " " ++ Libc.dec size ++ [LF]) ;;
                list_entries storage_dir rest
            | _ => list_entries storage_dir rest
            end
        end
  end.

(** The first loop of [handle_list]. *)
Definition count_items (names : list bytes) : Z :=
  Z.of_nat (List.length
    (filter (fun n => negb (Libc.strcmp0 n [DOT]) && negb (Libc.strcmp0 n DOTDOT)) names)).

Definition handle_list (storage_dir : bytes) : M Z :=
  d <- Sys.opendir storage_dir ;;
  match d with
  | None => send_line (nl "ERR cannot open storage") ;; ret (-1)
  | Some names =>
      send_line (B "OK " ++ Libc.dec (count_items names) ++ [LF]) ;;
      list_entries storage_dir names ;;
      send_line (nl "END") ;;
      Sys.closedir ;;
      ret 0
  end.

Definition BUF : Z := 65536.

(** The receive loop of [handle_upload].  Every turn that goes on takes at
    least one item off the socket, so [fuel] above the number of items left
    is never used up. *)
Fixpoint upload_loop (fuel : nat) (f : fd) (remaining : Z) : M Z :=
  if remaining >? 0 then
    match fuel with
    | O => ret (-1)
    | S fuel' =>
        let chunk := if remaining >? BUF then BUF else remaining in
        '(n, buf) <- recv_all (Z.to_nat chunk) ;;
        if n <=? 0 then
          unlock_fd f ;; Sys.close f ;;
          send_line (nl "ERR recv data failed") ;;
          ret (-1)
        else
          '(wr, f') <- Sys.write f buf ;;
          if negb (wr =? n) then
            unlock_fd f ;; Sys.close f ;;
            send_line (nl "ERR write failed") ;;
            ret (-1)
          else upload_loop fuel' f' (remaining - n)
    end
  else
    Sys.fsync f ;;
    unlock_fd f ;;
    Sys.close f ;;
    send_line (nl "OK SAVED") ;;
    ret 0.

Definition handle_upload (storage_dir filename : bytes) (size : Z) : M Z :=
  if size <? 0 then send_line (nl "ERR invalid size") ;; ret (-1)
  else
    match path_join MAX_PATH storage_dir filename with
    | None => send_line (nl "ERR bad filename") ;; ret (-1)
    | Some path =>
        o <- Sys.open path O_WRONLY_CREAT_TRUNC ;;
        match o with
        | None => send_line (nl "ERR cannot open file for write") ;; ret (-1)
        | Some f =>
            l <- lock_fd f F_WRLCK ;;
            if l <? 0 then
              Sys.close f ;;
              send_line (nl "ERR cannot lock file") ;;
              ret (-1)
            else
              send_line (nl "OK") ;;
              buf <- Sys.malloc ;;
              if negb buf then
                unlock_fd f ;; Sys.close f ;;
                send_line (nl "ERR server oom") ;;
                ret (-1)
              else
                fun w => upload_loop (S (List.length (rx w))) f size w
        end
    end.

(** The [sendfile] loop of [handle_download], what went out taken as one
    transmission: 0 when the loop is left at its end or by [break] (a call
    that returns 0), -1 when a call fails; SIGPIPE ends the process. *)
Definition sendfile_all (f : fd) : M Z := fun w =>
  match Sys.rest_of f w with
  | [] => (Some 0, w)
  | data =>
      match Sys.push data (logged SysSendfile w) with
      | (_, None, w') => (Some 0, w')
      | (_, Some SendError, w') => (Some (-1), w')
      | (_, Some SendStalled, w') => (Some 0, w')
      | (_, Some SendSigpipe, w') => (None, w')
      end
  end.

Definition handle_download (storage_dir filename : bytes) : M Z :=
  match path_join MAX_PATH storage_dir filename with
  | None => send_line (nl "ERR bad filename") ;; ret (-1)
  | Some path =>
      o <- Sys.open path O_RDONLY ;;
      match o with
      | None => send_line (nl "ERR not found") ;; ret (-1)
      | Some f =>
          l <- lock_fd f F_RDLCK ;;
          if l <? 0 then
            Sys.close f ;;
            send_line (nl "ERR cannot lock file") ;;
            ret (-1)
          else
            st <- Sys.fstat f ;;
            match st with
            | None =>
                unlock_fd f ;; Sys.close f ;;
                send_line (nl "ERR stat failed") ;;
                ret (-1)
            | Some (false, _) =>
                unlock_fd f ;; Sys.close f ;;
                send_line (nl "ERR not a file") ;;
                ret (-1)
            | Some (true, size) =>
                send_line (B "OK " ++ Libc.dec size ++ [LF]) ;;
                r <- sendfile_all f ;;
                if r <? 0 then
                  unlock_fd f ;; Sys.close f ;;
                  ret (-1)
                else
                  unlock_fd f ;;
                  Sys.close f ;;
                  ret 0
            end
      end
  end.

Definition handle_rename (storage_dir oldn newn : bytes) : M Z :=
  match path_join MAX_PATH storage_dir oldn, path_join MAX_PATH storage_dir newn with
  | Some oldp, Some newp =>
      o <- Sys.open oldp O_RDWR ;;
      match o with
      | None => send_line (nl "ERR not found") ;; ret (-1)
      | Some f =>
          l <- lock_fd f F_WRLCK ;;
          if l <? 0 then
            Sys.close f ;;
            send_line (nl "ERR cannot lock") ;;
            ret (-1)
          else
            r <- Sys.rename oldp newp ;;
            unlock_fd f ;;
            Sys.close f ;;
            if r <? 0 then send_line (nl "ERR rename failed") ;; ret (-1)
            else send_line (nl "OK RENAMED") ;; ret 0
      end
  | _, _ => send_line (nl "ERR bad filename") ;; ret (-1)
  end.

Definition handle_delete (storage_dir filename : bytes) : M Z :=
  match path_join MAX_PATH storage_dir filename with
  | None => send_line (nl "ERR bad filename") ;; ret (-1)
  | Some path =>
      o <- Sys.open path O_RDWR ;;
      match o with Some f => lock_fd f F_WRLCK | None => ret 0 end ;;
      r <- Sys.unlink path ;;
      match o with Some f => unlock_fd f ;; Sys.close f | None => ret 0 end ;;
      if r <? 0 then send_line (nl "ERR delete failed") ;; ret (-1)
      else send_line (nl "OK DELETED") ;; ret 0
  end.

(** What [client_thread] does with a control line that is not empty. *)
Definition exec_line (storage_dir line : bytes) : M phase :=
  match dispatch line with
  | CmdList => handle_list storage_dir ;; ret Ready
  | CmdUpload a1 size => handle_upload storage_dir a1 size ;; ret Ready
  | CmdDownload a1 => handle_download storage_dir a1 ;; ret Ready
  | CmdRename a1 a2 => handle_rename storage_dir a1 a2 ;; ret Ready
  | CmdDelete a1 => handle_delete storage_dir a1 ;; ret Ready
  | CmdQuit => send_line (nl "OK BYE") ;; ret Closed
  | CmdUnknown => send_line (nl "ERR unknown command") ;; ret Ready
  end.

(** One turn of the [for (;;)] of [client_thread]: [Closed] for [break]. *)
Definition handler_step (storage_dir : bytes) : M phase :=
  '(n, buf) <- recv_line MAX_LINE ;;
  if n <=? 0 then ret Closed
  else
    match chomp (Libc.cstr buf) with
    | [] => ret Ready
    | line => exec_line storage_dir line
    end.

(** The loop; a turn that goes on has taken at least one item off the
    socket, so [fuel] above the number of items is never used up. *)
Fixpoint client_loop (fuel : nat) (storage_dir : bytes) : M phase :=
  match fuel with
  | O => ret Ready
  | S fuel' =>
      ph <- handler_step storage_dir ;;
      match ph with
      | Closed => ret Closed
      | Ready => client_loop fuel' storage_dir
      end
  end.

Definition client_thread (storage_dir : bytes) : M phase :=
  send_line (nl "OK WELCOME") ;;
  fun w => client_loop (S (List.length (rx w))) storage_dir w.

End Posix.

(** ** server_windows.c *)

Module Windows.

Definition SOCKET_ERROR : Z := -1.

(** Of [windows.h]; the size of the path buffers of the handlers. *)
Definition MAX_PATH : nat := 260.

Definition is_sep (c : ascii) : bool := Ascii.eqb c BACKSLASH || Ascii.eqb c SLASH.

Definition resolve : bytes -> list bytes := resolve_with is_sep.

(** [send_all]: Winsock has no signals, and a [send] of at least one byte
    that does not fail takes at least one: once the connection takes no more
    the call returns SOCKET_ERROR. *)
Definition send_all (buf : bytes) : M Z := fun w =>
  match Sys.push buf w with
  | (_, None, w') => (Some (Z.of_nat (List.length buf)), w')
  | (_, Some _, w') => (Some SOCKET_ERROR, w')
  end.

Definition send_line (text : bytes) : M Z :=
  send_all (firstn (MAX_LINE - 1) text).

(** The loop of [recv_all]: a [recv] that fails or finds the stream closed
    makes the whole call fail. *)
Fixpoint recv_all_from (items : list rx_item) (len : nat) (got : bytes)
  : Z * bytes * list rx_item :=
  match len with
  | O => (Z.of_nat (List.length got), got, items)
  | S len' =>
      match items with
      | [] => (SOCKET_ERROR, got, [])
      | Eintr :: rest => (SOCKET_ERROR, got, rest)
      | Data c :: rest => recv_all_from rest len' (got ++ [c])
      end
  end.

Definition recv_all (len : nat) : M (Z * bytes) := fun w =>
  let '(n, buf, rest) := recv_all_from (rx w) len [] in
  (Some (n, buf), set_rx rest w).

(** The loop of [recv_line]; [out] holds the [i] bytes read so far. *)
Fixpoint recv_line_from (items : list rx_item) (maxlen : nat) (out : bytes)
  : Z * bytes * list rx_item :=
  let i := List.length out in
  if (i <? maxlen - 1)%nat then
    match items with
    | [] => (SOCKET_ERROR, out, [])
    | Eintr :: rest => (SOCKET_ERROR, out, rest)
    | Data c :: rest =>
        if Ascii.eqb c LF then (Z.of_nat (i + 1), out ++ [c], rest)
        else recv_line_from rest maxlen (out ++ [c])
    end
  else (Z.of_nat i, out, items).

Definition recv_line (maxlen : nat) : M (Z * bytes) := fun w =>
  let '(n, out, rest) := recv_line_from (rx w) maxlen [] in
  (Some (n, out), set_rx rest w).

Definition path_join (cap : nat) (dir name : bytes) : option bytes :=
  if Libc.strstr name DOTDOT || Libc.strchr name SLASH || Libc.strchr name BACKSLASH
  then None
  else
    let out := dir ++ [BACKSLASH] ++ name in
    let r := Z.of_nat (List.length out) in
    if (0 <? r) && (r <? Z.of_nat cap) then Some out else None.

(** [CreateFile(path, GENERIC_WRITE, 0, NULL, CREATE_ALWAYS, ...)] *)
Definition create_always (path : bytes) : M (option fd) := fun w =>
  let w1 := logged (WinCreateFile path) w in
  let k := resolve path in
  if negb (open_ok w) then (Some None, w1)
  else
    match fs_lookup k (fs w) with
    | Some (Reg _) => (Some (Some (mkFd k 0)), set_fs (fs_update k (Reg []) (fs w)) w1)
    | Some Dir => (Some None, w1)
    | None =>
        match fs_lookup (removelast k) (fs w) with
        | Some Dir => (Some (Some (mkFd k 0)), set_fs (fs_update k (Reg []) (fs w)) w1)
        | _ => (Some None, w1)
        end
    end.

(** [CreateFile(path, GENERIC_READ, FILE_SHARE_READ, NULL, OPEN_EXISTING, ...)] *)
Definition open_existing (path : bytes) : M (option fd) := fun w =>
  let w1 := logged (WinCreateFile path) w in
  let k := resolve path in
  if negb (open_ok w) then (Some None, w1)
  else
    match fs_lookup k (fs w) with
    | Some (Reg _) => (Some (Some (mkFd k 0)), w1)
    | _ => (Some None, w1)
    end.

Definition close_handle (f : fd) : M Z := fun w => (Some 1, logged WinCloseHandle w).

(** [WriteFile]: whether it succeeded, [written], and the handle moved on. *)
Definition write_file (f : fd) (buf : bytes) : M (bool * Z * fd) := fun w =>
  let w1 := logged (WinWriteFile (List.length buf)) w in
  match fs_lookup (fd_key f) (fs w) with
  | Some (Reg content) =>
      let n := Nat.min (List.length buf) (disk_free w) in
      match n, buf with
      | O, _ :: _ => (Some (false, 0, f), w1)
      | _, _ =>
          let content' := write_at content (fd_off f) (firstn n buf) in
          (Some (true, Z.of_nat n, mkFd (fd_key f) (fd_off f + n)),
           set_disk (disk_free w - n) (set_fs (fs_update (fd_key f) (Reg content') (fs w)) w1))
      end
  | _ => (Some (false, 0, f), w1)
  end.

Definition get_file_size (f : fd) : M (option Z) := fun w =>
  let w1 := logged WinGetFileSizeEx w in
  if fstat_ok w then
    match fs_lookup (fd_key f) (fs w) with
    | Some (Reg data) => (Some (Some (Z.of_nat (List.length data))), w1)
    | _ => (Some None, w1)
    end
  else (Some None, w1).

(** [MoveFile]: fails when the new name exists. *)
Definition move_file (oldp newp : bytes) : M bool := fun w =>
  let w1 := logged (WinMoveFile oldp newp) w in
  let ko := resolve oldp in
  let kn := resolve newp in
  match fs_lookup ko (fs w), fs_lookup kn (fs w) with
  | Some (Reg data), None =>
      (Some true, set_fs (fs_update kn (Reg data) (fs_remove ko (fs w))) w1)
  | _, _ => (Some false, w1)
  end.

Definition delete_file (path : bytes) : M bool := fun w =>
  let w1 := logged (WinDeleteFile path) w in
  let k := resolve path in
  match fs_lookup k (fs w) with
  | Some (Reg _) => (Some true, set_fs (fs_remove k (fs w)) w1)
  | _ => (Some false, w1)
  end.

(** What [FindFirstFile] and [FindNextFile] enumerate for [dir\*]: the name,
    whether FILE_ATTRIBUTE_DIRECTORY is set, and the size. *)
Fixpoint child_entries (d : list bytes) (t : fsys) : list (bytes * bool * Z) :=
  match t with
  | [] => []
  | (k, n) :: t' =>
      match child_name d k with
      | Some name =>
          match n with
          | Reg data => (name, false, Z.of_nat (List.length data)) :: child_entries d t'
          | Dir => (name, true, 0) :: child_entries d t'
          end
      | None => child_entries d t'
      end
  end.

Definition find_files (storage_dir : bytes) : M (option (list (bytes * bool * Z))) := fun w =>
  let pattern := storage_dir ++ [BACKSLASH] ++ B "*" in
  let w1 := logged (WinFindFirstFile pattern) w in
  let k := resolve storage_dir in
  match fs_lookup k (fs w) with
  | Some Dir =>
      (Some (Some (([DOT], true, 0) :: (DOTDOT, true, 0) :: child_entries k (fs w))), w1)
  | _ => (Some None, w1)
  end.

Definition find_close : M Z := fun w => (Some 1, logged WinFindClose w).

Definition listed (e : bytes * bool * Z) : bool :=
  let '(name, is_dir, _) := e in
  negb (Libc.strcmp0 name [DOT]) && negb (Libc.strcmp0 name DOTDOT) && negb is_dir.

Fixpoint list_entries (entries : list (bytes * bool * Z)) : M unit :=
  match entries with
  | [] => ret tt
  | (name, is_dir, size) :: rest =>
      if listed (name, is_dir, size) then
        send_line (B "FILE " ++ name ++ B " " ++ Libc.dec size ++ [LF]) ;;
        list_entries rest
      else list_entries rest
  end.

Definition handle_list (storage_dir : bytes) : M Z :=
  h <- find_files storage_dir ;;
  match h with
  | None => send_line (nl "ERR cannot open storage") ;; ret (-1)
  | Some entries =>
      let count := Z.of_nat (List.length (filter listed entries)) in
      find_close ;;
      send_line (B "OK " ++ Libc.dec count ++ [LF]) ;;
      h2 <- find_files storage_dir ;;
      list_entries (match h2 with Some entries2 => entries2 | None => [] end) ;;
      find_close ;;
      send_line (nl "END") ;;
      ret 0
  end.

Definition BUF_SIZE : Z := 65536.

Fixpoint upload_loop (fuel : nat) (f : fd) (remaining : Z) : M Z :=
  if remaining >? 0 then
    match fuel with
    | O => ret (-1)
    | S fuel' =>
        let chunk := if remaining >? BUF_SIZE then BUF_SIZE else remaining in
        '(received, buf) <- recv_all (Z.to_nat chunk) ;;
        if received =? SOCKET_ERROR then
          close_handle f ;;
          send_line (nl "ERR recv data failed") ;;
          ret (-1)
        else
          '(ok, written, f') <- write_file f buf ;;
          if negb ok || negb (written =? received) then
            close_handle f ;;
            send_line (nl "ERR write failed") ;;
            ret (-1)
          else upload_loop fuel' f' (remaining - received)
    end
  else
    close_handle f ;;
    send_line (nl "OK SAVED") ;;
    ret 0.

Definition handle_upload (storage_dir filename : bytes) (size : Z) : M Z :=
  if size <? 0 then send_line (nl "ERR invalid size") ;; ret (-1)
  else
    match path_join MAX_PATH storage_dir filename with
    | None => send_line (nl "ERR bad filename") ;; ret (-1)
    | Some path =>
        o <- create_always path ;;
        match o with
        | None => send_line (nl "ERR cannot open file for write") ;; ret (-1)
        | Some f =>
            send_line (nl "OK") ;;
            buf <- Sys.malloc ;;
            if negb buf then
              close_handle f ;;
              send_line (nl "ERR server oom") ;;
              ret (-1)
            else
              fun w => upload_loop (S (List.length (rx w))) f size w
        end
    end.

(** [ReadFile] at the position of the handle. *)
Definition read_file : M Z := fun w => (Some 1, logged WinReadFile w).

(** The [ReadFile] and [send_all] loop of [handle_download], one
    [send_all] for every buffer read: -1 when a [send_all] fails, 0 when
    the file is at its end. *)
Fixpoint send_chunks (fuel : nat) (data : bytes) : M Z :=
  match fuel, data with
  | S fuel', _ :: _ =>
      let n := Z.to_nat BUF_SIZE in
      read_file ;;
      s <- send_all (firstn n data) ;;
      if s =? SOCKET_ERROR then ret (-1)
      else send_chunks fuel' (skipn n data)
  | _, _ => read_file ;; ret 0
  end.

Definition handle_download (storage_dir filename : bytes) : M Z :=
  match path_join MAX_PATH storage_dir filename with
  | None => send_line (nl "ERR bad filename") ;; ret (-1)
  | Some path =>
      o <- open_existing path ;;
      match o with
      | None => send_line (nl "ERR not found") ;; ret (-1)
      | Some f =>
          sz <- get_file_size f ;;
          match sz with
          | None =>
              close_handle f ;;
              send_line (nl "ERR stat failed") ;;
              ret (-1)
          | Some size =>
              send_line (B "OK " ++ Libc.dec size ++ [LF]) ;;
              buf <- Sys.malloc ;;
              if negb buf then close_handle f ;; ret (-1)
              else
                r <- (fun w => send_chunks (List.length (Sys.rest_of f w)) (Sys.rest_of f w) w) ;;
                close_handle f ;;
                ret r
          end
      end
  end.

Definition handle_rename (storage_dir oldname newname : bytes) : M Z :=
  match path_join MAX_PATH storage_dir oldname, path_join MAX_PATH storage_dir newname with
  | Some oldpath, Some newpath =>
      ok <- move_file oldpath newpath ;;
      if negb ok then send_line (nl "ERR rename failed") ;; ret (-1)
      else send_line (nl "OK RENAMED") ;; ret 0
  | _, _ => send_line (nl "ERR bad filename") ;; ret (-1)
  end.

Definition handle_delete (storage_dir filename : bytes) : M Z :=
  match path_join MAX_PATH storage_dir filename with
  | None => send_line (nl "ERR bad filename") ;; ret (-1)
  | Some path =>
      ok <- delete_file path ;;
      if negb ok then send_line (nl "ERR delete failed") ;; ret (-1)
      else send_line (nl "OK DELETED") ;; ret 0
  end.

Definition exec_line (storage_dir line : bytes) : M phase :=
  match dispatch line with
  | CmdList => handle_list storage_dir ;; ret Ready
  | CmdUpload a1 size => handle_upload storage_dir a1 size ;; ret Ready
  | CmdDownload a1 => handle_download storage_dir a1 ;; ret Ready
  | CmdRename a1 a2 => handle_rename storage_dir a1 a2 ;; ret Ready
  | CmdDelete a1 => handle_delete storage_dir a1 ;; ret Ready
  | CmdQuit => send_line (nl "OK BYE") ;; ret Closed
  | CmdUnknown => send_line (nl "ERR unknown command") ;; ret Ready
  end.

Definition handler_step (storage_dir : bytes) : M phase :=
  '(n, buf) <- recv_line MAX_LINE ;;
  if n =? SOCKET_ERROR then ret Closed
  else
    match chomp (Libc.cstr buf) with
    | [] => ret Ready
    | line => exec_line storage_dir line
    end.

Fixpoint client_loop (fuel : nat) (storage_dir : bytes) : M phase :=
  match fuel with
  | O => ret Ready
  | S fuel' =>
      ph <- handler_step storage_dir ;;
      match ph with
      | Closed => ret Closed
      | Ready => client_loop fuel' storage_dir
      end
  end.

Definition client_thread (storage_dir : bytes) : M phase :=
  send_line (nl "OK WELCOME") ;;
  fun w => client_loop (S (List.length (rx w))) storage_dir w.

End Windows.

(** ** Several workers uploading at once

    The calls of [Posix.handle_upload] that touch what workers share, one
    step each, for clients that send their whole payload.  The advisory lock
    is taken in two ways: as the specification takes it, a whole-file lock
    that one worker holds at a time, and as [fcntl] gives it, a lock of the
    process, which the threads of one server never wait for. *)

Module Concurrent.

(** Where a worker stands in [handle_upload]. *)
Inductive upc :=
| AtOpen                          (* before [open(path, O_WRONLY|O_CREAT|O_TRUNC)] *)
| AtLock (f : fd)                 (* before [lock_fd(fd, F_WRLCK)] *)
| InLoop (f : fd) (rest : bytes)  (* in the receive loop; [rest] is still to come *)
| AtUnlock (f : fd)               (* before [unlock_fd(fd)] *)
| Finished.

Record uploader := mkUploader {
  target : bytes;                 (* the joined path *)
  body : bytes;                   (* the payload its client sends *)
  pc : upc
}.

(** Whom a write lock keeps out. *)
Inductive lock_scope :=
| PerWorker                       (* every other worker *)
| PerProcess.                     (* other processes only *)

Record cstate := mkCstate {
  scope : lock_scope;
  shared : world;                 (* the storage tree, shared *)
  holder : option nat;            (* the worker that took the write lock last
                                     and has not given it back *)
  workers : list uploader
}.

Fixpoint set_nth {A} (i : nat) (x : A) (l : list A) : list A :=
  match l, i with
  | [], _ => []
  | _ :: l', O => x :: l'
  | y :: l', S i' => y :: set_nth i' x l'
  end.

Definition at_pc (u : uploader) (p : upc) : uploader := mkUploader (target u) (body u) p.

(** One step of worker [i]; a worker that waits for the lock, or has
    finished, leaves the state as it is.  The uploads are taken on
    connections that stay up: no call of a step ends the process. *)
Definition step (i : nat) (s : cstate) : cstate :=
  match nth_error (workers s) i with
  | None => s
  | Some u =>
      match pc u with
      | AtOpen =>
          match Sys.open (target u) O_WRONLY_CREAT_TRUNC (shared s) with
          | (Some (Some f), w') =>
              mkCstate (scope s) w' (holder s) (set_nth i (at_pc u (AtLock f)) (workers s))
          | (_, w') =>
              mkCstate (scope s) w' (holder s) (set_nth i (at_pc u Finished) (workers s))
          end
      | AtLock f =>
          match scope s, holder s with
          | PerWorker, Some _ => s
          | _, _ =>
              mkCstate (scope s) (shared s) (Some i)
                (set_nth i (at_pc u (InLoop f (body u))) (workers s))
          end
      | InLoop f rest =>
          match rest with
          | [] =>
              mkCstate (scope s) (shared s) (holder s)
                (set_nth i (at_pc u (AtUnlock f)) (workers s))
          | _ =>
              let n := Z.to_nat Posix.BUF in
              match Sys.write f (firstn n rest) (shared s) with
              | (Some (_, f'), w') =>
                  mkCstate (scope s) w' (holder s)
                    (set_nth i (at_pc u (InLoop f' (skipn n rest))) (workers s))
              | (None, w') =>
                  mkCstate (scope s) w' (holder s) (set_nth i (at_pc u Finished) (workers s))
              end
          end
      | AtUnlock f =>
          mkCstate (scope s) (shared s) None (set_nth i (at_pc u Finished) (workers s))
      | Finished => s
      end
  end.

(** The workers scheduled in the order of [sched]. *)
Definition run (sched : list nat) (s : cstate) : cstate :=
  fold_left (fun s i => step i s) sched s.

Definition start (sc : lock_scope) (w : world) (uploads : list (bytes * bytes)) : cstate :=
  mkCstate sc w None (map (fun u => mkUploader (fst u) (snd u) AtOpen) uploads).

(** The worker is between taking and giving back the lock. *)
Definition in_critical (u : uploader) : bool :=
  match pc u with
  | InLoop _ _ | AtUnlock _ => true
  | _ => false
  end.

Definition all_finished (s : cstate) : bool :=
  forallb (fun u => match pc u with Finished => true | _ => false end) (workers s).

End Concurrent.

(** * Specification vocabulary *)

(** The computation leaves the part [proj] of the world as it is. *)
Definition preserves {X A} (proj : world -> X) (m : M A) : Prop :=
  forall w, proj (snd (m w)) = proj w.

(** The names the specification excludes. *)
Definition bad_name (name : bytes) : Prop :=
  (exists pre post, name = pre ++ DOTDOT ++ post) \/ In SLASH name \/ In BACKSLASH name.

(** The last step of a handler: [line] is handed to [send_line] and [r] is
    returned. *)
Definition reply {A} (line : bytes) (r : A) : M A := Posix.send_line line ;; ret r.

(** No [send] ends the process: the connection takes all that is sent, or
    a [send] that fails does so without SIGPIPE. *)
Definition no_sigpipe (w : world) : Prop :=
  tx_room w = None \/ tx_end w <> SendSigpipe.

(** The computation leaves the state of the connection alone but for what
    it sends, and only a SIGPIPE ends it early. *)
Definition steady {A} (m : M A) : Prop :=
  forall w,
    tx_end (snd (m w)) = tx_end w
    /\ (tx_room w = None -> tx_room (snd (m w)) = None)
    /\ (no_sigpipe w -> fst (m w) <> None).

(** Nothing was sent between [w] and [wb]. *)
Definition same_link (w wb : world) : Prop :=
  tx wb = tx w /\ tx_room wb = tx_room w /\ tx_end wb = tx_end w.

(** The environment of the worker is the same in [w] and [wb], but for the
    room on the device. *)
Definition same_env (w wb : world) : Prop :=
  rx_end wb = rx_end w /\ lock_ok wb = lock_ok w /\ malloc_ok wb = malloc_ok w
  /\ fstat_ok wb = fstat_ok w /\ open_ok wb = open_ok w.

(** [l] is [e], or the first part of it. *)
Definition part_of (l e : bytes) : Prop := exists n, l = firstn n e.

(** How the receive loop can end; [c] is the content of the file when the
    loop is entered, [remaining] the number of bytes still expected and
    [wb] the world in which the last reply is sent.  The file has got the
    bytes [d] of the stream; [t] is what followed them.  The loop gives up
    on a [recv_all] that returns nothing, which after a stream that was
    closed leaves no byte behind, and on a [write] that the device takes
    only in part, which leaves the device full. *)
Inductive loop_outcome (w : world) (f : fd) (c : bytes) (remaining : Z)
  : option Z * world -> Prop :=
| LoopSaved wb d t :
    fs_lookup (fd_key f) (fs wb) = Some (Reg (c ++ d)) ->
    payload (rx w) = d ++ t ->
    Z.of_nat (List.length d) = remaining ->
    payload (rx wb) = t ->
    same_link w wb ->
    loop_outcome w f c remaining (reply (nl "OK SAVED") 0 wb)
| LoopRecvFailed wb d t :
    fs_lookup (fd_key f) (fs wb) = Some (Reg (c ++ d)) ->
    payload (rx w) = d ++ t ->
    Z.of_nat (List.length d) < remaining ->
    rx wb = [] ->
    (rx_end w = PeerClosed -> t = []) ->
    same_link w wb ->
    loop_outcome w f c remaining (reply (nl "ERR recv data failed") (-1) wb)
| LoopWriteFailed wb d t :
    fs_lookup (fd_key f) (fs wb) = Some (Reg (c ++ d)) ->
    payload (rx w) = d ++ t ->
    Z.of_nat (List.length d) < remaining ->
    List.length d = disk_free w ->
    t <> [] ->
    same_link w wb ->
    loop_outcome w f c remaining (reply (nl "ERR write failed") (-1) wb).

(** How an upload that has opened its file as [f], leaving the world [w1],
    can go on. *)
Inductive after_open (size : Z) (f : fd) (w1 : world) : option Z * world -> Prop :=
| AoNoLock :
    lock_ok w1 = false ->
    after_open size f w1
      (reply (nl "ERR cannot lock file") (-1) (logged SysClose (logged (SysFcntl F_WRLCK) w1)))
| AoEnded w2 :
    lock_ok w1 = true ->
    Posix.send_line (nl "OK") (logged (SysFcntl F_WRLCK) w1) = (None, w2) ->
    after_open size f w1 (None, w2)
| AoOom n w2 :
    lock_ok w1 = true ->
    Posix.send_line (nl "OK") (logged (SysFcntl F_WRLCK) w1) = (Some n, w2) ->
    malloc_ok w1 = false ->
    after_open size f w1
      (reply (nl "ERR server oom") (-1) (logged SysClose (logged (SysFcntl F_UNLCK) w2)))
| AoLoop n w2 res :
    lock_ok w1 = true ->
    Posix.send_line (nl "OK") (logged (SysFcntl F_WRLCK) w1) = (Some n, w2) ->
    malloc_ok w1 = true ->
    loop_outcome w2 f [] size res ->
    after_open size f w1 res.

(** Every way [handle_upload] can go. *)
Inductive upload_outcome (storage_dir name : bytes) (size : Z) (w : world)
  : option Z * world -> Prop :=
| UpInvalidSize :
    size < 0 ->
    upload_outcome storage_dir name size w (reply (nl "ERR invalid size") (-1) w)
| UpBadName :
    0 <= size ->
    Posix.path_join MAX_PATH storage_dir name = None ->
    upload_outcome storage_dir name size w (reply (nl "ERR bad filename") (-1) w)
| UpCannotOpen path :
    0 <= size ->
    Posix.path_join MAX_PATH storage_dir name = Some path ->
    fst (Sys.open path O_WRONLY_CREAT_TRUNC w) = Some None ->
    upload_outcome storage_dir name size w
      (reply (nl "ERR cannot open file for write") (-1)
         (logged (SysOpen path O_WRONLY_CREAT_TRUNC) w))
| UpOpened path f res :
    0 <= size ->
    Posix.path_join MAX_PATH storage_dir name = Some path ->
    fst (Sys.open path O_WRONLY_CREAT_TRUNC w) = Some (Some f) ->
    fd_key f = resolve path ->
    after_open size f (snd (Sys.open path O_WRONLY_CREAT_TRUNC w)) res ->
    upload_outcome storage_dir name size w res.

(** The error replies the specification lists for UPLOAD. *)
Definition upload_errors_listed : list bytes :=
  [nl "ERR invalid size"; nl "ERR bad filename"; nl "ERR cannot open file for write";
   nl "ERR recv data failed"; nl "ERR write failed"].

(** The error replies [handle_upload] has. *)
Definition upload_errors : list bytes :=
  upload_errors_listed ++ [nl "ERR cannot lock file"; nl "ERR server oom"].

(** The lines [handle_upload] sends. *)
Definition upload_lines : list bytes := [nl "OK"; nl "OK SAVED"] ++ upload_errors.

(** An error reply starts with ERR. *)
Definition is_error_line (l : bytes) : bool := Libc.starts_with (B "ERR") l.

(** The FILE line of an entry, as [send_line] puts it on the wire. *)
Definition file_line (e : bytes * bool * Z) : bytes :=
  let '(name, _, size) := e in
  firstn (MAX_LINE - 1) (B "FILE " ++ name ++ B " " ++ Libc.dec size ++ [LF]).

(** Where a write lock keeps the other workers out it has one holder: a
    worker between [lock_fd] and [unlock_fd] is the holder, so no two
    workers are there at once. *)
Definition lock_inv (s : Concurrent.cstate) : Prop :=
  Concurrent.scope s = Concurrent.PerWorker ->
  forall i u,
    nth_error (Concurrent.workers s) i = Some u ->
    Concurrent.in_critical u = true ->
    Concurrent.holder s = Some i.

(** The computation takes items off the socket and puts none back. *)
Definition shrinks {A} (m : M A) : Prop :=
  forall w, (List.length (rx (snd (m w))) <= List.length (rx w))%nat.


(** The FILE line [Posix.list_entries] sends for [name], if it sends one. *)
Definition posix_file_line (storage_dir : bytes) (t : fsys) (name : bytes) : list bytes :=
  if Libc.strcmp0 name [DOT] || Libc.strcmp0 name DOTDOT then []
  else
    match Posix.path_join MAX_PATH storage_dir name with
    | None => []
    | Some path =>
        match fs_lookup (resolve path) t with
        | Some (Reg data) =>
            [firstn (MAX_LINE - 1)
               (B "FILE " ++ name ++ B " " ++ Libc.dec (Z.of_nat (List.length data)) ++ [LF])]
        | _ => []
        end
    end.

(** ** Worlds to run the model in *)

(** A client that sends QUITTING and then LIST. *)
Definition quitting_world : world :=
  mkWorld [([B "storage"], Dir)] (wire (nl "QUITTING" ++ nl "LIST")) PeerClosed
          [] [] 100 true true true true None SendError.

(** A client that sends one line, [head] followed by [tail]. *)
Definition long_line_world (head tail : bytes) : world :=
  mkWorld [([B "storage"], Dir)] (wire head ++ wire (tail ++ [LF])) PeerClosed
          [] [] 100 true true true true None SendError.

(** A client that sends QUIT without a newline and goes away. *)
Definition cut_line_world : world :=
  mkWorld [([B "storage"], Dir)] (wire (B "QUIT")) PeerClosed [] [] 100 true true true true None SendError.

(** A storage directory with the file [a]. *)
Definition small_world (input : bytes) : world :=
  mkWorld [([B "storage"], Dir); ([B "storage"; B "a"], Reg (B "old content"))]
          (wire input) PeerClosed [] [] 100 true true true true None SendError.

(** The same, where the lock cannot be taken. *)
Definition no_lock_world : world :=
  mkWorld [([B "storage"], Dir); ([B "storage"; B "a"], Reg (B "old content"))]
          (wire (B "new")) PeerClosed [] [] 100 false true true true None SendError.

(** The same, where [open] is refused. *)
Definition no_open_world : world :=
  mkWorld [([B "storage"], Dir); ([B "storage"; B "a"], Reg (B "old content"))]
          (wire (B "new")) PeerClosed [] [] 100 true true true false None SendError.

(** A client that asks for [a] and for its deletion and takes twenty
    bytes; after that a [send] fails with an error. *)
Definition cut_download_world : world :=
  mkWorld [([B "storage"], Dir); ([B "storage"; B "a"], Reg (B "old content"))]
          (wire (nl "DOWNLOAD a" ++ nl "DELETE a")) PeerClosed [] [] 100
          true true true true (Some 20%nat) SendError.

(** A client that announces ten bytes, sends five and goes away. *)
Definition half_upload_world : world :=
  mkWorld [([B "storage"], Dir)] (wire (nl "UPLOAD f 10" ++ B "12345")) PeerClosed
          [] [] 100 true true true true None SendError.

(** A storage directory with a file and a subdirectory. *)
Definition mixed_dir_world : world :=
  mkWorld [([B "storage"], Dir);
           ([B "storage"; B "a"], Reg (B "abc"));
           ([B "storage"; B "sub"], Dir)]
          [] PeerClosed [] [] 100 true true true true None SendError.

(** Two workers that upload to the same name. *)
Definition two_uploads : Concurrent.cstate :=
  Concurrent.start Concurrent.PerWorker
    (mkWorld [([B "storage"], Dir)] [] PeerClosed [] [] 100 true true true true None SendError)
    [(B "storage/f", B "AAAA"); (B "storage/f", B "BB")].

(** * Running the model *)

Example parse_upload_fmt :
  Libc.parse_fmt "UPLOAD %1023s %lld"
  = map Libc.DLit (B "UPLOAD") ++ [Libc.DSpace; Libc.DStr 1023; Libc.DSpace; Libc.DLld].
Proof. reflexivity. Qed.

Example dispatch_examples :
  dispatch (B "UPLOAD a.txt 12") = CmdUpload (B "a.txt") 12
  /\ dispatch (B "UPLOAD a.txt") = CmdUnknown
  /\ dispatch (B "DOWNLOAD a.txt") = CmdDownload (B "a.txt")
  /\ dispatch (B "RENAME a b") = CmdRename (B "a") (B "b")
  /\ dispatch (B "DELETE a") = CmdDelete (B "a")
  /\ dispatch (B "LISTED x") = CmdList
  /\ dispatch (B "QUITTING") = CmdQuit
  /\ dispatch (B "LIS") = CmdUnknown.
Proof. vm_compute. repeat split. Qed.

Example session :
  let w := mkWorld [([B "storage"], Dir)]
             (wire (nl "UPLOAD b 5" ++ B "hello" ++ nl "LIST" ++ nl "DOWNLOAD b"
                    ++ nl "RENAME b c" ++ nl "DELETE c" ++ nl "NOP" ++ nl "QUIT"))
             PeerClosed [] [] 100 true true true true None SendError in
  let r := Posix.client_thread (B "storage") w in
  fst r = Some Closed
  /\ tx (snd r)
     = [nl "OK WELCOME"; nl "OK"; nl "OK SAVED"; nl "OK 1"; nl "FILE b 5"; nl "END";
        nl "OK 5"; B "hello"; nl "OK RENAMED"; nl "OK DELETED"; nl "ERR unknown command";
        nl "OK BYE"]
  /\ fs (snd r) = [([B "storage"], Dir)].
Proof. vm_compute. repeat split. Qed.

(** * Properties *)

(** ** C strings *)

Lemma bytes_eqb_refl (a : bytes) : bytes_eqb a a = true.
Proof.
  induction a as [|x a IH]; simpl; [reflexivity|].
  now rewrite Ascii.eqb_refl.
Qed.

Lemma bytes_eqb_eq (a b : bytes) : bytes_eqb a b = true <-> a = b.
Proof.
  split.
  - revert b. induction a as [|x a IH]; destruct b as [|y b]; simpl; try discriminate; auto.
    intros H. apply andb_true_iff in H. destruct H as [Hx Hr].
    apply Ascii.eqb_eq in Hx. subst y. f_equal. now apply IH.
  - intros ->. apply bytes_eqb_refl.
Qed.

Lemma bytes_eqb_neq (a b : bytes) : a <> b -> bytes_eqb a b = false.
Proof.
  intros H. destruct (bytes_eqb a b) eqn:E; [|reflexivity].
  apply bytes_eqb_eq in E. contradiction.
Qed.

Lemma key_eqb_refl (k : list bytes) : key_eqb k k = true.
Proof.
  induction k as [|x k IH]; simpl; [reflexivity|].
  now rewrite bytes_eqb_refl.
Qed.

Lemma key_eqb_eq (a b : list bytes) : key_eqb a b = true <-> a = b.
Proof.
  split.
  - revert b. induction a as [|x a IH]; destruct b as [|y b]; simpl; try discriminate; auto.
    intros H. apply andb_true_iff in H. destruct H as [Hx Hr].
    apply bytes_eqb_eq in Hx. subst y. f_equal. now apply IH.
  - intros ->. apply key_eqb_refl.
Qed.

Lemma strchr_In (s : bytes) (c : ascii) : Libc.strchr s c = true <-> In c s.
Proof.
  induction s as [|x s IH]; simpl.
  - split; [discriminate | tauto].
  - rewrite orb_true_iff, IH, Ascii.eqb_eq. tauto.
Qed.

Lemma starts_with_app (n s : bytes) :
  Libc.starts_with n s = true <-> exists post, s = n ++ post.
Proof.
  revert s. induction n as [|x n IH]; intros s; simpl.
  - split; [intros _; now exists s | reflexivity].
  - destruct s as [|y s].
    + split; [discriminate | intros [post H]; discriminate].
    + rewrite andb_true_iff, Ascii.eqb_eq, IH. split.
      * intros [-> [post ->]]. now exists post.
      * intros [post H]. injection H as -> ->. split; [reflexivity | now exists post].
Qed.

(** [strstr] finds the needle exactly when it is a substring. *)
Lemma strstr_substring (s n : bytes) :
  Libc.strstr s n = true <-> exists pre post, s = pre ++ n ++ post.
Proof.
  induction s as [|x s IH].
  - simpl. rewrite orb_false_r, starts_with_app. split.
    + intros [post H]. now exists [], post.
    + intros [pre [post H]]. destruct pre as [|p pre]; [|discriminate].
      now exists post.
  - simpl Libc.strstr. rewrite orb_true_iff, starts_with_app, IH. split.
    + intros [[post H] | [pre [post H]]].
      * now exists [], post.
      * exists (x :: pre), post. simpl. now rewrite H.
    + intros [pre [post H]]. destruct pre as [|p pre].
      * left. now exists post.
      * right. injection H as -> ->. now exists pre, post.
Qed.

Lemma set_rx_same (w : world) : set_rx (rx w) w = w.
Proof. now destruct w. Qed.

(** ** The line codec *)

Lemma posix_recv_line_from_eq items tl cap out :
  Posix.recv_line_from items tl cap out =
  if (List.length out + 1 <? cap)%nat then
    match items with
    | [] =>
        match tl with
        | RecvError => (-1, out, [])
        | PeerClosed =>
            if (List.length out =? 0)%nat then (0, out, [])
            else (Z.of_nat (List.length out), out, [])
        end
    | Eintr :: rest => Posix.recv_line_from rest tl cap out
    | Data c :: rest =>
        if Ascii.eqb c LF then (Z.of_nat (List.length out + 1), out ++ [c], rest)
        else Posix.recv_line_from rest tl cap (out ++ [c])
    end
  else (Z.of_nat (List.length out), out, items).
Proof. destruct items; reflexivity. Qed.

Lemma windows_recv_line_from_eq items maxlen out :
  Windows.recv_line_from items maxlen out =
  if (List.length out <? maxlen - 1)%nat then
    match items with
    | [] => (Windows.SOCKET_ERROR, out, [])
    | Eintr :: rest => (Windows.SOCKET_ERROR, out, rest)
    | Data c :: rest =>
        if Ascii.eqb c LF then (Z.of_nat (List.length out + 1), out ++ [c], rest)
        else Windows.recv_line_from rest maxlen (out ++ [c])
    end
  else (Z.of_nat (List.length out), out, items).
Proof. destruct items; reflexivity. Qed.

Lemma eqb_LF_false (c : ascii) (s : bytes) :
  Libc.strchr (c :: s) LF = false -> Ascii.eqb c LF = false /\ Libc.strchr s LF = false.
Proof. simpl. intros H. now apply orb_false_iff in H. Qed.

(** A buffer that fills up before a newline arrives: the reader stops with
    [cap - 1] bytes and leaves the rest on the socket. *)
Lemma posix_recv_line_full (pre : bytes) :
  forall rest tl cap out,
    Libc.strchr pre LF = false ->
    (List.length out + List.length pre + 1 = cap)%nat ->
    Posix.recv_line_from (wire pre ++ rest) tl cap out
    = (Z.of_nat (cap - 1), out ++ pre, rest).
Proof.
  induction pre as [|c pre IH]; intros rest tl cap out Hnl Hlen.
  - unfold wire. simpl map. simpl app. simpl in Hlen.
    rewrite posix_recv_line_from_eq.
    replace (List.length out + 1 <? cap)%nat with false
      by (symmetry; apply Nat.ltb_ge; lia).
    rewrite app_nil_r. do 3 f_equal. lia.
  - apply eqb_LF_false in Hnl. destruct Hnl as [Hc Hnl].
    unfold wire. simpl map. simpl app. fold (wire pre). rewrite posix_recv_line_from_eq.
    replace (List.length out + 1 <? cap)%nat with true
      by (symmetry; apply Nat.ltb_lt; simpl in Hlen; lia).
    rewrite Hc. rewrite IH; auto.
    + now rewrite <- app_assoc.
    + rewrite length_app. simpl in *. lia.
Qed.

(** The stream ends before a newline and before the buffer is full. *)
Lemma posix_recv_line_eof (pre : bytes) :
  forall cap out,
    Libc.strchr pre LF = false ->
    (List.length out + List.length pre + 1 < cap)%nat ->
    Posix.recv_line_from (wire pre) PeerClosed cap out
    = (if (List.length (out ++ pre) =? 0)%nat then 0 else Z.of_nat (List.length (out ++ pre)),
       out ++ pre, []).
Proof.
  induction pre as [|c pre IH]; intros cap out Hnl Hlen.
  - unfold wire. simpl map. simpl in Hlen. rewrite posix_recv_line_from_eq.
    replace (List.length out + 1 <? cap)%nat with true
      by (symmetry; apply Nat.ltb_lt; lia).
    rewrite app_nil_r. now destruct (List.length out =? 0)%nat.
  - apply eqb_LF_false in Hnl. destruct Hnl as [Hc Hnl].
    unfold wire. simpl map. fold (wire pre). rewrite posix_recv_line_from_eq.
    replace (List.length out + 1 <? cap)%nat with true
      by (symmetry; apply Nat.ltb_lt; simpl in Hlen; lia).
    rewrite Hc. rewrite IH; auto.
    + now rewrite <- app_assoc.
    + rewrite length_app. simpl in *. lia.
Qed.

Lemma windows_recv_line_eof (pre : bytes) :
  forall maxlen out,
    Libc.strchr pre LF = false ->
    (List.length out + List.length pre + 1 < maxlen)%nat ->
    Windows.recv_line_from (wire pre) maxlen out = (Windows.SOCKET_ERROR, out ++ pre, []).
Proof.
  induction pre as [|c pre IH]; intros maxlen out Hnl Hlen.
  - unfold wire. simpl map. simpl in Hlen. rewrite windows_recv_line_from_eq.
    replace (List.length out <? maxlen - 1)%nat with true
      by (symmetry; apply Nat.ltb_lt; lia).
    now rewrite app_nil_r.
  - apply eqb_LF_false in Hnl. destruct Hnl as [Hc Hnl].
    unfold wire. simpl map. fold (wire pre). rewrite windows_recv_line_from_eq.
    replace (List.length out <? maxlen - 1)%nat with true
      by (symmetry; apply Nat.ltb_lt; simpl in Hlen; lia).
    rewrite Hc. rewrite IH; auto.
    + now rewrite <- app_assoc.
    + rewrite length_app. simpl in *. lia.
Qed.
(** ** The connection *)

(** What a loop of sends leaves alone. *)
Lemma push_frame data w :
  let w' := snd (Sys.push data w) in
  fs w' = fs w /\ rx w' = rx w /\ rx_end w' = rx_end w /\ calls w' = calls w
  /\ disk_free w' = disk_free w /\ lock_ok w' = lock_ok w /\ malloc_ok w' = malloc_ok w
  /\ fstat_ok w' = fstat_ok w /\ open_ok w' = open_ok w /\ tx_end w' = tx_end w
  /\ (tx_room w = None -> tx_room w' = None).
Proof.
  unfold Sys.push. destruct (tx_room w) as [room|] eqn:E.
  - destruct (List.length data <=? room)%nat; [|destruct room];
      simpl; repeat split; intros H; discriminate H.
  - simpl. repeat split. intros _. exact E.
Qed.

(** On a connection that takes everything, all of [data] goes out. *)
Lemma push_up data w :
  tx_room w = None -> Sys.push data w = (List.length data, None, sent data w).
Proof. intros H. unfold Sys.push. now rewrite H. Qed.

Lemma posix_send_all_up buf w :
  tx_room w = None ->
  Posix.send_all buf w = (Some (Z.of_nat (List.length buf)), sent buf w).
Proof. intros H. unfold Posix.send_all. now rewrite (push_up _ _ H). Qed.

Lemma posix_send_line_up text w :
  tx_room w = None ->
  Posix.send_line text w
  = (Some (Z.of_nat (List.length (firstn (MAX_LINE - 1) text))),
     sent (firstn (MAX_LINE - 1) text) w).
Proof. intros H. unfold Posix.send_line. now apply posix_send_all_up. Qed.

Lemma windows_send_line_up text w :
  tx_room w = None ->
  Windows.send_line text w
  = (Some (Z.of_nat (List.length (firstn (MAX_LINE - 1) text))),
     sent (firstn (MAX_LINE - 1) text) w).
Proof.
  intros H. unfold Windows.send_line, Windows.send_all. now rewrite (push_up _ _ H).
Qed.

Lemma reply_up {A} line (r : A) w :
  tx_room w = None ->
  reply line r w = (Some r, sent (firstn (MAX_LINE - 1) line) w).
Proof. intros H. unfold reply, bind. now rewrite (posix_send_line_up _ _ H). Qed.

(** What a send leaves alone, and what it puts on the wire: nothing, the
    text, or the first part of it. *)
Lemma posix_send_all_frame buf w :
  let w' := snd (Posix.send_all buf w) in
  fs w' = fs w /\ rx w' = rx w /\ rx_end w' = rx_end w /\ calls w' = calls w
  /\ disk_free w' = disk_free w /\ lock_ok w' = lock_ok w /\ malloc_ok w' = malloc_ok w
  /\ fstat_ok w' = fstat_ok w /\ open_ok w' = open_ok w /\ tx_end w' = tx_end w
  /\ (tx_room w = None -> tx_room w' = None).
Proof.
  pose proof (push_frame buf w) as H. unfold Posix.send_all.
  destruct (Sys.push buf w) as [[n [[| |]|]] w']; exact H.
Qed.

Lemma windows_send_all_frame buf w :
  let w' := snd (Windows.send_all buf w) in
  fs w' = fs w /\ rx w' = rx w /\ rx_end w' = rx_end w /\ calls w' = calls w
  /\ disk_free w' = disk_free w /\ lock_ok w' = lock_ok w /\ malloc_ok w' = malloc_ok w
  /\ fstat_ok w' = fstat_ok w /\ open_ok w' = open_ok w /\ tx_end w' = tx_end w
  /\ (tx_room w = None -> tx_room w' = None).
Proof.
  pose proof (push_frame buf w) as H. unfold Windows.send_all.
  destruct (Sys.push buf w) as [[n [e|]] w']; exact H.
Qed.

Lemma push_tx data w :
  exists out,
    tx (snd (Sys.push data w)) = tx w ++ out
    /\ (out = [] \/ exists n, out = [firstn n data])
    /\ (snd (fst (Sys.push data w)) = None -> out = [data]).
Proof.
  unfold Sys.push. destruct (tx_room w) as [room|].
  - destruct (List.length data <=? room)%nat eqn:E.
    + exists [data]. simpl. repeat split. right. exists (List.length data).
      now rewrite firstn_all.
    + destruct room as [|room]; simpl.
      * exists []. rewrite app_nil_r. repeat split; [now left | discriminate].
      * exists [firstn (S room) data]. repeat split; [|discriminate].
        right. now exists (S room).
  - exists [data]. simpl. repeat split. right. exists (List.length data).
    now rewrite firstn_all.
Qed.

Lemma posix_send_all_tx buf w :
  exists out,
    tx (snd (Posix.send_all buf w)) = tx w ++ out
    /\ (out = [] \/ exists n, out = [firstn n buf])
    /\ (tx_room w = None -> out = [buf]).
Proof.
  destruct (push_tx buf w) as (out & Htx & Hout & Hall).
  exists out. unfold Posix.send_all.
  pose proof (push_up buf w) as Hup.
  destruct (Sys.push buf w) as [[n [[| |]|]] w']; simpl in *;
    (repeat split; [exact Htx | exact Hout |]); intros H;
    try (specialize (Hup H); discriminate Hup); now apply Hall.
Qed.

(** A reply changes nothing but what was sent and what the connection
    still takes. *)
Lemma reply_frame {A} line (r : A) w :
  let w' := snd (reply line r w) in
  fs w' = fs w /\ rx w' = rx w /\ rx_end w' = rx_end w /\ calls w' = calls w
  /\ disk_free w' = disk_free w /\ lock_ok w' = lock_ok w /\ malloc_ok w' = malloc_ok w
  /\ fstat_ok w' = fstat_ok w /\ open_ok w' = open_ok w /\ tx_end w' = tx_end w
  /\ (tx_room w = None -> tx_room w' = None).
Proof.
  pose proof (posix_send_all_frame (firstn (MAX_LINE - 1) line) w) as H.
  unfold reply, bind, Posix.send_line.
  destruct (Posix.send_all (firstn (MAX_LINE - 1) line) w) as [[n|] w']; exact H.
Qed.

Lemma reply_tx {A} line (r : A) w :
  exists out,
    tx (snd (reply line r w)) = tx w ++ out
    /\ (out = [] \/ exists n, out = [firstn n (firstn (MAX_LINE - 1) line)])
    /\ (tx_room w = None -> out = [firstn (MAX_LINE - 1) line]).
Proof.
  destruct (posix_send_all_tx (firstn (MAX_LINE - 1) line) w) as (out & Htx & Hout & Hall).
  exists out. unfold reply, bind, Posix.send_line.
  destruct (Posix.send_all (firstn (MAX_LINE - 1) line) w) as [[n|] w']; auto.
Qed.

(** A reply returns its value unless the send ends the process. *)
Lemma reply_value {A} line (r : A) w :
  fst (reply line r w) = Some r \/ fst (reply line r w) = None.
Proof.
  unfold reply, bind. destruct (Posix.send_line line w) as [[n|] w']; auto.
Qed.

Lemma reply_survives {A} line (r : A) w :
  no_sigpipe w -> fst (reply line r w) = Some r.
Proof.
  intros H. unfold reply, bind, Posix.send_line, Posix.send_all, Sys.push.
  destruct (tx_room w) as [room|] eqn:Er; [|reflexivity].
  destruct (List.length _ <=? room)%nat; [reflexivity|].
  destruct (tx_end w) eqn:Ee; try reflexivity.
  destruct H as [H|H]; [congruence | contradiction].
Qed.

(** ** What a computation leaves alone *)

Section Frame.

Context {X : Type} (proj : world -> X).

Lemma preserves_ret {A} (a : A) : preserves proj (ret a).
Proof. intros w. reflexivity. Qed.

Lemma preserves_bind {A C} (m : M A) (k : A -> M C) :
  preserves proj m -> (forall a, preserves proj (k a)) -> preserves proj (bind m k).
Proof.
  intros Hm Hk w. unfold bind. specialize (Hm w).
  destruct (m w) as [[a|] w1]; simpl in Hm; [now rewrite Hk | exact Hm].
Qed.

End Frame.

Ltac frame_step :=
  first
    [ apply preserves_ret
    | apply preserves_bind; [|intros]
    | match goal with
      | |- preserves _ (match ?x with _ => _ end) => destruct x
      end ].

Lemma rx_sent b w : rx (sent b w) = rx w.
Proof. reflexivity. Qed.

Lemma posix_send_line_rx text : preserves rx (Posix.send_line text).
Proof. intros w. apply posix_send_all_frame. Qed.

Lemma windows_send_line_rx text : preserves rx (Windows.send_line text).
Proof. intros w. apply windows_send_all_frame. Qed.

Lemma sys_open_rx path m : preserves rx (Sys.open path m).
Proof.
  intros w. unfold Sys.open.
  destruct m; repeat (match goal with
                      | |- context [match ?x with _ => _ end] => destruct x
                      end); reflexivity.
Qed.

Lemma sys_close_rx f : preserves rx (Sys.close f).
Proof. intros w. reflexivity. Qed.

Lemma sys_fcntl_rx f t : preserves rx (Sys.fcntl f t).
Proof. intros w. unfold Sys.fcntl. now destruct t. Qed.

Lemma sys_fstat_rx f : preserves rx (Sys.fstat f).
Proof.
  intros w. unfold Sys.fstat.
  repeat (match goal with
          | |- context [match ?x with _ => _ end] => destruct x
          end); reflexivity.
Qed.

Lemma sys_stat_rx path : preserves rx (Sys.stat path).
Proof.
  intros w. unfold Sys.stat.
  now destruct (fs_lookup (resolve path) (fs w)).
Qed.

Lemma sys_unlink_rx path : preserves rx (Sys.unlink path).
Proof.
  intros w. unfold Sys.unlink.
  destruct (fs_lookup (resolve path) (fs w)) as [[|]|]; reflexivity.
Qed.

Lemma sys_rename_rx oldp newp : preserves rx (Sys.rename oldp newp).
Proof.
  intros w. unfold Sys.rename.
  repeat (match goal with
          | |- context [match ?x with _ => _ end] => destruct x
          end); reflexivity.
Qed.

Lemma sys_opendir_rx path : preserves rx (Sys.opendir path).
Proof.
  intros w. unfold Sys.opendir.
  destruct (fs_lookup (resolve path) (fs w)) as [[|]|]; reflexivity.
Qed.

Lemma sys_closedir_rx : preserves rx Sys.closedir.
Proof. intros w. reflexivity. Qed.

Lemma sys_malloc_rx : preserves rx Sys.malloc.
Proof. intros w. reflexivity. Qed.

Lemma posix_sendfile_rx f : preserves rx (Posix.sendfile_all f).
Proof.
  intros w. unfold Posix.sendfile_all. destruct (Sys.rest_of f w) as [|c data]; [reflexivity|].
  pose proof (push_frame (c :: data) (logged SysSendfile w)) as H.
  destruct (Sys.push (c :: data) (logged SysSendfile w)) as [[n [[| |]|]] w'];
    exact (proj1 (proj2 H)).
Qed.

Create HintDb rxframe.

#[local] Hint Resolve posix_send_line_rx windows_send_line_rx sys_open_rx sys_close_rx
  sys_fcntl_rx sys_fstat_rx sys_stat_rx sys_unlink_rx sys_rename_rx sys_opendir_rx
  sys_closedir_rx sys_malloc_rx posix_sendfile_rx : rxframe.

Ltac rx_frame := repeat first [ solve [auto with rxframe] | frame_step ].

Lemma posix_list_entries_rx storage_dir names :
  preserves rx (Posix.list_entries storage_dir names).
Proof.
  induction names as [|name names IH]; simpl.
  - apply preserves_ret.
  - destruct (Libc.strcmp0 name [DOT] || Libc.strcmp0 name DOTDOT); [exact IH|].
    destruct (Posix.path_join MAX_PATH storage_dir name); [|exact IH].
    apply preserves_bind; [auto with rxframe|]. intros [[[|] size]|]; try exact IH.
    apply preserves_bind; [auto with rxframe|]. intros _. exact IH.
Qed.

#[local] Hint Resolve posix_list_entries_rx : rxframe.

Lemma posix_handle_list_rx storage_dir : preserves rx (Posix.handle_list storage_dir).
Proof. unfold Posix.handle_list. rx_frame. Qed.

Lemma posix_handle_download_rx storage_dir name :
  preserves rx (Posix.handle_download storage_dir name).
Proof. unfold Posix.handle_download, Posix.lock_fd, Posix.unlock_fd. rx_frame. Qed.

Lemma posix_handle_rename_rx storage_dir oldn newn :
  preserves rx (Posix.handle_rename storage_dir oldn newn).
Proof. unfold Posix.handle_rename, Posix.lock_fd, Posix.unlock_fd. rx_frame. Qed.

Lemma posix_handle_delete_rx storage_dir name :
  preserves rx (Posix.handle_delete storage_dir name).
Proof. unfold Posix.handle_delete, Posix.lock_fd, Posix.unlock_fd. rx_frame. Qed.

#[local] Hint Resolve posix_handle_list_rx posix_handle_download_rx posix_handle_rename_rx
  posix_handle_delete_rx : rxframe.

(** ** What ends a computation early *)

Lemma steady_ret {A} (a : A) : steady (ret a).
Proof. intros w. simpl. repeat split; [auto | discriminate]. Qed.

Lemma no_sigpipe_kept w w' :
  tx_end w' = tx_end w -> (tx_room w = None -> tx_room w' = None) ->
  no_sigpipe w -> no_sigpipe w'.
Proof.
  intros He Hr [H|H]; [left; auto | right; now rewrite He].
Qed.

Lemma steady_bind {A C} (m : M A) (k : A -> M C) :
  steady m -> (forall a, steady (k a)) -> steady (bind m k).
Proof.
  intros Hm Hk w. unfold bind. destruct (Hm w) as (He & Hr & Hs).
  destruct (m w) as [[a|] w1]; simpl in *.
  - destruct (Hk a w1) as (He' & Hr' & Hs'). split; [|split].
    + now rewrite He'.
    + auto.
    + intros H. apply Hs'. exact (no_sigpipe_kept _ _ He Hr H).
  - split; [exact He|]. split; [exact Hr|].
    intros H. exfalso. now apply (Hs H).
Qed.

(** A call that returns and leaves the connection alone. *)
Lemma steady_call {A} (m : M A) :
  (forall w, exists a w', m w = (Some a, w') /\ tx_end w' = tx_end w
                          /\ tx_room w' = tx_room w) ->
  steady m.
Proof.
  intros H w. destruct (H w) as (a & w' & -> & He & Hr). simpl.
  repeat split; [exact He | intros H0; now rewrite Hr | discriminate].
Qed.

Ltac steady_call :=
  apply steady_call; intros ?w; cbv beta zeta delta
    [Sys.open Sys.close Sys.fcntl Sys.write Sys.fsync Sys.fstat Sys.stat Sys.unlink
     Sys.rename Sys.opendir Sys.closedir Sys.malloc Posix.lock_fd Posix.unlock_fd
     Posix.recv_all Posix.recv_line Windows.recv_all Windows.recv_line
     Windows.create_always Windows.open_existing Windows.close_handle Windows.write_file
     Windows.get_file_size Windows.move_file Windows.delete_file Windows.find_files
     Windows.find_close Windows.read_file];
  repeat match goal with
         | |- context [match ?x with _ => _ end] => destruct x
         | |- context [if ?x then _ else _] => destruct x
         end;
  eexists _, _; (split; [reflexivity | split; reflexivity]).

Lemma sys_open_steady path m : steady (Sys.open path m).
Proof. steady_call. Qed.

Lemma sys_close_steady f : steady (Sys.close f).
Proof. steady_call. Qed.

Lemma sys_fcntl_steady f t : steady (Sys.fcntl f t).
Proof. steady_call. Qed.

Lemma posix_lock_steady f t : steady (Posix.lock_fd f t).
Proof. steady_call. Qed.

Lemma posix_unlock_steady f : steady (Posix.unlock_fd f).
Proof. steady_call. Qed.

Lemma sys_write_steady f buf : steady (Sys.write f buf).
Proof. steady_call. Qed.

Lemma sys_fsync_steady f : steady (Sys.fsync f).
Proof. steady_call. Qed.

Lemma sys_fstat_steady f : steady (Sys.fstat f).
Proof. steady_call. Qed.

Lemma sys_stat_steady path : steady (Sys.stat path).
Proof. steady_call. Qed.

Lemma sys_unlink_steady path : steady (Sys.unlink path).
Proof. steady_call. Qed.

Lemma sys_rename_steady oldp newp : steady (Sys.rename oldp newp).
Proof. steady_call. Qed.

Lemma sys_opendir_steady path : steady (Sys.opendir path).
Proof. steady_call. Qed.

Lemma sys_closedir_steady : steady Sys.closedir.
Proof. steady_call. Qed.

Lemma sys_malloc_steady : steady Sys.malloc.
Proof. steady_call. Qed.

Lemma posix_recv_all_steady len : steady (Posix.recv_all len).
Proof. steady_call. Qed.

Lemma posix_recv_line_steady cap : steady (Posix.recv_line cap).
Proof. steady_call. Qed.

Lemma push_steady data w :
  tx_end (snd (Sys.push data w)) = tx_end w
  /\ (tx_room w = None -> tx_room (snd (Sys.push data w)) = None)
  /\ (no_sigpipe w -> snd (fst (Sys.push data w)) <> Some SendSigpipe).
Proof.
  pose proof (push_frame data w) as H. cbv zeta in H.
  split; [apply H|]. split; [apply H|].
  intros Hn. unfold Sys.push. destruct (tx_room w) as [room|] eqn:Er; [|discriminate].
  destruct (List.length data <=? room)%nat; [discriminate|]. simpl.
  destruct Hn as [Hn|Hn]; congruence.
Qed.

Lemma posix_send_all_steady buf : steady (Posix.send_all buf).
Proof.
  intros w. destruct (push_steady buf w) as (He & Hr & Hs). unfold Posix.send_all.
  destruct (Sys.push buf w) as [[n [[| |]|]] w']; simpl in *;
    repeat split; auto; try discriminate.
  intros H. exfalso. now apply (Hs H).
Qed.

Lemma posix_send_line_steady text : steady (Posix.send_line text).
Proof. apply posix_send_all_steady. Qed.

Lemma posix_sendfile_steady f : steady (Posix.sendfile_all f).
Proof.
  intros w. unfold Posix.sendfile_all.
  destruct (Sys.rest_of f w) as [|c data].
  - simpl. repeat split; [auto | discriminate].
  - destruct (push_steady (c :: data) (logged SysSendfile w)) as (He & Hr & Hs).
    destruct (Sys.push (c :: data) (logged SysSendfile w)) as [[n [[| |]|]] w']; simpl in *;
      repeat split; auto; try discriminate.
    intros H. exfalso. now apply (Hs H).
Qed.

Create HintDb linkframe.

#[local] Hint Resolve steady_ret sys_open_steady sys_close_steady sys_fcntl_steady
  posix_lock_steady posix_unlock_steady sys_write_steady sys_fsync_steady sys_fstat_steady
  sys_stat_steady sys_unlink_steady sys_rename_steady sys_opendir_steady sys_closedir_steady
  sys_malloc_steady posix_recv_all_steady posix_recv_line_steady posix_send_all_steady
  posix_send_line_steady posix_sendfile_steady : linkframe.

Ltac steady_step :=
  first
    [ solve [auto with linkframe]
    | apply steady_bind; [|intros]
    | match goal with
      | |- steady (match ?x with _ => _ end) => destruct x
      | |- steady (if ?x then _ else _) => destruct x
      | |- steady (let '(_, _) := ?x in _) => destruct x
      end ].

Ltac steady_frame := repeat steady_step.

Lemma posix_list_entries_steady storage_dir names :
  steady (Posix.list_entries storage_dir names).
Proof.
  induction names as [|name names IH]; simpl.
  - apply steady_ret.
  - destruct (Libc.strcmp0 name [DOT] || Libc.strcmp0 name DOTDOT); [exact IH|].
    destruct (Posix.path_join MAX_PATH storage_dir name); [|exact IH].
    apply steady_bind; [auto with linkframe|]. intros [[[|] size]|]; try exact IH.
    apply steady_bind; [auto with linkframe|]. intros _. exact IH.
Qed.

#[local] Hint Resolve posix_list_entries_steady : linkframe.

Lemma posix_handle_list_steady storage_dir : steady (Posix.handle_list storage_dir).
Proof. unfold Posix.handle_list. steady_frame. Qed.

Lemma posix_handle_download_steady storage_dir name :
  steady (Posix.handle_download storage_dir name).
Proof. unfold Posix.handle_download. steady_frame. Qed.

Lemma posix_handle_rename_steady storage_dir oldn newn :
  steady (Posix.handle_rename storage_dir oldn newn).
Proof. unfold Posix.handle_rename. steady_frame. Qed.

Lemma posix_handle_delete_steady storage_dir name :
  steady (Posix.handle_delete storage_dir name).
Proof. unfold Posix.handle_delete. steady_frame. Qed.

Lemma posix_upload_loop_steady fuel :
  forall f remaining, steady (Posix.upload_loop fuel f remaining).
Proof.
  induction fuel as [|fuel IH]; intros f remaining; simpl;
    destruct (remaining >? 0); steady_frame.
Qed.

Lemma posix_handle_upload_steady storage_dir name size :
  steady (Posix.handle_upload storage_dir name size).
Proof.
  unfold Posix.handle_upload. steady_frame.
  intros w. apply posix_upload_loop_steady.
Qed.

#[local] Hint Resolve posix_handle_list_steady posix_handle_download_steady
  posix_handle_rename_steady posix_handle_delete_steady posix_handle_upload_steady : linkframe.

Lemma posix_exec_line_steady storage_dir line : steady (Posix.exec_line storage_dir line).
Proof. unfold Posix.exec_line. steady_frame. Qed.

Lemma windows_send_all_steady buf : steady (Windows.send_all buf).
Proof.
  intros w. destruct (push_steady buf w) as (He & Hr & Hs). unfold Windows.send_all.
  destruct (Sys.push buf w) as [[n [e|]] w']; simpl in *;
    repeat split; auto; discriminate.
Qed.

Lemma windows_send_line_steady text : steady (Windows.send_line text).
Proof. apply windows_send_all_steady. Qed.

Lemma windows_find_files_steady storage_dir : steady (Windows.find_files storage_dir).
Proof. steady_call. Qed.

Lemma windows_find_close_steady : steady Windows.find_close.
Proof. steady_call. Qed.

#[local] Hint Resolve windows_send_all_steady windows_send_line_steady
  windows_find_files_steady windows_find_close_steady : linkframe.

Lemma windows_list_entries_steady entries : steady (Windows.list_entries entries).
Proof.
  induction entries as [|[[name is_dir] size] entries IH]; cbn [Windows.list_entries].
  - apply steady_ret.
  - destruct (Windows.listed (name, is_dir, size)); [|exact IH].
    apply steady_bind; [auto with linkframe|]. intros _. exact IH.
Qed.

#[local] Hint Resolve windows_list_entries_steady : linkframe.

Lemma windows_handle_list_steady storage_dir : steady (Windows.handle_list storage_dir).
Proof. unfold Windows.handle_list. steady_frame. Qed.
(** ** One turn of the command loop *)

Lemma posix_handler_step_eq storage_dir w n buf w1 :
  Posix.recv_line MAX_LINE w = (Some (n, buf), w1) ->
  Posix.handler_step storage_dir w =
  if n <=? 0 then (Some Closed, w1)
  else match chomp (Libc.cstr buf) with
       | [] => (Some Ready, w1)
       | line => Posix.exec_line storage_dir line w1
       end.
Proof.
  intros H. unfold Posix.handler_step, bind. rewrite H.
  destruct (n <=? 0); [reflexivity|].
  now destruct (chomp (Libc.cstr buf)).
Qed.

Lemma windows_handler_step_eq storage_dir w n buf w1 :
  Windows.recv_line MAX_LINE w = (Some (n, buf), w1) ->
  Windows.handler_step storage_dir w =
  if n =? Windows.SOCKET_ERROR then (Some Closed, w1)
  else match chomp (Libc.cstr buf) with
       | [] => (Some Ready, w1)
       | line => Windows.exec_line storage_dir line w1
       end.
Proof.
  intros H. unfold Windows.handler_step, bind. rewrite H.
  destruct (n =? Windows.SOCKET_ERROR); [reflexivity|].
  now destruct (chomp (Libc.cstr buf)).
Qed.

Lemma dispatch_LIST (rest : bytes) : dispatch (B "LIST" ++ rest) = CmdList.
Proof. vm_compute. reflexivity. Qed.

Lemma dispatch_QUIT (rest : bytes) : dispatch (B "QUIT" ++ rest) = CmdQuit.
Proof. vm_compute. reflexivity. Qed.

(** A handler followed by [continue]: the loop goes on unless the handler
    was ended by a signal. *)
Lemma then_ready {A} (m : M A) (w : world) :
  snd ((m ;; ret Ready) w) = snd (m w)
  /\ (fst ((m ;; ret Ready) w) = Some Ready \/ fst ((m ;; ret Ready) w) = None)
  /\ (fst (m w) <> None -> (m ;; ret Ready) w = (Some Ready, snd (m w))).
Proof.
  unfold bind, ret. destruct (m w) as [[a|] w']; simpl; repeat split; auto.
  intros H. now contradiction H.
Qed.

Lemma posix_exec_line_ready storage_dir line w :
  dispatch line <> CmdQuit ->
  fst (Posix.exec_line storage_dir line w) <> Some Closed
  /\ (no_sigpipe w -> fst (Posix.exec_line storage_dir line w) = Some Ready).
Proof.
  intros Hq. split.
  - unfold Posix.exec_line.
    destruct (dispatch line); try contradiction;
      match goal with
      | |- fst ((?m ;; ret Ready) w) <> _ =>
          destruct (then_ready m w) as (_ & [H|H] & _); rewrite H; discriminate
      end.
  - intros Hn. pose proof (posix_exec_line_steady storage_dir line w) as (_ & _ & Hs).
    specialize (Hs Hn). revert Hs. unfold Posix.exec_line.
    destruct (dispatch line); try contradiction;
      match goal with
      | |- fst ((?m ;; ret Ready) w) <> _ -> _ =>
          destruct (then_ready m w) as (_ & [H|H] & _); rewrite H;
          [reflexivity | intros Hs; now contradiction Hs]
      end.
Qed.

Lemma posix_exec_line_keeps_rx storage_dir line w :
  match dispatch line with
  | CmdUpload _ _ | CmdQuit => True
  | _ => rx (snd (Posix.exec_line storage_dir line w)) = rx w
  end.
Proof.
  unfold Posix.exec_line.
  destruct (dispatch line); try exact I;
    (apply (preserves_bind rx); [auto with rxframe|]; intros; apply preserves_ret).
Qed.

Lemma no_sigpipe_set_rx r w : no_sigpipe (set_rx r w) <-> no_sigpipe w.
Proof. reflexivity. Qed.

(** C9. Verb recognition for LIST and QUIT goes by prefix: a control line
    whose first four characters are LIST is handled as a LIST command, and
    one whose first four characters are QUIT is answered with OK BYE and
    ends the command loop, in both servers.  The two lines are answered by
    [handle_list] and by the sending of OK BYE whatever the state of the
    connection; on a connection that takes what is sent the loop goes on
    after the LIST and ends after the OK BYE. *)
Theorem C9_prefix_verbs (storage_dir rest : bytes) (w : world) :
  dispatch (B "LIST" ++ rest) = CmdList
  /\ dispatch (B "QUIT" ++ rest) = CmdQuit
  /\ Posix.exec_line storage_dir (B "LIST" ++ rest) w
     = (Posix.handle_list storage_dir ;; ret Ready) w
  /\ Windows.exec_line storage_dir (B "LIST" ++ rest) w
     = (Windows.handle_list storage_dir ;; ret Ready) w
  /\ Posix.exec_line storage_dir (B "QUIT" ++ rest) w
     = (Posix.send_line (nl "OK BYE") ;; ret Closed) w
  /\ Windows.exec_line storage_dir (B "QUIT" ++ rest) w
     = (Windows.send_line (nl "OK BYE") ;; ret Closed) w
  /\ (tx_room w = None ->
      Posix.exec_line storage_dir (B "LIST" ++ rest) w
      = (Some Ready, snd (Posix.handle_list storage_dir w))
      /\ Windows.exec_line storage_dir (B "LIST" ++ rest) w
         = (Some Ready, snd (Windows.handle_list storage_dir w))
      /\ Posix.exec_line storage_dir (B "QUIT" ++ rest) w = (Some Closed, sent (nl "OK BYE") w)
      /\ Windows.exec_line storage_dir (B "QUIT" ++ rest) w
         = (Some Closed, sent (nl "OK BYE") w))
  /\ (forall fuel n buf w1,
        Posix.recv_line MAX_LINE w = (Some (n, buf), w1) -> 0 < n ->
        chomp (Libc.cstr buf) = B "QUIT" ++ rest ->
        Posix.client_loop (S fuel) storage_dir w
        = (Posix.send_line (nl "OK BYE") ;; ret Closed) w1
        /\ (tx_room w = None ->
            Posix.client_loop (S fuel) storage_dir w = (Some Closed, sent (nl "OK BYE") w1)))
  /\ (forall fuel n buf w1,
        Windows.recv_line MAX_LINE w = (Some (n, buf), w1) -> n <> Windows.SOCKET_ERROR ->
        chomp (Libc.cstr buf) = B "QUIT" ++ rest ->
        Windows.client_loop (S fuel) storage_dir w
        = (Windows.send_line (nl "OK BYE") ;; ret Closed) w1
        /\ (tx_room w = None ->
            Windows.client_loop (S fuel) storage_dir w
            = (Some Closed, sent (nl "OK BYE") w1))).
Proof.
  assert (HP : forall w', Posix.exec_line storage_dir (B "QUIT" ++ rest) w'
                          = (Posix.send_line (nl "OK BYE") ;; ret Closed) w').
  { intros w'. unfold Posix.exec_line. rewrite dispatch_QUIT. reflexivity. }
  assert (HW : forall w', Windows.exec_line storage_dir (B "QUIT" ++ rest) w'
                          = (Windows.send_line (nl "OK BYE") ;; ret Closed) w').
  { intros w'. unfold Windows.exec_line. rewrite dispatch_QUIT. reflexivity. }
  assert (HPup : forall w', tx_room w' = None ->
                   (Posix.send_line (nl "OK BYE") ;; ret Closed) w'
                   = (Some Closed, sent (nl "OK BYE") w')).
  { intros w' H. unfold bind. rewrite (posix_send_line_up _ _ H). reflexivity. }
  assert (HWup : forall w', tx_room w' = None ->
                   (Windows.send_line (nl "OK BYE") ;; ret Closed) w'
                   = (Some Closed, sent (nl "OK BYE") w')).
  { intros w' H. unfold bind. rewrite (windows_send_line_up _ _ H). reflexivity. }
  assert (HL : Posix.exec_line storage_dir (B "LIST" ++ rest) w
               = (Posix.handle_list storage_dir ;; ret Ready) w).
  { unfold Posix.exec_line. rewrite dispatch_LIST. reflexivity. }
  assert (HLW : Windows.exec_line storage_dir (B "LIST" ++ rest) w
               = (Windows.handle_list storage_dir ;; ret Ready) w).
  { unfold Windows.exec_line. rewrite dispatch_LIST. reflexivity. }
  assert (Hroom : forall (n : Z) (buf : bytes) w1,
            Posix.recv_line MAX_LINE w = (Some (n, buf), w1) -> tx_room w1 = tx_room w).
  { intros n buf w1. unfold Posix.recv_line.
    destruct (Posix.recv_line_from _ _ _ _) as [[n0 o] r]. now intros [= _ _ <-]. }
  assert (HroomW : forall (n : Z) (buf : bytes) w1,
            Windows.recv_line MAX_LINE w = (Some (n, buf), w1) -> tx_room w1 = tx_room w).
  { intros n buf w1. unfold Windows.recv_line.
    destruct (Windows.recv_line_from _ _ _) as [[n0 o] r]. now intros [= _ _ <-]. }
  repeat apply conj.
  - apply dispatch_LIST.
  - apply dispatch_QUIT.
  - exact HL.
  - exact HLW.
  - apply HP.
  - apply HW.
  - intros Hup. repeat apply conj.
    + rewrite HL. apply then_ready.
      apply (posix_handle_list_steady storage_dir w). now left.
    + rewrite HLW. apply then_ready.
      apply (windows_handle_list_steady storage_dir w). now left.
    + rewrite HP. now apply HPup.
    + rewrite HW. now apply HWup.
  - intros fuel n buf w1 Hrecv Hn Hline.
    assert (E : Posix.client_loop (S fuel) storage_dir w
                = (Posix.send_line (nl "OK BYE") ;; ret Closed) w1).
    { simpl Posix.client_loop. unfold bind at 1.
      rewrite (posix_handler_step_eq _ _ _ _ _ Hrecv).
      replace (n <=? 0) with false by (symmetry; apply Z.leb_gt; lia).
      rewrite Hline. change (B "QUIT" ++ rest) with ("Q"%char :: B "UIT" ++ rest).
      cbv iota. change ("Q"%char :: B "UIT" ++ rest) with (B "QUIT" ++ rest).
      rewrite HP. unfold bind, ret.
      now destruct (Posix.send_line (nl "OK BYE") w1) as [[x|] w2]. }
    split; [exact E|]. intros Hup. rewrite E. apply HPup.
    now rewrite (Hroom _ _ _ Hrecv).
  - intros fuel n buf w1 Hrecv Hn Hline.
    assert (E : Windows.client_loop (S fuel) storage_dir w
                = (Windows.send_line (nl "OK BYE") ;; ret Closed) w1).
    { simpl Windows.client_loop. unfold bind at 1.
      rewrite (windows_handler_step_eq _ _ _ _ _ Hrecv).
      replace (n =? Windows.SOCKET_ERROR) with false by (symmetry; apply Z.eqb_neq; lia).
      rewrite Hline. change (B "QUIT" ++ rest) with ("Q"%char :: B "UIT" ++ rest).
      cbv iota. change ("Q"%char :: B "UIT" ++ rest) with (B "QUIT" ++ rest).
      rewrite HW. unfold bind, ret.
      now destruct (Windows.send_line (nl "OK BYE") w1) as [[x|] w2]. }
    split; [exact E|]. intros Hup. rewrite E. apply HWup.
    now rewrite (HroomW _ _ _ Hrecv).
Qed.

Lemma C9_prefix_verbs_witness :
  Posix.client_loop 1 (B "storage") quitting_world
  = (Some Closed, sent (nl "OK BYE") (set_rx (wire (nl "LIST")) quitting_world)).
Proof.
  refine (proj2 (proj1 (proj2 (proj2 (proj2 (proj2 (proj2 (proj2 (proj2
    (C9_prefix_verbs (B "storage") (B "TING") quitting_world))))))))
    0%nat 9 (nl "QUITTING") _ _ _ _) _).
  - reflexivity.
  - reflexivity.
  - reflexivity.
  - reflexivity.
Defined.
(** C10, as the code has it.  A control line of more than 4095 bytes: the
    reader stops after 4095 bytes and leaves the rest of the line, newline
    included, on the socket; the command is taken from the 4095-byte prefix
    and the line is not rejected for its length.  The rest of the line is
    what the connection reads next: it is the start of the next command line
    after a LIST, DOWNLOAD, RENAME, DELETE, unknown or empty command; an
    UPLOAD taken from the prefix runs with it as its input, and a QUIT ends
    the loop with it unread.  (The loop goes on after a command unless a
    send met SIGPIPE and the process ended.) *)
Theorem C10_long_line (storage_dir : bytes) (w : world) (pre : bytes) (rest : list rx_item) :
  rx w = wire pre ++ rest ->
  List.length pre = 4095%nat ->
  Libc.strchr pre LF = false ->
  Posix.recv_line MAX_LINE w = (Some (4095, pre), set_rx rest w)
  /\ Posix.handler_step storage_dir w =
     match chomp (Libc.cstr pre) with
     | [] => (Some Ready, set_rx rest w)
     | line => Posix.exec_line storage_dir line (set_rx rest w)
     end
  /\ match dispatch (chomp (Libc.cstr pre)) with
     | CmdUpload name size =>
         Posix.handler_step storage_dir w
         = (Posix.handle_upload storage_dir name size ;; ret Ready) (set_rx rest w)
         /\ (no_sigpipe w ->
             Posix.handler_step storage_dir w
             = (Some Ready, snd (Posix.handle_upload storage_dir name size (set_rx rest w))))
     | CmdQuit =>
         Posix.handler_step storage_dir w = reply (nl "OK BYE") Closed (set_rx rest w)
         /\ (tx_room w = None ->
             Posix.handler_step storage_dir w
             = (Some Closed, sent (nl "OK BYE") (set_rx rest w)))
     | _ =>
         fst (Posix.handler_step storage_dir w) <> Some Closed
         /\ (no_sigpipe w -> fst (Posix.handler_step storage_dir w) = Some Ready)
         /\ rx (snd (Posix.handler_step storage_dir w)) = rest
     end.
Proof.
  intros Hrx Hlen Hnl.
  assert (Hrecv : Posix.recv_line MAX_LINE w = (Some (4095, pre), set_rx rest w)).
  { unfold Posix.recv_line. rewrite Hrx.
    rewrite (posix_recv_line_full pre rest (rx_end w) MAX_LINE []); auto.
    simpl List.length. rewrite Hlen. reflexivity. }
  assert (Hstep : Posix.handler_step storage_dir w =
                  match chomp (Libc.cstr pre) with
                  | [] => (Some Ready, set_rx rest w)
                  | line => Posix.exec_line storage_dir line (set_rx rest w)
                  end).
  { rewrite (posix_handler_step_eq _ _ _ _ _ Hrecv). reflexivity. }
  split; [exact Hrecv|]. split; [exact Hstep|].
  rewrite Hstep.
  pose proof (posix_exec_line_keeps_rx storage_dir (chomp (Libc.cstr pre)) (set_rx rest w)) as H.
  pose proof (posix_exec_line_ready storage_dir (chomp (Libc.cstr pre)) (set_rx rest w)) as Hr.
  destruct (chomp (Libc.cstr pre)) as [|c line] eqn:El.
  - change (dispatch []) with CmdUnknown. repeat split. discriminate.
  - destruct (dispatch (c :: line)) eqn:Ed;
      try (destruct (Hr ltac:(discriminate)) as [Hr1 Hr2];
           split; [exact Hr1|]; split; [exact Hr2 | exact H]).
    + assert (Hex : Posix.exec_line storage_dir (c :: line) (set_rx rest w)
                    = (Posix.handle_upload storage_dir name size ;; ret Ready) (set_rx rest w))
        by (unfold Posix.exec_line; now rewrite Ed).
      split; [exact Hex|]. intros Hn. rewrite Hex. apply then_ready.
      now apply (posix_handle_upload_steady storage_dir name size (set_rx rest w)).
    + assert (Hex : Posix.exec_line storage_dir (c :: line) (set_rx rest w)
                    = reply (nl "OK BYE") Closed (set_rx rest w))
        by (unfold Posix.exec_line; now rewrite Ed).
      split; [exact Hex|]. intros Hup. rewrite Hex. now apply reply_up.
Qed.

Lemma C10_long_line_witness :
  let pre := B "DELETE f" ++ repeat " "%char 4087 in
  let w := long_line_world pre (B "LIST") in
  Posix.recv_line MAX_LINE w = (Some (4095, pre), set_rx (wire (nl "LIST")) w).
Proof.
  intros pre w.
  refine (proj1 (C10_long_line (B "storage") w pre (wire (nl "LIST")) _ _ _)).
  - reflexivity.
  - vm_compute. reflexivity.
  - vm_compute. reflexivity.
Defined.

(** C10 as stated fails: here the bytes [abc] that follow the first 4095
    bytes of an over-long line become the content of a file, and the next
    command line starts after them. *)
Lemma C10_counterexample :
  let pre := B "UPLOAD f 3" ++ repeat " "%char 4085 in
  let w := long_line_world pre (B "abcDELETE f") in
  let w' := snd (Posix.handle_upload (B "storage") (B "f") 3 (set_rx (wire (B "abcDELETE f" ++ [LF])) w)) in
  Posix.recv_line MAX_LINE w = (Some (4095, pre), set_rx (wire (B "abcDELETE f" ++ [LF])) w)
  /\ dispatch (chomp (Libc.cstr pre)) = CmdUpload (B "f") 3
  /\ fs_lookup [B "storage"; B "f"] (fs w') = Some (Reg (B "abc"))
  /\ rx w' = wire (nl "DELETE f")
  /\ tx (snd (Posix.client_thread (B "storage") w))
     = [nl "OK WELCOME"; nl "OK"; nl "OK SAVED"; nl "OK DELETED"].
Proof. vm_compute. repeat split. Qed.

(** C7, as the code has it.  When the stream ends before any byte of a
    line, [recv_line] of server.c returns 0 and the loop ends; when it ends
    after at least one byte and before a newline, [recv_line] of server.c
    returns the count of the bytes read and they are handled as a control
    line.  [recv_line] of server_windows.c returns SOCKET_ERROR in both cases
    and the loop ends. *)
Theorem C7_end_of_stream (storage_dir : bytes) (w : world) (pre : bytes) :
  rx w = wire pre ->
  rx_end w = PeerClosed ->
  Libc.strchr pre LF = false ->
  (List.length pre < 4095)%nat ->
  (pre = [] ->
     Posix.recv_line MAX_LINE w = (Some (0, []), w)
     /\ Posix.handler_step storage_dir w = (Some Closed, w))
  /\ (pre <> [] ->
     Posix.recv_line MAX_LINE w = (Some (Z.of_nat (List.length pre), pre), set_rx [] w)
     /\ 0 < Z.of_nat (List.length pre)
     /\ Posix.handler_step storage_dir w =
        match chomp (Libc.cstr pre) with
        | [] => (Some Ready, set_rx [] w)
        | line => Posix.exec_line storage_dir line (set_rx [] w)
        end)
  /\ Windows.recv_line MAX_LINE w = (Some (Windows.SOCKET_ERROR, pre), set_rx [] w)
  /\ Windows.handler_step storage_dir w = (Some Closed, set_rx [] w).
Proof.
  intros Hrx Hend Hnl Hlen.
  assert (HP : Posix.recv_line MAX_LINE w =
               (Some (if (List.length pre =? 0)%nat then 0 else Z.of_nat (List.length pre), pre),
                set_rx [] w)).
  { unfold Posix.recv_line. rewrite Hrx, Hend.
    rewrite (posix_recv_line_eof pre MAX_LINE []); auto.
    simpl List.length. unfold MAX_LINE. lia. }
  assert (HW : Windows.recv_line MAX_LINE w
               = (Some (Windows.SOCKET_ERROR, pre), set_rx [] w)).
  { unfold Windows.recv_line. rewrite Hrx.
    rewrite (windows_recv_line_eof pre MAX_LINE []); auto.
    simpl List.length. unfold MAX_LINE. lia. }
  repeat apply conj.
  - intros ->. simpl in HP. split.
    + rewrite HP. change (@nil rx_item) with (wire []). rewrite <- Hrx.
      now rewrite set_rx_same.
    + rewrite (posix_handler_step_eq _ _ _ _ _ HP). simpl.
      change (@nil rx_item) with (wire []). rewrite <- Hrx. now rewrite set_rx_same.
  - intros Hne. destruct pre as [|c pre]; [contradiction|].
    replace (List.length (c :: pre) =? 0)%nat with false in HP by reflexivity.
    repeat apply conj.
    + exact HP.
    + simpl List.length. lia.
    + rewrite (posix_handler_step_eq _ _ _ _ _ HP).
      replace (Z.of_nat (List.length (c :: pre)) <=? 0) with false
        by (symmetry; apply Z.leb_gt; simpl List.length; lia).
      reflexivity.
  - exact HW.
  - rewrite (windows_handler_step_eq _ _ _ _ _ HW). reflexivity.
Qed.

Lemma C7_end_of_stream_witness :
  Windows.handler_step (B "storage") cut_line_world = (Some Closed, set_rx [] cut_line_world).
Proof.
  refine (proj2 (proj2 (proj2 (C7_end_of_stream (B "storage") cut_line_world (B "QUIT") _ _ _ _)))).
  - reflexivity.
  - reflexivity.
  - reflexivity.
  - vm_compute. lia.
Defined.

(** C7 as stated fails in server.c: the four bytes QUIT followed by the end
    of the stream, with no newline, are not reported as an error; they are
    returned as a line of four bytes and answered like any QUIT line. *)
Lemma C7_counterexample :
  Posix.recv_line MAX_LINE cut_line_world = (Some (4, B "QUIT"), set_rx [] cut_line_world)
  /\ Posix.handler_step (B "storage") cut_line_world
     = (Some Closed, sent (nl "OK BYE") (set_rx [] cut_line_world)).
Proof. vm_compute. split; reflexivity. Qed.

(** ** The storage tree *)

Lemma fs_lookup_update_same k n t : fs_lookup k (fs_update k n t) = Some n.
Proof.
  induction t as [|[k' n'] t IH]; simpl.
  - now rewrite key_eqb_refl.
  - destruct (key_eqb k k') eqn:E; simpl.
    + now rewrite key_eqb_refl.
    + now rewrite E.
Qed.

Lemma fs_lookup_remove_same k t : fs_lookup k (fs_remove k t) = None.
Proof.
  induction t as [|[k' n'] t IH]; simpl; [reflexivity|].
  destruct (key_eqb k k') eqn:E; simpl; [exact IH|].
  now rewrite E.
Qed.

Lemma posix_send_line_short text w :
  (List.length text <= MAX_LINE - 1)%nat ->
  tx_room w = None ->
  Posix.send_line text w = (Some (Z.of_nat (List.length text)), sent text w).
Proof.
  intros H Hup. rewrite (posix_send_line_up _ _ Hup). now rewrite firstn_all2.
Qed.

(** A reply changes nothing but the transmissions. *)
Lemma sent_only_tx b w :
  fs (sent b w) = fs w /\ calls (sent b w) = calls w /\ rx (sent b w) = rx w
  /\ tx (sent b w) = tx w ++ [b].
Proof. repeat split. Qed.

(** ** The path validator *)

Lemma path_join_bad cap dir name : bad_name name -> Posix.path_join cap dir name = None.
Proof.
  intros H. unfold Posix.path_join.
  replace (Libc.strstr name DOTDOT || Libc.strchr name SLASH || Libc.strchr name BACKSLASH)
    with true; [reflexivity|].
  symmetry. rewrite !orb_true_iff, strstr_substring, !strchr_In.
  destruct H as [H | [H | H]]; auto.
Qed.

Lemma path_join_some cap dir name path :
  Posix.path_join cap dir name = Some path ->
  Libc.strstr name DOTDOT = false /\ Libc.strchr name SLASH = false
  /\ Libc.strchr name BACKSLASH = false /\ path = dir ++ [SLASH] ++ name
  /\ (List.length path < cap)%nat.
Proof.
  unfold Posix.path_join. intros H.
  destruct (Libc.strstr name DOTDOT) eqn:E1; [discriminate|].
  destruct (Libc.strchr name SLASH) eqn:E2; [discriminate|].
  destruct (Libc.strchr name BACKSLASH) eqn:E3; [discriminate|].
  simpl orb in H. cbv iota in H.
  destruct ((0 <? Z.of_nat (List.length (dir ++ [SLASH] ++ name)))
            && (Z.of_nat (List.length (dir ++ [SLASH] ++ name)) <? Z.of_nat cap)) eqn:E4;
    [|discriminate].
  injection H as <-. apply andb_true_iff in E4. destruct E4 as [_ E4].
  apply Z.ltb_lt in E4. repeat apply conj; auto.
  change (dir ++ [SLASH] ++ name) with (dir ++ SLASH :: name) in E4. lia.
Qed.

Lemma split_on_nonempty sep s : split_on sep s <> [].
Proof.
  destruct s as [|c s]; simpl; [discriminate|].
  destruct (sep c); [discriminate|].
  destruct (split_on sep s); discriminate.
Qed.

Lemma split_on_app_sep sep a c b :
  sep c = true -> split_on sep (a ++ c :: b) = split_on sep a ++ split_on sep b.
Proof.
  intros Hc. induction a as [|x a IH]; simpl.
  - now rewrite Hc.
  - destruct (sep x); [now rewrite IH|].
    rewrite IH. pose proof (split_on_nonempty sep a) as Hne.
    destruct (split_on sep a); [contradiction|reflexivity].
Qed.

Lemma split_on_no_slash name :
  Libc.strchr name SLASH = false -> split_on is_slash name = [name].
Proof.
  induction name as [|c name IH]; [reflexivity|].
  intros H. simpl in H. apply orb_false_iff in H. destruct H as [Hc Hn].
  cbn [split_on]. unfold is_slash at 1. rewrite Hc. now rewrite IH.
Qed.

(** A name that passes the check, other than the empty name and [.], is one
    more component under the directory. *)
Lemma resolve_child dir name :
  dir <> [] -> name <> [] -> name <> [DOT] ->
  Libc.strstr name DOTDOT = false -> Libc.strchr name SLASH = false ->
  resolve (dir ++ [SLASH] ++ name) = resolve dir ++ [name].
Proof.
  intros Hdir Hne Hdot Hdd Hsl.
  unfold resolve, resolve_with.
  destruct dir as [|d dir]; [contradiction|].
  change ((d :: dir) ++ [SLASH] ++ name) with (d :: (dir ++ SLASH :: name)).
  change (d :: dir ++ SLASH :: name) with ((d :: dir) ++ SLASH :: name).
  rewrite split_on_app_sep by reflexivity.
  rewrite (split_on_no_slash name) by assumption.
  rewrite fold_left_app.
  set (stack := fold_left walk (split_on is_slash (d :: dir)) _).
  cbn [fold_left].
  assert (Hw : walk stack name = name :: stack).
  { unfold walk.
    rewrite (bytes_eqb_neq name []) by assumption.
    rewrite (bytes_eqb_neq name [DOT]) by assumption.
    assert (Hn : bytes_eqb name DOTDOT = false).
    { apply bytes_eqb_neq. intros ->. discriminate. }
    now rewrite Hn. }
  rewrite Hw. reflexivity.
Qed.

Lemma fs_logged c w : fs (logged c w) = fs w.
Proof. reflexivity. Qed.

(** C1, as the code has it.  A name that contains [..], a slash or a
    backslash: DOWNLOAD, RENAME (for either of its two names), DELETE and an
    UPLOAD with a size that is not negative do nothing but reply ERR bad
    filename, and make no file-system call; an UPLOAD with a negative size
    replies ERR invalid size, and makes no file-system call either.  This
    holds whatever the state of the connection; on a connection that takes
    what is sent the reply goes out whole and the handler returns -1.  A name
    that passes the check and is neither empty nor [.] joins to [dir/name],
    which resolves to the entry [name] of the storage directory ([main] gives
    up on a storage directory with an empty name). *)
Theorem C1_path_validation (storage_dir name : bytes) :
  (bad_name name ->
   forall w : world,
     (forall size, 0 <= size ->
        Posix.handle_upload storage_dir name size w = reply (nl "ERR bad filename") (-1) w)
     /\ (forall size, size < 0 ->
        Posix.handle_upload storage_dir name size w = reply (nl "ERR invalid size") (-1) w)
     /\ Posix.handle_download storage_dir name w = reply (nl "ERR bad filename") (-1) w
     /\ (forall other,
        Posix.handle_rename storage_dir name other w = reply (nl "ERR bad filename") (-1) w
        /\ Posix.handle_rename storage_dir other name w = reply (nl "ERR bad filename") (-1) w)
     /\ Posix.handle_delete storage_dir name w = reply (nl "ERR bad filename") (-1) w
     /\ (forall line : bytes,
           calls (snd (reply line (-1) w)) = calls w /\ fs (snd (reply line (-1) w)) = fs w)
     /\ (tx_room w = None ->
         reply (nl "ERR bad filename") (-1) w = (Some (-1), sent (nl "ERR bad filename") w)
         /\ reply (nl "ERR invalid size") (-1) w = (Some (-1), sent (nl "ERR invalid size") w))
     /\ calls (sent (nl "ERR bad filename") w) = calls w
     /\ calls (sent (nl "ERR invalid size") w) = calls w
     /\ fs (sent (nl "ERR bad filename") w) = fs w
     /\ fs (sent (nl "ERR invalid size") w) = fs w)
  /\ (forall path,
        storage_dir <> [] -> name <> [] -> name <> [DOT] ->
        Posix.path_join MAX_PATH storage_dir name = Some path ->
        path = storage_dir ++ [SLASH] ++ name
        /\ resolve path = resolve storage_dir ++ [name]).
Proof.
  split.
  - intros Hbad w.
    pose proof (path_join_bad MAX_PATH storage_dir name Hbad) as Hpj.
    repeat apply conj; try reflexivity.
    + intros size Hsize. unfold Posix.handle_upload.
      replace (size <? 0) with false by (symmetry; apply Z.ltb_ge; lia).
      rewrite Hpj. reflexivity.
    + intros size Hsize. unfold Posix.handle_upload.
      replace (size <? 0) with true by (symmetry; apply Z.ltb_lt; lia).
      reflexivity.
    + unfold Posix.handle_download. rewrite Hpj. reflexivity.
    + intros other. unfold Posix.handle_rename. rewrite Hpj. split; [reflexivity|].
      destruct (Posix.path_join MAX_PATH storage_dir other); reflexivity.
    + unfold Posix.handle_delete. rewrite Hpj. reflexivity.
    + intros line. pose proof (reply_frame line (-1) w) as H. split; apply H.
    + intros Hup. split; rewrite (reply_up _ _ _ Hup); reflexivity.
  - intros path Hdir Hne Hdot Hpj.
    apply path_join_some in Hpj. destruct Hpj as (Hdd & Hsl & _ & -> & _).
    split; [reflexivity|]. now apply resolve_child.
Qed.

Lemma C1_path_validation_witness :
  Posix.handle_delete (B "storage") (B "../a") (small_world [])
  = reply (nl "ERR bad filename") (-1) (small_world [])
  /\ resolve (B "storage/a") = resolve (B "storage") ++ [B "a"].
Proof.
  split.
  - refine (proj1 (proj2 (proj2 (proj2 (proj2
      (proj1 (C1_path_validation (B "storage") (B "../a")) _ (small_world []))))))).
    left. exists [], (B "/a"). reflexivity.
  - refine (proj2 (proj2 (C1_path_validation (B "storage") (B "a")) (B "storage/a") _ _ _ _)).
    + discriminate.
    + discriminate.
    + discriminate.
    + reflexivity.
Defined.

(** C1 as stated fails twice: an UPLOAD of a name with [..] and a negative
    size is answered ERR invalid size, not ERR bad filename; and the name [.]
    passes the check although [storage/.] is the storage directory itself,
    not an entry of it. *)
Lemma C1_counterexample :
  bad_name (B "../x")
  /\ dispatch (B "UPLOAD ../x -1") = CmdUpload (B "../x") (-1)
  /\ Posix.handle_upload (B "storage") (B "../x") (-1) (small_world [])
     = (Some (-1), sent (nl "ERR invalid size") (small_world []))
  /\ dispatch (B "DELETE .") = CmdDelete (B ".")
  /\ Posix.path_join MAX_PATH (B "storage") (B ".") = Some (B "storage/.")
  /\ resolve (B "storage/.") = resolve (B "storage").
Proof.
  split.
  - left. exists [], (B "/x"). reflexivity.
  - vm_compute. repeat split.
Qed.

(** What DELETE does to a name that is there, and to one that is not. *)
Lemma posix_delete_missing storage_dir name path w :
  Posix.path_join MAX_PATH storage_dir name = Some path ->
  fs_lookup (resolve path) (fs w) = None ->
  Posix.handle_delete storage_dir name w
  = reply (nl "ERR delete failed") (-1)
      (logged (SysUnlink path) (logged (SysOpen path O_RDWR) w)).
Proof.
  intros Hpj Hnone. unfold Posix.handle_delete. rewrite Hpj.
  unfold bind at 1. unfold Sys.open. rewrite Hnone.
  destruct (negb (open_ok w)); unfold bind at 1, ret at 1; unfold bind at 1, Sys.unlink;
    rewrite fs_logged, Hnone; reflexivity.
Qed.

Lemma posix_delete_existing storage_dir name path data w :
  Posix.path_join MAX_PATH storage_dir name = Some path ->
  fs_lookup (resolve path) (fs w) = Some (Reg data) ->
  exists wa,
    Posix.handle_delete storage_dir name w = reply (nl "OK DELETED") 0 wa
    /\ fs wa = fs_remove (resolve path) (fs w)
    /\ same_link w wa.
Proof.
  intros Hpj Hsome. unfold Posix.handle_delete. rewrite Hpj.
  unfold bind at 1. unfold Sys.open. rewrite Hsome.
  destruct (negb (open_ok w)).
  - eexists. split; [|split].
    + unfold bind at 1, ret at 1; unfold bind at 1, Sys.unlink.
      rewrite fs_logged, Hsome. reflexivity.
    + reflexivity.
    + repeat split.
  - eexists. split; [|split].
    + unfold bind at 1, Posix.lock_fd, Sys.fcntl at 1. unfold bind at 1, Sys.unlink.
      rewrite !fs_logged, Hsome. reflexivity.
    + reflexivity.
    + repeat split.
Qed.

(** C8. A DELETE of a validated name that is not in the storage directory
    replies ERR delete failed and leaves the storage tree as it is; DELETE is
    not idempotent: after a DELETE that removed a file, the same DELETE
    fails.  The storage tree is as stated whatever the state of the
    connection; on a connection that takes what is sent the replies go out
    whole. *)
Theorem C8_delete_missing (storage_dir name path : bytes) (w : world) :
  Posix.path_join MAX_PATH storage_dir name = Some path ->
  (fs_lookup (resolve path) (fs w) = None ->
     Posix.handle_delete storage_dir name w
     = reply (nl "ERR delete failed") (-1)
         (logged (SysUnlink path) (logged (SysOpen path O_RDWR) w))
     /\ fs (snd (Posix.handle_delete storage_dir name w)) = fs w
     /\ (tx_room w = None ->
         Posix.handle_delete storage_dir name w
         = (Some (-1), sent (nl "ERR delete failed")
                         (logged (SysUnlink path) (logged (SysOpen path O_RDWR) w)))
         /\ tx (snd (Posix.handle_delete storage_dir name w))
            = tx w ++ [nl "ERR delete failed"]))
  /\ (forall data, fs_lookup (resolve path) (fs w) = Some (Reg data) ->
      let (r1, w1) := Posix.handle_delete storage_dir name w in
      let (r2, w2) := Posix.handle_delete storage_dir name w1 in
      fs w1 = fs_remove (resolve path) (fs w)
      /\ fs w2 = fs w1
      /\ (tx_room w = None ->
          r1 = Some 0 /\ tx w1 = tx w ++ [nl "OK DELETED"]
          /\ r2 = Some (-1) /\ tx w2 = tx w1 ++ [nl "ERR delete failed"])).
Proof.
  intros Hpj. split.
  - intros Hnone. rewrite (posix_delete_missing _ _ _ _ Hpj Hnone).
    repeat apply conj.
    + reflexivity.
    + exact (proj1 (reply_frame (nl "ERR delete failed") (-1)
                      (logged (SysUnlink path) (logged (SysOpen path O_RDWR) w)))).
    + intros Hup. rewrite reply_up by exact Hup. split; reflexivity.
  - intros data Hsome.
    destruct (posix_delete_existing _ _ _ _ _ Hpj Hsome) as (wa & E1 & Hfa & Hta & Hra & Hea).
    rewrite E1.
    pose proof (reply_frame (nl "OK DELETED") 0 wa) as F1. cbv zeta in F1.
    pose proof (reply_up (nl "OK DELETED") 0 wa) as U1.
    destruct (reply (nl "OK DELETED") 0 wa) as [r1 w1]. simpl in F1.
    assert (Hnone : fs_lookup (resolve path) (fs w1) = None).
    { destruct F1 as (-> & _). rewrite Hfa. apply fs_lookup_remove_same. }
    rewrite (posix_delete_missing _ _ _ _ Hpj Hnone).
    set (wb := logged (SysUnlink path) (logged (SysOpen path O_RDWR) w1)).
    pose proof (reply_frame (nl "ERR delete failed") (-1) wb) as F2. cbv zeta in F2.
    pose proof (reply_up (nl "ERR delete failed") (-1) wb) as U2.
    destruct (reply (nl "ERR delete failed") (-1) wb) as [r2 w2]. simpl in F2.
    repeat apply conj.
    + destruct F1 as (-> & _). exact Hfa.
    + now destruct F2 as (-> & _).
    + intros Hup.
      assert (Hr1 : tx_room w1 = None) by (apply F1; congruence).
      specialize (U1 ltac:(congruence)). specialize (U2 Hr1).
      injection U2 as -> ->. injection U1 as -> ->.
      simpl. rewrite Hta. repeat split.
Qed.

Lemma C8_delete_missing_witness :
  tx (snd (Posix.handle_delete (B "storage") (B "nofile") (small_world [])))
  = tx (small_world []) ++ [nl "ERR delete failed"].
Proof.
  refine (proj2 (proj2 (proj2 (proj1
    (C8_delete_missing (B "storage") (B "nofile") (B "storage/nofile") (small_world []) _) _))
    _)).
  - reflexivity.
  - reflexivity.
  - reflexivity.
Defined.

(** ** The transfer engine *)

Lemma write_at_end c data : write_at c (List.length c) data = c ++ data.
Proof.
  unfold write_at. rewrite firstn_all, Nat.sub_diag. simpl.
  rewrite skipn_all2 by lia. now rewrite app_nil_r.
Qed.

Lemma posix_recv_all_from_spec items :
  forall tl len got,
    exists n data rest,
      Posix.recv_all_from items tl len got = (n, got ++ data, rest)
      /\ payload items = data ++ payload rest
      /\ (List.length data <= len)%nat
      /\ (List.length rest <= List.length items)%nat
      /\ (n = Z.of_nat (List.length (got ++ data)) \/ (n = -1 /\ rest = []))
      /\ ((List.length data < len)%nat -> rest = [])
      /\ ((0 < List.length data)%nat -> (List.length rest < List.length items)%nat).
Proof.
  induction items as [|it items IH]; intros tl len got.
  - destruct len as [|len].
    + exists (Z.of_nat (List.length got)), [], []. simpl. rewrite app_nil_r.
      repeat split; auto; lia.
    + destruct tl.
      * exists (Z.of_nat (List.length got)), [], []. simpl. rewrite app_nil_r.
        repeat split; auto; lia.
      * exists (-1), [], []. simpl. rewrite app_nil_r. repeat split; auto; lia.
  - destruct len as [|len].
    + exists (Z.of_nat (List.length got)), [], (it :: items). simpl. rewrite app_nil_r.
      destruct it; repeat split; auto; lia.
    + destruct it as [c|].
      * destruct (IH tl len (got ++ [c])) as (n & data & rest & E & Hp & Hl & Hr & Hn & Hs & Hd).
        exists n, (c :: data), rest. simpl. rewrite E.
        rewrite <- app_assoc in *. simpl in *.
        repeat split; auto; try lia.
        -- now rewrite Hp.
        -- intros H. apply Hs. lia.
      * destruct (IH tl (S len) got) as (n & data & rest & E & Hp & Hl & Hr & Hn & Hs & Hd).
        exists n, data, rest. simpl. rewrite E.
        repeat split; auto; try lia.
        all: intros H; specialize (Hd H); lia.
Qed.

(** What one [recv_all] of the upload loop yields. *)
Lemma posix_recv_all_spec len w :
  (0 < len)%nat ->
  exists n data rest,
    Posix.recv_all len w = (Some (n, data), set_rx rest w)
    /\ payload (rx w) = data ++ payload rest
    /\ (List.length data <= len)%nat
    /\ (n <= 0 -> rest = [])
    /\ (0 < n -> n = Z.of_nat (List.length data)
                 /\ (List.length rest < List.length (rx w))%nat).
Proof.
  intros Hlen.
  destruct (posix_recv_all_from_spec (rx w) (rx_end w) len [])
    as (n & data & rest & E & Hp & Hl & Hr & Hn & Hs & Hd).
  simpl in E, Hn.
  exists n, data, rest. unfold Posix.recv_all. rewrite E.
  repeat split; auto.
  - intros Hn0. destruct Hn as [Hn | [Hn Hre]]; [apply Hs; lia | exact Hre].
  - destruct Hn as [Hn | [Hn Hre]]; lia.
  - apply Hd. destruct Hn as [Hn | [Hn Hre]]; lia.
Qed.

(** A [write] at the end of the file, as the upload loop does it. *)
Lemma sys_write_spec f buf w c :
  fs_lookup (fd_key f) (fs w) = Some (Reg c) ->
  fd_off f = List.length c ->
  exists wr f' w' m,
    Sys.write f buf w = (Some (wr, f'), w')
    /\ (m <= List.length buf)%nat
    /\ fs_lookup (fd_key f) (fs w') = Some (Reg (c ++ firstn m buf))
    /\ rx w' = rx w /\ same_link w w' /\ same_env w w'
    /\ (wr = Z.of_nat (List.length buf) ->
        m = List.length buf /\ fd_key f' = fd_key f
        /\ fd_off f' = List.length (c ++ buf)
        /\ (List.length buf <= disk_free w)%nat
        /\ disk_free w' = (disk_free w - List.length buf)%nat)
    /\ (wr <> Z.of_nat (List.length buf) ->
        (m < List.length buf)%nat /\ m = disk_free w).
Proof.
  intros Hlook Hoff. unfold Sys.write. rewrite Hlook.
  destruct (Nat.min (List.length buf) (disk_free w)) as [|n] eqn:En.
  - destruct buf as [|b buf].
    + eexists _, _, _, 0%nat. split; [reflexivity|].
      cbn [fs set_disk set_fs logged rx tx fd_key fd_off firstn List.length disk_free].
      rewrite Hoff, write_at_end, app_nil_r, fs_lookup_update_same.
      repeat apply conj; auto.
      all: try (intros H; now contradiction H).
      all: try (intros _; repeat split; try rewrite app_nil_r; lia).
    + eexists _, _, _, 0%nat. split; [reflexivity|].
      assert (Hd0 : disk_free w = 0%nat)
        by (simpl in En; destruct (disk_free w); [reflexivity | discriminate En]).
      simpl. rewrite app_nil_r. repeat apply conj; auto; try lia.
      all: try (intros H; split; lia).
      all: try (intros H; lia).
  - eexists _, _, _, (S n). split; [reflexivity|].
    cbn [fs set_disk set_fs logged rx tx fd_key fd_off disk_free].
    rewrite Hoff, write_at_end, fs_lookup_update_same.
    repeat apply conj; auto; try lia.
    all: intros H; repeat split; try rewrite length_app; lia.
Qed.

(** After a stream that was closed, [recv_all] returns the count of what
    it got. *)
Lemma posix_recv_all_from_closed items :
  forall len got,
    fst (fst (Posix.recv_all_from items PeerClosed len got))
    = Z.of_nat (List.length (snd (fst (Posix.recv_all_from items PeerClosed len got)))).
Proof.
  induction items as [|it items IH]; intros len got.
  - destruct len; reflexivity.
  - destruct len as [|len]; [reflexivity|].
    destruct it as [c|]; simpl; apply IH.
Qed.

Lemma posix_recv_all_closed len w n data w' :
  rx_end w = PeerClosed ->
  Posix.recv_all len w = (Some (n, data), w') ->
  n = Z.of_nat (List.length data).
Proof.
  intros Hend. unfold Posix.recv_all. rewrite Hend.
  pose proof (posix_recv_all_from_closed (rx w) len []) as H.
  destruct (Posix.recv_all_from (rx w) PeerClosed len []) as [[n0 b] r].
  simpl in H. now intros [= <- <- _].
Qed.

Lemma posix_upload_loop_eq fuel f remaining :
  Posix.upload_loop fuel f remaining =
  if remaining >? 0 then
    match fuel with
    | O => ret (-1)
    | S fuel' =>
        bind (Posix.recv_all (Z.to_nat (if remaining >? Posix.BUF then Posix.BUF else remaining)))
          (fun x => let '(n, buf) := x in
             if n <=? 0 then
               bind (Posix.unlock_fd f) (fun _ => bind (Sys.close f) (fun _ =>
                 bind (Posix.send_line (nl "ERR recv data failed")) (fun _ => ret (-1))))
             else
               bind (Sys.write f buf) (fun y => let '(wr, f') := y in
                 if negb (wr =? n) then
                   bind (Posix.unlock_fd f) (fun _ => bind (Sys.close f) (fun _ =>
                     bind (Posix.send_line (nl "ERR write failed")) (fun _ => ret (-1))))
                 else Posix.upload_loop fuel' f' (remaining - n)))
    end
  else
    bind (Sys.fsync f) (fun _ => bind (Posix.unlock_fd f) (fun _ => bind (Sys.close f)
      (fun _ => bind (Posix.send_line (nl "OK SAVED")) (fun _ => ret 0)))).
Proof. destruct fuel; reflexivity. Qed.

(** The ends of the handlers: the descriptor is given up and a reply sent. *)
Lemma posix_close_reply f l (r : Z) w :
  bind (Sys.close f) (fun _ => bind (Posix.send_line l) (fun _ => ret r)) w
  = reply l r (logged SysClose w).
Proof. reflexivity. Qed.

Lemma posix_unlock_close_reply f l (r : Z) w :
  bind (Posix.unlock_fd f) (fun _ => bind (Sys.close f) (fun _ =>
    bind (Posix.send_line l) (fun _ => ret r))) w
  = reply l r (logged SysClose (logged (SysFcntl F_UNLCK) w)).
Proof. reflexivity. Qed.

Lemma posix_sync_unlock_close_reply f l (r : Z) w :
  bind (Sys.fsync f) (fun _ => bind (Posix.unlock_fd f) (fun _ => bind (Sys.close f)
    (fun _ => bind (Posix.send_line l) (fun _ => ret r)))) w
  = reply l r (logged SysClose (logged (SysFcntl F_UNLCK) (logged SysFsync w))).
Proof. reflexivity. Qed.

Lemma same_link_refl w : same_link w w.
Proof. repeat split. Qed.

Lemma same_link_trans w1 w2 w3 : same_link w1 w2 -> same_link w2 w3 -> same_link w1 w3.
Proof. unfold same_link. intros (A & B & C) (D & E & F). repeat split; congruence. Qed.

(** One more piece received and written before the loop ends. *)
Lemma loop_outcome_step w w2 f f' c data remaining res :
  payload (rx w) = data ++ payload (rx w2) ->
  same_link w w2 ->
  rx_end w2 = rx_end w ->
  (List.length data <= disk_free w)%nat ->
  disk_free w2 = (disk_free w - List.length data)%nat ->
  fd_key f' = fd_key f ->
  0 <= remaining - Z.of_nat (List.length data) ->
  loop_outcome w2 f' (c ++ data) (remaining - Z.of_nat (List.length data)) res ->
  loop_outcome w f c remaining res.
Proof.
  intros Hp Hl He Hfree Hdisk Hk Hrem H.
  destruct H as [wb d t Hl' Hp' Hd' Hr' Hs' | wb d t Hl' Hp' Hd' Hr' Hc' Hs'
                | wb d t Hl' Hp' Hd' Hf' Ht' Hs']; rewrite Hk in Hl'; rewrite <- app_assoc in Hl'.
  - apply (LoopSaved _ _ _ _ _ (data ++ d) t); auto.
    + rewrite Hp, Hp'. now rewrite app_assoc.
    + rewrite length_app. lia.
    + exact (same_link_trans _ _ _ Hl Hs').
  - apply (LoopRecvFailed _ _ _ _ _ (data ++ d) t); auto.
    + rewrite Hp, Hp'. now rewrite app_assoc.
    + rewrite length_app. lia.
    + intros H. apply Hc'. now rewrite He.
    + exact (same_link_trans _ _ _ Hl Hs').
  - apply (LoopWriteFailed _ _ _ _ _ (data ++ d) t); auto.
    + rewrite Hp, Hp'. now rewrite app_assoc.
    + rewrite length_app. lia.
    + rewrite length_app. lia.
    + exact (same_link_trans _ _ _ Hl Hs').
Qed.

(** With fuel above the number of items on the socket, the loop ends in one
    of the three ways of [loop_outcome]; the file then holds what it held
    before, followed by a prefix of what the client sent. *)
Lemma posix_upload_loop_spec fuel :
  forall w f remaining c,
    (List.length (rx w) < fuel)%nat ->
    fs_lookup (fd_key f) (fs w) = Some (Reg c) ->
    fd_off f = List.length c ->
    0 <= remaining ->
    loop_outcome w f c remaining (Posix.upload_loop fuel f remaining w).
Proof.
  induction fuel as [|fuel IH]; intros w f remaining c Hfuel Hlook Hoff Hrem.
  - lia.
  - rewrite posix_upload_loop_eq.
    destruct (remaining >? 0) eqn:Epos.
    + apply Z.gtb_lt in Epos.
      set (chunk := Z.to_nat (if remaining >? Posix.BUF then Posix.BUF else remaining)).
      assert (Hchunk : (0 < chunk)%nat /\ Z.of_nat chunk <= remaining).
      { unfold chunk. destruct (remaining >? Posix.BUF) eqn:Eb.
        - apply Z.gtb_lt in Eb. unfold Posix.BUF in *. lia.
        - lia. }
      destruct Hchunk as [Hc0 Hcr].
      destruct (posix_recv_all_spec chunk w Hc0)
        as (n & data & rest & E & Hp & Hl & Hn0 & Hn1).
      unfold bind at 1. rewrite E.
      destruct (n <=? 0) eqn:En.
      * apply Z.leb_le in En. specialize (Hn0 En). subst rest.
        rewrite posix_unlock_close_reply.
        apply (LoopRecvFailed _ _ _ _ _ [] (payload (rx w))).
        -- simpl. now rewrite app_nil_r.
        -- reflexivity.
        -- simpl. lia.
        -- reflexivity.
        -- intros Hend. pose proof (posix_recv_all_closed _ _ _ _ _ Hend E) as Hcnt.
           assert (data = []) by (destruct data; [reflexivity | simpl in Hcnt; lia]).
           subst data. rewrite Hp. reflexivity.
        -- repeat split.
      * apply Z.leb_gt in En. destruct (Hn1 En) as [Hnd Hrest].
        assert (Hlook1 : fs_lookup (fd_key f) (fs (set_rx rest w)) = Some (Reg c))
          by exact Hlook.
        destruct (sys_write_spec f data (set_rx rest w) c Hlook1 Hoff)
          as (wr & f' & w2 & m & Ew & Hm & Hlook2 & Hrx2 & Hlink2 & Henv2 & Hfull & Hpart).
        unfold bind at 1. rewrite Ew.
        destruct (wr =? n) eqn:Ewr; cbn [negb].
        -- apply Z.eqb_eq in Ewr. rewrite Hnd in Ewr.
           destruct (Hfull Ewr) as (-> & Hk & Ho & Hfree & Hdisk).
           rewrite firstn_all in Hlook2. subst n.
           apply (loop_outcome_step w w2 f f' c data); auto.
           ++ rewrite Hrx2. exact Hp.
           ++ exact (proj1 Henv2).
           ++ lia.
           ++ apply IH.
              ** rewrite Hrx2. simpl. lia.
              ** now rewrite Hk.
              ** exact Ho.
              ** lia.
        -- apply Z.eqb_neq in Ewr. rewrite posix_unlock_close_reply.
           apply (LoopWriteFailed _ _ _ _ _ (firstn m data) (skipn m data ++ payload rest)).
           ++ exact Hlook2.
           ++ rewrite Hp, app_assoc. now rewrite firstn_skipn.
           ++ rewrite Hnd in Ewr. specialize (Hpart Ewr). rewrite length_firstn. lia.
           ++ rewrite Hnd in Ewr. destruct (Hpart Ewr) as [Hlt Hfull'].
              rewrite length_firstn. cbn [disk_free set_rx] in Hfull'. lia.
           ++ rewrite Hnd in Ewr. destruct (Hpart Ewr) as [Hlt _].
              intros H0. apply app_eq_nil in H0. destruct H0 as [H0 _].
              apply (f_equal (@List.length ascii)) in H0.
              rewrite length_skipn in H0. simpl in H0. lia.
           ++ destruct Hlink2 as (A & B & C). repeat split; assumption.
    + rewrite Z.gtb_ltb in Epos. apply Z.ltb_ge in Epos.
      assert (remaining = 0) as -> by lia.
      rewrite posix_sync_unlock_close_reply.
      apply (LoopSaved _ _ _ _ _ [] (payload (rx w))).
      * simpl. now rewrite app_nil_r.
      * reflexivity.
      * reflexivity.
      * reflexivity.
      * repeat split.
Qed.

(** ** UPLOAD *)

Lemma posix_handle_upload_spec storage_dir name size w :
  upload_outcome storage_dir name size w (Posix.handle_upload storage_dir name size w).
Proof.
  unfold Posix.handle_upload.
  destruct (size <? 0) eqn:Esz.
  { apply Z.ltb_lt in Esz. now apply UpInvalidSize. }
  apply Z.ltb_ge in Esz.
  destruct (Posix.path_join MAX_PATH storage_dir name) as [path|] eqn:Epj.
  2:{ now apply UpBadName. }
  unfold bind at 1.
  destruct (Sys.open path O_WRONLY_CREAT_TRUNC w) as [[[f|]|] w1] eqn:Eo.
  3:{ exfalso. revert Eo. unfold Sys.open.
      repeat match goal with
             | |- context [match ?x with _ => _ end] => destruct x
             | |- context [if ?x then _ else _] => destruct x
             end; discriminate. }
  2:{ assert (w1 = logged (SysOpen path O_WRONLY_CREAT_TRUNC) w) as ->.
      { revert Eo. unfold Sys.open.
        repeat match goal with
               | |- context [match ?x with _ => _ end] => destruct x
               | |- context [if ?x then _ else _] => destruct x
               end; intros [= <-]; reflexivity || discriminate. }
      apply (UpCannotOpen _ _ _ _ path); auto. now rewrite Eo. }
  assert (Hf : fd_key f = resolve path /\ fd_off f = 0%nat
               /\ fs_lookup (resolve path) (fs w1) = Some (Reg [])).
  { revert Eo. unfold Sys.open.
    repeat match goal with
           | |- context [match ?x with _ => _ end] => destruct x
           | |- context [if ?x then _ else _] => destruct x
           end; intros [= <- <-]; cbn [fd_key fd_off fs set_fs];
      rewrite ?fs_lookup_update_same; repeat split. }
  destruct Hf as (Hk & Ho & Hl1).
  apply (UpOpened _ _ _ _ path f); auto; try (now rewrite Eo).
  rewrite Eo. cbn [snd].
  unfold bind at 1, Posix.lock_fd, Sys.fcntl.
  destruct (lock_ok w1) eqn:Elock.
  2:{ change (-1 <? 0) with true. cbv iota.
      rewrite posix_close_reply. now apply AoNoLock. }
  change (0 <? 0) with false. cbv iota.
  unfold bind at 1.
  destruct (Posix.send_line (nl "OK") (logged (SysFcntl F_WRLCK) w1)) as [[n|] w2] eqn:Eok.
  2:{ now apply AoEnded. }
  pose proof (posix_send_all_frame (firstn (MAX_LINE - 1) (nl "OK"))
                (logged (SysFcntl F_WRLCK) w1)) as Hfr.
  cbv zeta in Hfr. unfold Posix.send_line in Eok. rewrite Eok in Hfr. cbn [snd] in Hfr.
  destruct Hfr as (Hfs & Hrx & _ & _ & _ & _ & Hmal & _).
  unfold bind at 1, Sys.malloc.
  destruct (malloc_ok w2) eqn:Emal; cbn [negb].
  2:{ rewrite posix_unlock_close_reply.
      apply (AoOom _ _ _ n w2); [exact Elock | exact Eok | symmetry; exact Hmal]. }
  apply (AoLoop _ _ _ n w2); [exact Elock | exact Eok | symmetry; exact Hmal |].
  apply posix_upload_loop_spec; [lia | rewrite Hk, Hfs; exact Hl1 | exact Ho | exact Esz].
Qed.
(** ** What an UPLOAD sends and stores *)

(** The first part of a line that starts with ERR belongs to a line that
    starts with ERR. *)
Lemma error_part l e :
  part_of l e -> is_error_line l = true -> is_error_line e = true.
Proof.
  intros [n ->]. unfold is_error_line. rewrite !starts_with_app.
  intros [post H]. exists (post ++ skipn n e).
  rewrite <- (firstn_skipn n e) at 1. rewrite H. now rewrite <- app_assoc.
Qed.

(** What a reply with a line that fits the buffer puts on the wire. *)
Lemma reply_says {A} line (r : A) w :
  (List.length line <= MAX_LINE - 1)%nat ->
  exists out,
    tx (snd (reply line r w)) = tx w ++ out
    /\ (forall l, In l out -> part_of l line /\ (tx_room w = None -> l = line))
    /\ (tx_room w = None -> out = [line]).
Proof.
  intros Hlen. destruct (reply_tx line r w) as (out & Htx & Hout & Hall).
  rewrite (firstn_all2 line) in * by exact Hlen.
  exists out. split; [exact Htx|]. split; [|exact Hall].
  intros l Hin. split.
  - destruct Hout as [-> | [n ->]]; [contradiction|].
    destruct Hin as [<- | []]. now exists n.
  - intros Hup. rewrite (Hall Hup) in Hin. now destruct Hin as [<- | []].
Qed.

Lemma sys_open_frame path m w :
  let w' := snd (Sys.open path m w) in
  rx w' = rx w /\ same_link w w' /\ lock_ok w' = lock_ok w /\ malloc_ok w' = malloc_ok w.
Proof.
  unfold Sys.open.
  repeat match goal with
         | |- context [match ?x with _ => _ end] => destruct x
         | |- context [if ?x then _ else _] => destruct x
         end; repeat split.
Qed.

Lemma in_upload_lines l :
  In l upload_lines -> is_error_line l = true -> In l upload_errors.
Proof.
  intros H He. destruct H as [<- | [<- | H]]; [discriminate He | discriminate He | exact H].
Qed.

Ltac short_line := apply Nat.leb_le; vm_compute; reflexivity.

(** The replies of the receive loop. *)
Lemma loop_replies w f c remaining res :
  loop_outcome w f c remaining res ->
  exists out,
    tx (snd res) = tx w ++ out
    /\ (forall l, In l out ->
          exists e, In e upload_lines /\ part_of l e /\ (tx_room w = None -> l = e))
    /\ (tx_room w = None -> fst res = Some 0 -> out = [nl "OK SAVED"]).
Proof.
  intros H.
  destruct H as [wb d t _ _ _ _ (Ht & Hr & _) | wb d t _ _ _ _ _ (Ht & Hr & _)
                | wb d t _ _ _ _ _ (Ht & Hr & _)];
    match goal with
    | |- context [reply ?line ?r wb] =>
        destruct (reply_says line r wb ltac:(short_line)) as (out & Htx & Hout & Hall);
        pose proof (reply_up line r wb) as Hup;
        exists out; rewrite Htx, Ht; split; [reflexivity|]; split;
        [ intros l Hin; exists line; split;
          [ vm_compute; tauto
          | destruct (Hout l Hin) as [Hp He]; split; [exact Hp | rewrite <- Hr; exact He] ]
        | intros H0 H1; rewrite <- Hr in H0; specialize (Hup H0) ]
    end.
  - now apply Hall.
  - rewrite Hup in H1. discriminate H1.
  - rewrite Hup in H1. discriminate H1.
Qed.

Lemma upload_replies storage_dir name size w res :
  upload_outcome storage_dir name size w res ->
  exists replies,
    tx (snd res) = tx w ++ replies
    /\ forall l, In l replies ->
         exists e, In e upload_lines /\ part_of l e /\ (tx_room w = None -> l = e).
Proof.
  intros H.
  destruct H as [Hs | Hs Hpj | path Hs Hpj Ho | path f res Hs Hpj Ho Hk Ha];
    try match goal with
    | |- context [reply ?line ?r ?wb] =>
        destruct (reply_says line r wb ltac:(short_line)) as (out & Htx & Hout & _);
        exists out; split; [exact Htx|];
        intros l Hin; exists line; split; [vm_compute; tauto | exact (Hout l Hin)]
    end.
  destruct (sys_open_frame path O_WRONLY_CREAT_TRUNC w) as (_ & (Ht1 & Hr1 & _) & _).
  set (w1 := snd (Sys.open path O_WRONLY_CREAT_TRUNC w)) in *.
  assert (Hok : forall n w2,
            Posix.send_line (nl "OK") (logged (SysFcntl F_WRLCK) w1) = (n, w2) ->
            exists out,
              tx w2 = tx w ++ out
              /\ (forall l, In l out ->
                    exists e, In e upload_lines /\ part_of l e /\ (tx_room w = None -> l = e))
              /\ (tx_room w = None -> tx_room w2 = None /\ out = [nl "OK"])).
  { intros n w2 E.
    destruct (posix_send_all_tx (firstn (MAX_LINE - 1) (nl "OK")) (logged (SysFcntl F_WRLCK) w1))
      as (out & Htx & Hout & Hall).
    pose proof (posix_send_all_frame (firstn (MAX_LINE - 1) (nl "OK"))
                  (logged (SysFcntl F_WRLCK) w1)) as Hfr. cbv zeta in Hfr.
    unfold Posix.send_line in E. rewrite E in Htx, Hfr. cbn [snd] in Htx, Hfr.
    exists out. split; [rewrite Htx; cbn [tx logged]; now rewrite Ht1|].
    split.
    - intros l Hin. exists (nl "OK"). split; [vm_compute; tauto|]. split.
      + destruct Hout as [-> | [k ->]]; [contradiction|].
        destruct Hin as [<- | []]. now exists k.
      + intros Hup. rewrite Hall in Hin by (cbn [tx_room logged]; congruence).
        now destruct Hin as [<- | []].
    - intros Hup. split.
      + apply Hfr. cbn [tx_room logged]. congruence.
      + apply Hall. cbn [tx_room logged]. congruence. }
  destruct Ha as [Hl | w2 Hl Eok | n w2 Hl Eok Hm | n w2 res Hl Eok Hm Hloop].
  - destruct (reply_says (nl "ERR cannot lock file") (-1)
                (logged SysClose (logged (SysFcntl F_WRLCK) w1)) ltac:(short_line))
      as (out & Htx & Hout & _).
    exists out. split; [rewrite Htx; cbn [tx logged]; now rewrite Ht1|].
    intros l Hin. exists (nl "ERR cannot lock file"). split; [vm_compute; tauto|].
    destruct (Hout l Hin) as [Hp He]. split; [exact Hp|].
    intros Hup. apply He. cbn [tx_room logged]. congruence.
  - destruct (Hok _ _ Eok) as (out & Htx & Hout & _).
    exists out. split; [exact Htx | exact Hout].
  - destruct (Hok _ _ Eok) as (out & Htx & Hout & Hup2).
    destruct (reply_says (nl "ERR server oom") (-1)
                (logged SysClose (logged (SysFcntl F_UNLCK) w2)) ltac:(short_line))
      as (out2 & Htx2 & Hout2 & _).
    exists (out ++ out2). split.
    + rewrite Htx2. cbn [tx logged]. rewrite Htx. now rewrite app_assoc.
    + intros l Hin. apply in_app_or in Hin. destruct Hin as [Hin|Hin]; [now apply Hout|].
      exists (nl "ERR server oom"). split; [vm_compute; tauto|].
      destruct (Hout2 l Hin) as [Hp He]. split; [exact Hp|].
      intros Hup. apply He. cbn [tx_room logged]. now apply Hup2.
  - destruct (Hok _ _ Eok) as (out & Htx & Hout & Hup2).
    destruct (loop_replies _ _ _ _ _ Hloop) as (out2 & Htx2 & Hout2 & _).
    exists (out ++ out2). split.
    + rewrite Htx2, Htx. now rewrite app_assoc.
    + intros l Hin. apply in_app_or in Hin. destruct Hin as [Hin|Hin]; [now apply Hout|].
      destruct (Hout2 l Hin) as (e & He & Hp & Heq).
      exists e. split; [exact He|]. split; [exact Hp|].
      intros Hup. apply Heq. now apply Hup2.
Qed.

(** C5, as the code has it.  The error replies of an UPLOAD are ERR invalid
    size, ERR bad filename, ERR cannot open file for write, ERR recv data
    failed, ERR write failed, ERR cannot lock file and ERR server oom: on a
    connection that takes what is sent, every line an UPLOAD sends that
    starts with ERR is one of these seven; on any connection it is one of
    them or, when the connection took only the first part of the reply, the
    first part of one of them. *)
Theorem C5_upload_errors (storage_dir name : bytes) (size : Z) (w : world) :
  exists replies,
    tx (snd (Posix.handle_upload storage_dir name size w)) = tx w ++ replies
    /\ (tx_room w = None ->
        forall l, In l replies -> is_error_line l = true -> In l upload_errors)
    /\ (forall l, In l replies -> is_error_line l = true ->
          exists e, In e upload_errors /\ part_of l e).
Proof.
  destruct (upload_replies _ _ _ _ _ (posix_handle_upload_spec storage_dir name size w))
    as (replies & Htx & Hall).
  exists replies. split; [exact Htx|]. split.
  - intros Hup l Hin Herr. destruct (Hall l Hin) as (e & He & _ & Heq).
    rewrite (Heq Hup) in *. now apply in_upload_lines.
  - intros l Hin Herr. destruct (Hall l Hin) as (e & He & Hp & _).
    exists e. split; [|exact Hp].
    apply in_upload_lines; [exact He|]. exact (error_part _ _ Hp Herr).
Qed.

Lemma C5_upload_errors_witness :
  In (nl "ERR cannot lock file") upload_errors.
Proof.
  destruct (C5_upload_errors (B "storage") (B "a") 3 no_lock_world)
    as [replies [Htx [Hall _]]].
  apply Hall; [reflexivity| |reflexivity].
  assert (Hr : replies = [nl "ERR cannot lock file"]).
  { change (tx (snd (Posix.handle_upload (B "storage") (B "a") 3 no_lock_world)))
      with ([] ++ [nl "ERR cannot lock file"]) in Htx.
    simpl in Htx. symmetry. exact Htx. }
  rewrite Hr. left. reflexivity.
Defined.

(** C5 as stated fails: when the lock cannot be taken, the reply of an
    UPLOAD is ERR cannot lock file, which is not one of the five replies
    listed; likewise ERR server oom when the buffer cannot be allocated. *)
Lemma C5_counterexample :
  Posix.handle_upload (B "storage") (B "a") 3 no_lock_world
  = (Some (-1), sent (nl "ERR cannot lock file")
           (logged SysClose (logged (SysFcntl F_WRLCK)
             (snd (Sys.open (B "storage/a") O_WRONLY_CREAT_TRUNC no_lock_world)))))
  /\ is_error_line (nl "ERR cannot lock file") = true
  /\ ~ In (nl "ERR cannot lock file") upload_errors_listed.
Proof.
  split; [reflexivity|]. split; [reflexivity|].
  vm_compute. intros H.
  repeat (destruct H as [H | H]; [discriminate H|]). exact H.
Qed.
(** What the receive loop leaves in the file. *)
Lemma loop_content w f c remaining res :
  loop_outcome w f c remaining res ->
  exists d t,
    fs_lookup (fd_key f) (fs (snd res)) = Some (Reg (c ++ d))
    /\ payload (rx w) = d ++ t
    /\ Z.of_nat (List.length d) <= remaining
    /\ (fst res = Some 0 \/ fst res = Some (-1) \/ fst res = None)
    /\ (fst res = Some 0 ->
        Z.of_nat (List.length d) = remaining /\ payload (rx (snd res)) = t)
    /\ (fst res = Some (-1) -> Z.of_nat (List.length d) < remaining).
Proof.
  intros H.
  destruct H as [wb d t Hl Hp Hd Hr _ | wb d t Hl Hp Hd Hr _ _ | wb d t Hl Hp Hd _ _ _];
    match goal with
    | |- context [reply ?line ?r wb] =>
        pose proof (reply_frame line r wb) as Hfr; cbv zeta in Hfr;
        destruct Hfr as (Hfs & Hrx & _);
        pose proof (reply_value line r wb) as Hv;
        exists d, t; rewrite Hfs, Hrx;
        split; [exact Hl|]; split; [exact Hp|]; split; [lia|]
    end.
  - split; [destruct Hv as [-> | ->]; auto|]. split; [auto|].
    intros H. destruct Hv as [Hv | Hv]; rewrite Hv in H; discriminate H.
  - split; [destruct Hv as [-> | ->]; auto|]. split; [|intros _; exact Hd].
    intros H. destruct Hv as [Hv | Hv]; rewrite Hv in H; discriminate H.
  - split; [destruct Hv as [-> | ->]; auto|]. split; [|intros _; exact Hd].
    intros H. destruct Hv as [Hv | Hv]; rewrite Hv in H; discriminate H.
Qed.

(** What an upload that has opened its file leaves in it. *)
Lemma after_open_content size f w1 res :
  0 <= size ->
  fs_lookup (fd_key f) (fs w1) = Some (Reg []) ->
  fd_off f = 0%nat ->
  after_open size f w1 res ->
  exists d t,
    fs_lookup (fd_key f) (fs (snd res)) = Some (Reg d)
    /\ payload (rx w1) = d ++ t
    /\ Z.of_nat (List.length d) <= size
    /\ (fst res = Some 0 \/ fst res = Some (-1) \/ fst res = None)
    /\ (fst res = Some 0 ->
        Z.of_nat (List.length d) = size
        /\ (tx_room w1 = None -> exists before, tx (snd res) = before ++ [nl "OK SAVED"])).
Proof.
  intros Hsize Hlook Hoff Ha.
  assert (Hnil : forall line wb,
            fs wb = fs w1 ->
            exists d t,
              fs_lookup (fd_key f) (fs (snd (reply line (-1) wb))) = Some (Reg d)
              /\ payload (rx w1) = d ++ t
              /\ Z.of_nat (List.length d) <= size
              /\ (fst (reply line (-1) wb) = Some 0 \/ fst (reply line (-1) wb) = Some (-1)
                  \/ fst (reply line (-1) wb) = None)
              /\ (fst (reply line (-1) wb) = Some 0 ->
                  Z.of_nat (List.length d) = size
                  /\ (tx_room w1 = None ->
                      exists before, tx (snd (reply line (-1) wb)) = before ++ [nl "OK SAVED"]))).
  { intros line wb Hfs.
    pose proof (reply_frame line (-1) wb) as Hfr. cbv zeta in Hfr.
    pose proof (reply_value line (-1) wb) as Hv.
    exists [], (payload (rx w1)). rewrite (proj1 Hfr), Hfs.
    split; [exact Hlook|]. split; [reflexivity|]. split; [simpl; lia|].
    split; [destruct Hv as [-> | ->]; auto|].
    intros H. destruct Hv as [Hv | Hv]; rewrite Hv in H; discriminate H. }
  destruct Ha as [Hl | w2 Hl Eok | n w2 Hl Eok Hm | n w2 res Hl Eok Hm Hloop].
  - apply Hnil. reflexivity.
  - pose proof (posix_send_all_frame (firstn (MAX_LINE - 1) (nl "OK"))
                  (logged (SysFcntl F_WRLCK) w1)) as Hfr. cbv zeta in Hfr.
    unfold Posix.send_line in Eok. rewrite Eok in Hfr. cbn [snd] in Hfr.
    exists [], (payload (rx w1)). cbn [fst snd]. rewrite (proj1 Hfr).
    split; [exact Hlook|]. split; [reflexivity|]. split; [simpl; lia|].
    split; [auto|]. intros H. discriminate H.
  - pose proof (posix_send_all_frame (firstn (MAX_LINE - 1) (nl "OK"))
                  (logged (SysFcntl F_WRLCK) w1)) as Hfr. cbv zeta in Hfr.
    unfold Posix.send_line in Eok. rewrite Eok in Hfr. cbn [snd] in Hfr.
    apply Hnil. cbn [fs logged]. exact (proj1 Hfr).
  - pose proof (posix_send_all_frame (firstn (MAX_LINE - 1) (nl "OK"))
                  (logged (SysFcntl F_WRLCK) w1)) as Hfr. cbv zeta in Hfr.
    unfold Posix.send_line in Eok. rewrite Eok in Hfr. cbn [snd] in Hfr.
    destruct Hfr as (Hfs & Hrx & _ & _ & _ & _ & _ & _ & _ & _ & Hroom).
    destruct (loop_content _ _ _ _ _ Hloop) as (d & t & Hl' & Hp & Hd & Hv & Hok & _).
    destruct (loop_replies _ _ _ _ _ Hloop) as (out & Htx & _ & Hsaved).
    exists d, t. split; [exact Hl'|]. split; [rewrite <- Hp, Hrx; reflexivity|].
    split; [exact Hd|]. split; [exact Hv|].
    intros H0. split; [exact (proj1 (Hok H0))|].
    intros Hup. exists (tx w2). rewrite Htx. f_equal. apply Hsaved; [|exact H0].
    apply Hroom. exact Hup.
Qed.

(** C6, as the code has it.  An UPLOAD to the name of an existing regular
    file.  With a negative size it is rejected, and when [open] is refused
    it is answered ERR cannot open file for write: in both cases the file
    keeps its content.  In every other case, opening the destination
    empties the file; whether the upload then succeeds, fails or is cut
    short with the process, the file holds a prefix of the bytes the client
    sent after the command, at most [size] of them and nothing of the
    previous content; after a successful upload it holds exactly the first
    [size] bytes. *)
Theorem C6_truncate_on_open (storage_dir name path old : bytes) (size : Z)
    (w : world) (o : option Z) (w' : world) :
  Posix.path_join MAX_PATH storage_dir name = Some path ->
  fs_lookup (resolve path) (fs w) = Some (Reg old) ->
  Posix.handle_upload storage_dir name size w = (o, w') ->
  (size < 0 ->
   (o, w') = reply (nl "ERR invalid size") (-1) w
   /\ fs w' = fs w
   /\ (tx_room w = None -> o = Some (-1) /\ tx w' = tx w ++ [nl "ERR invalid size"]))
  /\ (0 <= size -> open_ok w = false ->
      (o, w') = reply (nl "ERR cannot open file for write") (-1)
                  (logged (SysOpen path O_WRONLY_CREAT_TRUNC) w)
      /\ fs w' = fs w
      /\ (tx_room w = None ->
          o = Some (-1) /\ tx w' = tx w ++ [nl "ERR cannot open file for write"]))
  /\ (0 <= size -> open_ok w = true ->
      fs_lookup (resolve path) (fs (snd (Sys.open path O_WRONLY_CREAT_TRUNC w)))
      = Some (Reg [])
      /\ exists d t,
           fs_lookup (resolve path) (fs w') = Some (Reg d)
           /\ payload (rx w) = d ++ t
           /\ Z.of_nat (List.length d) <= size
           /\ (o = Some 0 \/ o = Some (-1) \/ o = None)
           /\ (o = Some 0 ->
               Z.of_nat (List.length d) = size
               /\ d = firstn (Z.to_nat size) (payload (rx w))
               /\ (tx_room w = None -> exists before, tx w' = before ++ [nl "OK SAVED"]))).
Proof.
  intros Hpj Hold Hrun.
  assert (Hreply : forall line wb, fs wb = fs w -> tx wb = tx w -> tx_room wb = tx_room w ->
            (List.length line <= MAX_LINE - 1)%nat ->
            (o, w') = reply line (-1) wb ->
            fs w' = fs w /\ (tx_room w = None -> o = Some (-1) /\ tx w' = tx w ++ [line])).
  { intros line wb Hfs Htx Hroom Hlen E.
    pose proof (reply_frame line (-1) wb) as Hfr. cbv zeta in Hfr.
    destruct (reply_says line (-1) wb Hlen) as (out & Htx' & _ & Hall).
    pose proof (reply_survives line (-1) wb) as Hsv.
    rewrite <- E in Hfr, Htx', Hsv. cbn [fst snd] in Hfr, Htx', Hsv.
    split; [rewrite (proj1 Hfr); exact Hfs|].
    intros H. split.
    - apply Hsv. left. congruence.
    - rewrite Htx', Hall by congruence. now rewrite Htx. }
  repeat apply conj.
  - intros Hneg.
    assert (E : (o, w') = reply (nl "ERR invalid size") (-1) w).
    { rewrite <- Hrun. unfold Posix.handle_upload.
      replace (size <? 0) with true by (symmetry; apply Z.ltb_lt; lia). reflexivity. }
    split; [exact E|]. apply (Hreply _ w); auto. short_line.
  - intros Hsize Hno.
    assert (E : (o, w') = reply (nl "ERR cannot open file for write") (-1)
                            (logged (SysOpen path O_WRONLY_CREAT_TRUNC) w)).
    { rewrite <- Hrun. unfold Posix.handle_upload.
      replace (size <? 0) with false by (symmetry; apply Z.ltb_ge; lia).
      rewrite Hpj. unfold bind at 1, Sys.open. rewrite Hno. reflexivity. }
    split; [exact E|]. apply (Hreply _ (logged (SysOpen path O_WRONLY_CREAT_TRUNC) w)); auto.
    short_line.
  - intros Hsize Hyes.
    assert (Eo : Sys.open path O_WRONLY_CREAT_TRUNC w
                 = (Some (Some (mkFd (resolve path) 0)),
                    set_fs (fs_update (resolve path) (Reg []) (fs w))
                      (logged (SysOpen path O_WRONLY_CREAT_TRUNC) w))).
    { unfold Sys.open. now rewrite Hyes, Hold. }
    rewrite Eo. cbn [snd fs set_fs]. split; [apply fs_lookup_update_same|].
    pose proof (posix_handle_upload_spec storage_dir name size w) as Hspec.
    rewrite Hrun in Hspec.
    inversion Hspec as [Hs E | Hs Hp E | path' Hs Hp Ho E | path' f res Hs Hp Ho Hk Ha E];
      subst; try lia; try congruence.
    + rewrite Hpj in Hp. injection Hp as <-. rewrite Eo in Ho. discriminate Ho.
    + rewrite Hpj in Hp. injection Hp as <-. rewrite Eo in Ho, Ha.
      cbn [fst snd] in Ho, Ha. injection Ho as <-.
      assert (Hempty : fs_lookup (fd_key (mkFd (resolve path) 0))
                         (fs (set_fs (fs_update (resolve path) (Reg []) (fs w))
                                (logged (SysOpen path O_WRONLY_CREAT_TRUNC) w)))
                       = Some (Reg []))
        by (cbn [fd_key fs set_fs]; apply fs_lookup_update_same).
      destruct (after_open_content size _ _ _ Hsize Hempty eq_refl Ha)
        as (d & t & Hl & Hpay & Hd & Hv & Hok).
      cbn [fst snd fd_key rx tx_room set_fs logged] in *.
      exists d, t. split; [exact Hl|]. split; [exact Hpay|]. split; [exact Hd|].
      split; [exact Hv|].
      intros H0. destruct (Hok H0) as [Hlen Htx]. split; [exact Hlen|]. split.
      * rewrite Hpay. rewrite <- Hlen, Nat2Z.id.
        rewrite firstn_app, Nat.sub_diag, firstn_all. simpl. now rewrite app_nil_r.
      * intros Hup. apply Htx. exact Hup.
Qed.

Lemma C6_truncate_on_open_witness :
  fs_lookup [B "storage"; B "a"]
    (fs (snd (Sys.open (B "storage/a") O_WRONLY_CREAT_TRUNC (small_world (B "new")))))
  = Some (Reg []).
Proof.
  refine (proj1 (proj2 (proj2 (C6_truncate_on_open (B "storage") (B "a") (B "storage/a")
            (B "old content") 3 (small_world (B "new")) (Some 0)
            (snd (Posix.handle_upload (B "storage") (B "a") 3 (small_world (B "new"))))
            _ _ _)) _ _)).
  - reflexivity.
  - reflexivity.
  - vm_compute. reflexivity.
  - lia.
  - reflexivity.
Defined.

(** C6 as stated fails for an upload that fails before the destination is
    emptied: after UPLOAD a -1, and after an UPLOAD whose [open] is refused,
    the file [a] still holds its previous content, which is no prefix of
    what the client sent. *)
Lemma C6_counterexample :
  let w := small_world (B "new") in
  let w' := snd (Posix.handle_upload (B "storage") (B "a") (-1) w) in
  let v' := snd (Posix.handle_upload (B "storage") (B "a") 3 no_open_world) in
  dispatch (B "UPLOAD a -1") = CmdUpload (B "a") (-1)
  /\ fst (Posix.handle_upload (B "storage") (B "a") (-1) w) = Some (-1)
  /\ tx w' = [nl "ERR invalid size"]
  /\ fs_lookup [B "storage"; B "a"] (fs w) = Some (Reg (B "old content"))
  /\ fs_lookup [B "storage"; B "a"] (fs w') = Some (Reg (B "old content"))
  /\ payload (rx w) = B "new"
  /\ dispatch (B "UPLOAD a 3") = CmdUpload (B "a") 3
  /\ fst (Posix.handle_upload (B "storage") (B "a") 3 no_open_world) = Some (-1)
  /\ tx v' = [nl "ERR cannot open file for write"]
  /\ fs_lookup [B "storage"; B "a"] (fs no_open_world) = Some (Reg (B "old content"))
  /\ fs_lookup [B "storage"; B "a"] (fs v') = Some (Reg (B "old content"))
  /\ payload (rx no_open_world) = B "new".
Proof. vm_compute. repeat split. Qed.
(** ** The command loop *)

Lemma posix_step_at_end storage_dir w :
  rx w = [] -> Posix.handler_step storage_dir w = (Some Closed, w).
Proof.
  intros H.
  assert (E : set_rx [] w = w) by (rewrite <- H; apply set_rx_same).
  unfold Posix.handler_step, bind, Posix.recv_line. rewrite H.
  rewrite posix_recv_line_from_eq.
  change (List.length (@nil ascii) + 1 <? MAX_LINE)%nat with true. cbv iota.
  destruct (rx_end w); simpl; now rewrite E.
Qed.

Lemma posix_loop_at_end storage_dir w fuel :
  rx w = [] -> Posix.client_loop (S fuel) storage_dir w = (Some Closed, w).
Proof.
  intros H. simpl. unfold bind. now rewrite posix_step_at_end.
Qed.

Lemma not_saved_ok l : part_of l (nl "OK") -> l <> nl "OK SAVED".
Proof. intros [n ->]. destruct n as [|[|[|n]]]; discriminate. Qed.

Lemma not_saved_err l : part_of l (nl "ERR recv data failed") -> l <> nl "OK SAVED".
Proof. intros [n ->]. destruct n as [|n]; discriminate. Qed.

(** The stream ends during the transfer of an UPLOAD that could open and
    lock its file: all that came is in the file, and the handler is about to
    reply ERR recv data failed. *)
Lemma posix_upload_cut storage_dir name path size data w :
  Posix.path_join MAX_PATH storage_dir name = Some path ->
  open_ok w = true ->
  fs_lookup (resolve path) (fs w) <> Some Dir ->
  (fs_lookup (resolve path) (fs w) = None ->
   fs_lookup (removelast (resolve path)) (fs w) = Some Dir) ->
  lock_ok w = true ->
  malloc_ok w = true ->
  rx_end w = PeerClosed ->
  payload (rx w) = data ->
  Z.of_nat (List.length data) < size ->
  (List.length data <= disk_free w)%nat ->
  no_sigpipe w ->
  exists wb out,
    Posix.handle_upload storage_dir name size w = reply (nl "ERR recv data failed") (-1) wb
    /\ rx wb = []
    /\ fs_lookup (resolve path) (fs wb) = Some (Reg data)
    /\ tx wb = tx w ++ out
    /\ (forall l, In l out -> part_of l (nl "OK"))
    /\ (tx_room w = None -> out = [nl "OK"] /\ tx_room wb = None)
    /\ no_sigpipe wb.
Proof.
  intros Hpj Hopen Hnd Hnew Hlock Hmalloc Hend Hpay Hshort Hfree Hns.
  pose proof (posix_handle_upload_spec storage_dir name size w) as Hspec.
  remember (Posix.handle_upload storage_dir name size w) as res eqn:Eres. clear Eres.
  assert (Eo : exists f w1,
             Sys.open path O_WRONLY_CREAT_TRUNC w = (Some (Some f), w1)
             /\ fd_key f = resolve path
             /\ rx w1 = rx w /\ rx_end w1 = rx_end w /\ disk_free w1 = disk_free w
             /\ lock_ok w1 = lock_ok w /\ malloc_ok w1 = malloc_ok w
             /\ same_link w w1).
  { unfold Sys.open. rewrite Hopen. cbn [negb].
    destruct (fs_lookup (resolve path) (fs w)) as [[old|]|] eqn:E.
    - eexists _, _. split; [reflexivity|]. repeat split.
    - contradiction.
    - rewrite (Hnew eq_refl). eexists _, _. split; [reflexivity|]. repeat split. }
  destruct Eo as (f0 & w1 & Eo & Hk0 & Hrx1 & Hend1 & Hdisk1 & Hlock1 & Hmal1 & Ht1 & Hr1 & He1).
  destruct Hspec as [Hs | Hs Hp | path' Hs Hp Ho | path' f res Hs Hp Ho Hk Ha]; try lia;
    try congruence.
  { rewrite Hpj in Hp. injection Hp as <-. rewrite Eo in Ho. discriminate Ho. }
  rewrite Hpj in Hp. injection Hp as <-. rewrite Eo in Ho, Ha. cbn [fst snd] in Ho, Ha.
  injection Ho as <-.
  set (wl := logged (SysFcntl F_WRLCK) w1) in *.
  assert (Hnsl : no_sigpipe wl).
  { destruct Hns as [H|H]; [left | right]; cbn [tx_room tx_end wl logged]; congruence. }
  pose proof (posix_send_line_steady (nl "OK") wl) as (He2 & Hr2 & Hs2).
  pose proof (posix_send_all_frame (firstn (MAX_LINE - 1) (nl "OK")) wl) as Hfr. cbv zeta in Hfr.
  destruct (posix_send_all_tx (firstn (MAX_LINE - 1) (nl "OK")) wl) as (out & Htx & Hout & Hall).
  change (firstn (MAX_LINE - 1) (nl "OK")) with (nl "OK") in Hout, Hall.
  fold (Posix.send_line (nl "OK") wl) in Hfr, Htx.
  destruct Ha as [Hl | w2 Hl Eok | n w2 Hl Eok Hm | n w2 res Hl Eok Hm Hloop]; try congruence.
  { exfalso. fold wl in Eok. rewrite Eok in Hs2. now apply (Hs2 Hnsl). }
  fold wl in Eok. rewrite Eok in Hfr, Htx, He2, Hr2. cbn [snd] in Hfr, Htx, He2, Hr2.
  destruct Hfr as (Hfs2 & Hrx2 & Hend2 & _ & Hdisk2 & _).
  assert (Hpay2 : payload (rx w2) = data)
    by (rewrite Hrx2; cbn [rx wl logged]; rewrite Hrx1; exact Hpay).
  assert (Hns2 : no_sigpipe w2) by exact (no_sigpipe_kept _ _ He2 Hr2 Hnsl).
  destruct Hloop as [wb d t Hl' Hp' Hd' Hr' Hs' | wb d t Hl' Hp' Hd' Hr' Hc' Hs'
                    | wb d t Hl' Hp' Hd' Hf' Ht' Hs'].
  - exfalso. rewrite Hpay2 in Hp'. apply (f_equal (@List.length ascii)) in Hp'.
    rewrite length_app in Hp'. lia.
  - assert (t = []) as -> by (apply Hc'; rewrite Hend2; cbn [rx_end wl logged]; congruence).
    rewrite app_nil_r in Hp'. rewrite Hpay2 in Hp'. subst d.
    destruct Hs' as (Htb & Hrb & Heb).
    exists wb, out. repeat apply conj.
    + reflexivity.
    + exact Hr'.
    + rewrite <- Hk. exact Hl'.
    + rewrite Htb, Htx. cbn [tx wl logged]. now rewrite Ht1.
    + intros l Hin. destruct Hout as [-> | [k ->]]; [contradiction|].
      destruct Hin as [<- | []]. now exists k.
    + intros Hup. split.
      * apply Hall. cbn [tx_room wl logged]. congruence.
      * rewrite Hrb. apply Hr2. cbn [tx_room wl logged]. congruence.
    + destruct Hns2 as [H|H]; [left | right]; congruence.
  - exfalso. rewrite Hpay2 in Hp'. apply (f_equal (@List.length ascii)) in Hp'.
    rewrite length_app in Hp'.
    assert (Hd2 : disk_free w2 = disk_free w)
      by (rewrite Hdisk2; cbn [disk_free wl logged]; exact Hdisk1).
    destruct t as [|c t]; [now contradiction Ht'|]. simpl in Hp'. lia.
Qed.

(** A DOWNLOAD of a file that the connection takes only in part: the
    reply line goes out, the first part of the content goes out, and the
    handler is left at the [sendfile] that fails. *)
Lemma posix_download_cut storage_dir name path data k w :
  Posix.path_join MAX_PATH storage_dir name = Some path ->
  open_ok w = true ->
  fs_lookup (resolve path) (fs w) = Some (Reg data) ->
  lock_ok w = true ->
  fstat_ok w = true ->
  tx_room w = Some k ->
  let okline := firstn (MAX_LINE - 1) (B "OK " ++ Libc.dec (Z.of_nat (List.length data)) ++ [LF]) in
  (List.length okline <= k)%nat ->
  (k < List.length okline + List.length data)%nat ->
  exists wcut,
    fs wcut = fs w /\ rx wcut = rx w
    /\ tx wcut = tx w ++ okline
                 :: match (k - List.length okline)%nat with
                    | O => []
                    | S _ => [firstn (k - List.length okline) data]
                    end
    /\ calls wcut = calls w ++ [SysOpen path O_RDONLY; SysFcntl F_RDLCK; SysFstat; SysSendfile]
    /\ Posix.handle_download storage_dir name w
       = match tx_end w with
         | SendSigpipe => (None, wcut)
         | SendError => (Some (-1), logged SysClose (logged (SysFcntl F_UNLCK) wcut))
         | SendStalled => (Some 0, logged SysClose (logged (SysFcntl F_UNLCK) wcut))
         end.
Proof.
  intros Hpj Hopen Hlook Hlock Hfstat Hroom okline Hfit Hcut.
  set (w0 := logged SysFstat (logged (SysFcntl F_RDLCK) (logged (SysOpen path O_RDONLY) w))).
  set (ws := logged SysSendfile
               (set_room (Some (k - List.length okline)%nat) (sent okline w0))).
  set (wcut := set_room (Some 0%nat)
                 (match (k - List.length okline)%nat with
                  | O => ws
                  | S _ => sent (firstn (k - List.length okline) data) ws
                  end)).
  exists wcut.
  assert (Hdata : data <> []) by (intros E; rewrite E in Hcut; cbn [List.length] in Hcut; lia).
  split; [unfold wcut; destruct (k - List.length okline)%nat; reflexivity|].
  split; [unfold wcut; destruct (k - List.length okline)%nat; reflexivity|].
  split.
  { unfold wcut. destruct (k - List.length okline)%nat; cbn [tx set_room sent ws logged w0];
      rewrite <- ?app_assoc; reflexivity. }
  split.
  { unfold wcut. destruct (k - List.length okline)%nat;
      cbn [calls set_room sent ws logged w0]; rewrite <- !app_assoc; reflexivity. }
  unfold Posix.handle_download. rewrite Hpj.
  unfold bind at 1. unfold Sys.open. rewrite Hopen, Hlook. cbn [negb].
  unfold bind at 1. unfold Posix.lock_fd, Sys.fcntl.
  assert (lock_ok (logged (SysOpen path O_RDONLY) w) = true) as -> by exact Hlock.
  change (0 <? 0) with false. cbv iota.
  unfold bind at 1. unfold Sys.fstat.
  assert (fstat_ok (logged (SysFcntl F_RDLCK) (logged (SysOpen path O_RDONLY) w)) = true)
    as -> by exact Hfstat.
  cbn [fd_key fs logged]. rewrite Hlook. cbn [Sys.stat_of].
  fold w0. fold okline.
  assert (Esend : Posix.send_line (B "OK " ++ Libc.dec (Z.of_nat (List.length data)) ++ [LF]) w0
                  = (Some (Z.of_nat (List.length okline)),
                     set_room (Some (k - List.length okline)%nat) (sent okline w0))).
  { unfold Posix.send_line, Posix.send_all, Sys.push. fold okline.
    assert (tx_room w0 = Some k) as -> by exact Hroom.
    replace (List.length okline <=? k)%nat with true by (symmetry; apply Nat.leb_le; lia).
    reflexivity. }
  unfold bind at 1. rewrite Esend.
  set (w3 := set_room (Some (k - List.length okline)%nat) (sent okline w0)).
  assert (Efile : Posix.sendfile_all (mkFd (resolve path) 0) w3
                  = match tx_end w with
                    | SendSigpipe => (None, wcut)
                    | SendError => (Some (-1), wcut)
                    | SendStalled => (Some 0, wcut)
                    end).
  { unfold Posix.sendfile_all, Sys.rest_of. cbn [fd_key fd_off].
    assert (fs w3 = fs w) as -> by reflexivity. rewrite Hlook. cbn [skipn].
    destruct data as [|c data]; [contradiction|].
    unfold Sys.push.
    assert (tx_room (logged SysSendfile w3) = Some (k - List.length okline)%nat) as ->
      by reflexivity.
    replace (List.length (c :: data) <=? k - List.length okline)%nat with false
      by (symmetry; apply Nat.leb_gt; lia).
    assert (tx_end (logged SysSendfile w3) = tx_end w) as -> by reflexivity.
    fold ws. fold wcut. now destruct (tx_end w). }
  unfold bind at 1. rewrite Efile.
  destruct (tx_end w); reflexivity.
Qed.

(** C3. After a command line is handled, the handler is back in the loop and
    reads the next line, whatever the reply was; QUIT is the one command
    that ends the loop there and then.  A transfer that fails does not end
    the loop either.  When the stream closes during the transfer of an
    UPLOAD, the handler keeps what came, replies ERR recv data failed, never
    OK SAVED, and is back in the loop; it is the read that follows which
    finds the stream at its end and closes.  When the connection stops taking
    the content of a DOWNLOAD, the handler sends no reply and is back in the
    loop, with the lines the client has sent still to be read and obeyed;
    where the failed send raises SIGPIPE the process ends instead. *)
Theorem C3_command_loop (storage_dir : bytes) (w w1 : world) (n : Z) (buf line : bytes) :
  Posix.recv_line MAX_LINE w = (Some (n, buf), w1) ->
  0 < n ->
  chomp (Libc.cstr buf) = line ->
  line <> [] ->
  Posix.handler_step storage_dir w = Posix.exec_line storage_dir line w1
  /\ (dispatch line = CmdQuit ->
      Posix.handler_step storage_dir w = reply (nl "OK BYE") Closed w1
      /\ fst (Posix.handler_step storage_dir w) <> Some Ready
      /\ (tx_room w1 = None ->
          forall fuel,
            Posix.client_loop (S fuel) storage_dir w = (Some Closed, sent (nl "OK BYE") w1)))
  /\ (dispatch line <> CmdQuit ->
      fst (Posix.handler_step storage_dir w) <> Some Closed
      /\ (no_sigpipe w1 ->
          fst (Posix.handler_step storage_dir w) = Some Ready
          /\ forall fuel,
               Posix.client_loop (S fuel) storage_dir w
               = Posix.client_loop fuel storage_dir (snd (Posix.exec_line storage_dir line w1))))
  /\ (forall name size path data,
        dispatch line = CmdUpload name size ->
        Posix.path_join MAX_PATH storage_dir name = Some path ->
        open_ok w1 = true ->
        fs_lookup (resolve path) (fs w1) <> Some Dir ->
        (fs_lookup (resolve path) (fs w1) = None ->
         fs_lookup (removelast (resolve path)) (fs w1) = Some Dir) ->
        lock_ok w1 = true ->
        malloc_ok w1 = true ->
        rx_end w1 = PeerClosed ->
        payload (rx w1) = data ->
        Z.of_nat (List.length data) < size ->
        (List.length data <= disk_free w1)%nat ->
        no_sigpipe w1 ->
        exists w2 replies,
          Posix.handler_step storage_dir w = (Some Ready, w2)
          /\ tx w2 = tx w1 ++ replies
          /\ ~ In (nl "OK SAVED") replies
          /\ (tx_room w1 = None -> replies = [nl "OK"; nl "ERR recv data failed"])
          /\ rx w2 = []
          /\ fs_lookup (resolve path) (fs w2) = Some (Reg data)
          /\ forall fuel, Posix.client_loop (S fuel) storage_dir w2 = (Some Closed, w2))
  /\ (forall name path data k,
        dispatch line = CmdDownload name ->
        Posix.path_join MAX_PATH storage_dir name = Some path ->
        open_ok w1 = true ->
        fs_lookup (resolve path) (fs w1) = Some (Reg data) ->
        lock_ok w1 = true ->
        fstat_ok w1 = true ->
        tx_room w1 = Some k ->
        let okline :=
          firstn (MAX_LINE - 1) (B "OK " ++ Libc.dec (Z.of_nat (List.length data)) ++ [LF]) in
        (List.length okline <= k)%nat ->
        (k < List.length okline + List.length data)%nat ->
        (tx_end w1 = SendSigpipe -> fst (Posix.handler_step storage_dir w) = None)
        /\ (tx_end w1 <> SendSigpipe ->
            exists w2 part,
              Posix.handler_step storage_dir w = (Some Ready, w2)
              /\ tx w2 = tx w1 ++ okline :: part
              /\ (forall l, In l part ->
                  exists m, (m < List.length data)%nat /\ l = firstn m data)
              /\ rx w2 = rx w1
              /\ fs w2 = fs w1)).
Proof.
  intros Hrecv Hn Hline Hne.
  assert (Hstep : Posix.handler_step storage_dir w = Posix.exec_line storage_dir line w1).
  { rewrite (posix_handler_step_eq _ _ _ _ _ Hrecv).
    replace (n <=? 0) with false by (symmetry; apply Z.leb_gt; lia).
    rewrite Hline. destruct line; [contradiction | reflexivity]. }
  split; [exact Hstep|]. rewrite Hstep. split; [|split; [|split]].
  - intros Hq.
    assert (E : Posix.exec_line storage_dir line w1 = reply (nl "OK BYE") Closed w1)
      by (unfold Posix.exec_line; now rewrite Hq).
    split; [exact E|]. split.
    + rewrite E. destruct (reply_value (nl "OK BYE") Closed w1) as [H|H]; rewrite H; discriminate.
    + intros Hup fuel. simpl. unfold bind at 1. rewrite Hstep, E.
      rewrite (reply_up _ _ _ Hup). reflexivity.
  - intros Hq. destruct (posix_exec_line_ready storage_dir line w1 Hq) as [Hc Hr].
    split; [exact Hc|]. intros Hns. specialize (Hr Hns). split; [exact Hr|].
    intros fuel. simpl. unfold bind at 1. rewrite Hstep.
    destruct (Posix.exec_line storage_dir line w1) as [ph w2]. simpl in Hr. now subst ph.
  - intros name size path data Hup Hpj Hopen Hnd Hnew Hlock Hmalloc Hend Hpay Hshort Hfree Hns.
    destruct (posix_upload_cut storage_dir name path size data w1
                Hpj Hopen Hnd Hnew Hlock Hmalloc Hend Hpay Hshort Hfree Hns)
      as (wb & out & E & Hrx & Hfile & Htx & Hout & Hall & Hnsb).
    pose proof (reply_survives (nl "ERR recv data failed") (-1) wb Hnsb) as Hval.
    destruct (reply_says (nl "ERR recv data failed") (-1) wb) as (out2 & Htx2 & Hout2 & Hall2);
      [short_line|].
    pose proof (reply_frame (nl "ERR recv data failed") (-1) wb) as Hfr. cbv zeta in Hfr.
    destruct Hfr as (Hfs2 & Hrx2 & _ & _ & _ & _ & _ & _ & _ & _ & Hroom2).
    exists (snd (reply (nl "ERR recv data failed") (-1) wb)), (out ++ out2).
    assert (Hrun : Posix.exec_line storage_dir line w1
                   = (Some Ready, snd (reply (nl "ERR recv data failed") (-1) wb))).
    { unfold Posix.exec_line. rewrite Hup. unfold bind at 1. rewrite E.
      destruct (reply (nl "ERR recv data failed") (-1) wb) as [[r|] w2];
        [reflexivity | discriminate Hval]. }
    split; [exact Hrun|]. split; [rewrite Htx2, Htx; now rewrite app_assoc|].
    split; [|split; [|split; [|split]]].
    + intros Hin. apply in_app_or in Hin. destruct Hin as [Hin | Hin].
      * exact (not_saved_ok _ (Hout _ Hin) eq_refl).
      * exact (not_saved_err _ (proj1 (Hout2 _ Hin)) eq_refl).
    + intros Hroom. destruct (Hall Hroom) as [-> Hroomb]. now rewrite (Hall2 Hroomb).
    + now rewrite Hrx2.
    + now rewrite Hfs2.
    + intros fuel. apply posix_loop_at_end. now rewrite Hrx2.
  - intros name path data k Hd Hpj Hopen Hlook Hlock Hfstat Hroom okline Hfit Hcut.
    destruct (posix_download_cut storage_dir name path data k w1
                Hpj Hopen Hlook Hlock Hfstat Hroom Hfit Hcut)
      as (wcut & Hfs & Hrx & Htx & _ & E).
    fold okline in Htx.
    unfold Posix.exec_line. rewrite Hd. unfold bind. rewrite E. split.
    + intros ->. reflexivity.
    + intros Hsig.
      assert (Hpart : forall l,
                 In l (match (k - List.length okline)%nat with
                       | O => []
                       | S _ => [firstn (k - List.length okline) data]
                       end) ->
                 exists m, (m < List.length data)%nat /\ l = firstn m data).
      { intros l Hin. destruct (k - List.length okline)%nat eqn:Ek; [contradiction|].
        destruct Hin as [<- | []]. exists (k - List.length okline)%nat. rewrite Ek.
        split; [lia | reflexivity]. }
      destruct (tx_end w1); [| |now contradiction Hsig];
        eexists _, _; (split; [reflexivity|]); cbn [tx rx fs logged];
        (split; [exact Htx|]); (split; [exact Hpart|]); split; assumption.
Qed.

Lemma C3_command_loop_witness :
  exists w2,
    Posix.handler_step (B "storage") half_upload_world = (Some Ready, w2)
    /\ tx w2 = [nl "OK"; nl "ERR recv data failed"]
    /\ rx w2 = []
    /\ fs_lookup [B "storage"; B "f"] (fs w2) = Some (Reg (B "12345"))
    /\ forall fuel, Posix.client_loop (S fuel) (B "storage") w2 = (Some Closed, w2).
Proof.
  destruct (C3_command_loop (B "storage") half_upload_world
              (set_rx (wire (B "12345")) half_upload_world)
              12 (nl "UPLOAD f 10") (B "UPLOAD f 10")) as (_ & _ & _ & Hcut & _).
  - reflexivity.
  - lia.
  - reflexivity.
  - discriminate.
  - destruct (Hcut (B "f") 10 (B "storage/f") (B "12345")) as (w2 & replies & H).
    + reflexivity.
    + reflexivity.
    + reflexivity.
    + discriminate.
    + intros _. reflexivity.
    + reflexivity.
    + reflexivity.
    + reflexivity.
    + reflexivity.
    + simpl. lia.
    + simpl. lia.
    + left. reflexivity.
    + destruct H as (Hstep & Htx & _ & Hall & Hrx & Hfile & Hloop).
      exists w2. split; [exact Hstep|]. split; [|split; [exact Hrx|split; [exact Hfile|exact Hloop]]].
      rewrite Htx. now rewrite (Hall eq_refl).
Defined.

(** A client asks for a file, stops taking bytes in the middle of its
    content and has a DELETE behind the DOWNLOAD on the wire: the transfer
    fails, nothing is said about it, and the server goes on to read the
    DELETE and to remove the file.  And the handler that lost its client in
    the middle of an UPLOAD is in READY, not in CLOSED, when the command
    returns. *)
Lemma C3_counterexample :
  (let r := Posix.client_thread (B "storage") cut_download_world in
   fst r = Some Closed
   /\ tx (snd r) = [nl "OK WELCOME"; nl "OK 11"; B "old"]
   /\ fs_lookup [B "storage"; B "a"] (fs (snd r)) = None
   /\ calls (snd r)
      = [SysOpen (B "storage/a") O_RDONLY; SysFcntl F_RDLCK; SysFstat; SysSendfile;
         SysFcntl F_UNLCK; SysClose;
         SysOpen (B "storage/a") O_RDWR; SysFcntl F_WRLCK; SysUnlink (B "storage/a");
         SysFcntl F_UNLCK; SysClose])
  /\ fst (Posix.handler_step (B "storage") half_upload_world) = Some Ready.
Proof. vm_compute. repeat split. Qed.

(** The client goes away after half of the payload: the file keeps the half,
    no OK SAVED is sent and the loop ends at the next read. *)
Example half_upload_run :
  let r := Posix.client_thread (B "storage") half_upload_world in
  fst r = Some Closed
  /\ tx (snd r) = [nl "OK WELCOME"; nl "OK"; nl "ERR recv data failed"]
  /\ fs_lookup [B "storage"; B "f"] (fs (snd r)) = Some (Reg (B "12345")).
Proof. vm_compute. repeat split. Qed.

(** ** LIST *)

(** C4, on a storage directory that holds the regular file [a] of three
    bytes and the subdirectory [sub]: [handle_list] of server.c announces two
    entries and then sends one FILE line, with the size of the file, before
    END; the count is the number of directory entries, not the number of
    FILE lines. *)
Theorem C4_list_count_mismatch :
  Posix.handle_list (B "storage") mixed_dir_world
  = (Some 0, mkWorld (fs mixed_dir_world) [] PeerClosed
          [nl "OK 2"; nl "FILE a 3"; nl "END"]
          [SysOpendir (B "storage"); SysStat (B "storage/a"); SysStat (B "storage/sub");
           SysClosedir]
          100 true true true true None SendError).
Proof. vm_compute. reflexivity. Qed.

Lemma windows_list_entries_tx entries :
  forall w,
    tx_room w = None ->
    tx (snd (Windows.list_entries entries w))
    = tx w ++ map file_line (filter Windows.listed entries)
    /\ fs (snd (Windows.list_entries entries w)) = fs w
    /\ tx_room (snd (Windows.list_entries entries w)) = None
    /\ fst (Windows.list_entries entries w) = Some tt.
Proof.
  induction entries as [|[[name is_dir] size] entries IH]; intros w Hup.
  - simpl. now rewrite app_nil_r.
  - cbn [Windows.list_entries filter].
    destruct (Windows.listed (name, is_dir, size)) eqn:E.
    + unfold bind. rewrite (windows_send_line_up _ _ Hup).
      destruct (IH (sent (firstn (MAX_LINE - 1)
                            (B "FILE " ++ name ++ B " " ++ Libc.dec size ++ [LF])) w) Hup)
        as (Htx & Hfs & Hroom & Hval).
      rewrite Htx, Hfs. cbn [map tx fs sent]. rewrite <- app_assoc. repeat split; assumption.
    + now apply IH.
Qed.

(** [handle_list] of server_windows.c counts with the test it lists with: on
    a connection that takes all that is sent, the count it announces is the
    number of FILE lines that follow, and a FILE line carries the byte count
    of its file. *)
Lemma windows_list_count storage_dir w :
  fs_lookup (Windows.resolve storage_dir) (fs w) = Some Dir ->
  tx_room w = None ->
  exists lines,
    tx (snd (Windows.handle_list storage_dir w))
    = tx w ++ [firstn (MAX_LINE - 1)
                 (B "OK " ++ Libc.dec (Z.of_nat (List.length lines)) ++ [LF])]
           ++ lines ++ [nl "END"]
    /\ lines = map file_line
         (filter Windows.listed
            (Windows.child_entries (Windows.resolve storage_dir) (fs w))).
Proof.
  intros Hdir Hup.
  exists (map file_line
            (filter Windows.listed
               (Windows.child_entries (Windows.resolve storage_dir) (fs w)))).
  split; [|reflexivity].
  unfold Windows.handle_list, Windows.find_files, Windows.find_close.
  unfold bind at 1. rewrite Hdir.
  unfold bind at 1. unfold bind at 1.
  rewrite windows_send_line_up by exact Hup.
  unfold bind at 1. cbn [fs sent logged]. rewrite Hdir.
  set (entries := ([DOT], true, 0) :: (DOTDOT, true, 0)
                  :: Windows.child_entries (Windows.resolve storage_dir) (fs w)).
  set (w1 := logged _ (sent _ _)).
  destruct (windows_list_entries_tx entries w1 Hup) as (Htx & _ & Hroom & Hval).
  unfold bind at 1.
  destruct (Windows.list_entries entries w1) as [[u|] w2]; [|discriminate Hval].
  cbn [fst snd] in Htx, Hroom.
  unfold bind at 1. unfold bind at 1.
  rewrite windows_send_line_up by exact Hroom.
  cbn [tx sent logged ret snd]. rewrite Htx.
  unfold entries.
  change (filter Windows.listed
            (([DOT], true, 0) :: (DOTDOT, true, 0)
             :: Windows.child_entries (Windows.resolve storage_dir) (fs w)))
    with (filter Windows.listed
            (Windows.child_entries (Windows.resolve storage_dir) (fs w))).
  rewrite length_map. cbn [tx w1 sent logged]. rewrite <- !app_assoc. reflexivity.
Qed.

(** What the second loop of [handle_list] of server.c sends. *)
Lemma posix_list_entries_tx storage_dir names :
  forall w,
    tx_room w = None ->
    tx (snd (Posix.list_entries storage_dir names w))
    = tx w ++ flat_map (posix_file_line storage_dir (fs w)) names
    /\ fs (snd (Posix.list_entries storage_dir names w)) = fs w
    /\ tx_room (snd (Posix.list_entries storage_dir names w)) = None
    /\ fst (Posix.list_entries storage_dir names w) = Some tt.
Proof.
  induction names as [|name names IH]; intros w Hup.
  - simpl. now rewrite app_nil_r.
  - cbn [Posix.list_entries flat_map]. unfold posix_file_line at 1.
    destruct (Libc.strcmp0 name [DOT] || Libc.strcmp0 name DOTDOT); [now apply IH|].
    destruct (Posix.path_join MAX_PATH storage_dir name) as [path|]; [|now apply IH].
    unfold bind, Sys.stat.
    destruct (fs_lookup (resolve path) (fs w)) as [[data|]|].
    + cbn [Sys.stat_of]. cbv beta iota.
      rewrite posix_send_line_up by exact Hup.
      set (l := firstn (MAX_LINE - 1) _).
      destruct (IH (sent l (logged (SysStat path) w)) Hup) as (Htx & Hfs & Hroom & Hval).
      rewrite Htx, Hfs. cbn [tx fs sent logged app]. rewrite <- app_assoc.
      repeat split; assumption.
    + cbn [Sys.stat_of]. apply (IH (logged (SysStat path) w) Hup).
    + apply (IH (logged (SysStat path) w) Hup).
Qed.

(** The reply of [handle_list] of server.c on a readable directory, over a
    connection that takes all that is sent. *)
Lemma posix_list_reply storage_dir w :
  fs_lookup (resolve storage_dir) (fs w) = Some Dir ->
  tx_room w = None ->
  let names := [DOT] :: DOTDOT :: children (resolve storage_dir) (fs w) in
  tx (snd (Posix.handle_list storage_dir w))
  = tx w ++ [firstn (MAX_LINE - 1) (B "OK " ++ Libc.dec (Posix.count_items names) ++ [LF])]
         ++ flat_map (posix_file_line storage_dir (fs w)) names ++ [nl "END"].
Proof.
  intros Hdir Hup names.
  unfold Posix.handle_list, Sys.opendir, Sys.closedir.
  unfold bind at 1. rewrite Hdir. fold names.
  unfold bind at 1. rewrite posix_send_line_up by exact Hup.
  set (w1 := sent _ (logged _ w)).
  destruct (posix_list_entries_tx storage_dir names w1 Hup) as (Htx & _ & Hroom & Hval).
  unfold bind at 1.
  destruct (Posix.list_entries storage_dir names w1) as [[u|] w2]; [|discriminate Hval].
  cbn [fst snd] in Htx, Hroom.
  unfold bind at 1. rewrite posix_send_line_up by exact Hroom.
  unfold bind. cbn [tx sent logged ret snd]. rewrite Htx.
  cbn [tx fs w1 sent logged]. rewrite <- !app_assoc. reflexivity.
Qed.

(** In a storage directory where every entry is a regular file that
    [handle_list] of server.c can list, the count is the number of FILE
    lines. *)
Lemma posix_list_count_flat storage_dir w :
  (forall name, In name (children (resolve storage_dir) (fs w)) ->
                exists l, posix_file_line storage_dir (fs w) name = [l]) ->
  let names := [DOT] :: DOTDOT :: children (resolve storage_dir) (fs w) in
  Posix.count_items names
  = Z.of_nat (List.length (flat_map (posix_file_line storage_dir (fs w)) names)).
Proof.
  intros Hall names. unfold Posix.count_items, names.
  set (ch := children (resolve storage_dir) (fs w)) in *.
  change (flat_map (posix_file_line storage_dir (fs w)) ([DOT] :: DOTDOT :: ch))
    with (flat_map (posix_file_line storage_dir (fs w)) ch).
  change (filter _ ([DOT] :: DOTDOT :: ch))
    with (filter (fun n => negb (Libc.strcmp0 n [DOT]) && negb (Libc.strcmp0 n DOTDOT)) ch).
  f_equal. induction ch as [|name ch IH]; [reflexivity|].
  destruct (Hall name (or_introl eq_refl)) as [l Hl].
  cbn [filter flat_map]. rewrite Hl.
  assert (Hnd : negb (Libc.strcmp0 name [DOT]) && negb (Libc.strcmp0 name DOTDOT) = true).
  { unfold posix_file_line in Hl.
    destruct (Libc.strcmp0 name [DOT]); [discriminate|].
    destruct (Libc.strcmp0 name DOTDOT); [discriminate|]. reflexivity. }
  rewrite Hnd. simpl. f_equal. apply IH.
  intros n Hn. apply Hall. now right.
Qed.

(** ** Uploads at once *)

(** C2, for two workers that upload AAAA and BB to the same name: the
    second worker opens, and empties, the file before it waits for the lock;
    the first then writes its four bytes and gives the lock back; the second
    takes the lock and writes its two bytes over the first two.  Both uploads
    run to their end and the file holds BBAA, bytes of both payloads. *)
Theorem C2_concurrent_uploads_mix :
  let s := Concurrent.run [0; 0; 1; 1; 0; 0; 0; 1; 1; 1; 1]%nat two_uploads in
  Concurrent.all_finished s = true
  /\ Concurrent.holder s = None
  /\ fs_lookup [B "storage"; B "f"] (fs (Concurrent.shared s)) = Some (Reg (B "BBAA")).
Proof. vm_compute. repeat split. Qed.

(** A worker on its own leaves what [Posix.handle_upload] leaves. *)
Example one_worker_agrees :
  let w := mkWorld [([B "storage"], Dir)] (wire (B "AAAA")) PeerClosed [] [] 100
             true true true true None SendError in
  let s := Concurrent.run [0; 0; 0; 0; 0]%nat
             (Concurrent.start Concurrent.PerWorker w [(B "storage/f", B "AAAA")]) in
  Concurrent.all_finished s = true
  /\ fs (Concurrent.shared s) = fs (snd (Posix.handle_upload (B "storage") (B "f") 4 w))
  /\ fs_lookup [B "storage"; B "f"] (fs (Concurrent.shared s)) = Some (Reg (B "AAAA")).
Proof. vm_compute. repeat split. Qed.

(** One upload after the other leaves the payload of the second. *)
Example uploads_in_turn :
  let s := Concurrent.run [0; 0; 0; 0; 0; 1; 1; 1; 1; 1]%nat two_uploads in
  Concurrent.all_finished s = true
  /\ fs_lookup [B "storage"; B "f"] (fs (Concurrent.shared s)) = Some (Reg (B "BB")).
Proof. vm_compute. repeat split. Qed.

(** With the locks as [fcntl] gives them to the threads of one process, a
    lock never makes a worker wait: the two writers are in their loops at
    once, and their chunks land in the order of the schedule. *)
Example uploads_under_process_locks :
  let s0 := Concurrent.start Concurrent.PerProcess
                (mkWorld [([B "storage"], Dir)] [] PeerClosed [] [] 100
                   true true true true None SendError)
              [(B "storage/f", B "AAAA"); (B "storage/f", B "BB")] in
  let mid := Concurrent.run [0; 0; 1; 1]%nat s0 in
  let s := Concurrent.run [0; 1; 0; 1; 0; 1]%nat mid in
  forallb Concurrent.in_critical (Concurrent.workers mid) = true
  /\ Concurrent.all_finished s = true
  /\ fs_lookup [B "storage"; B "f"] (fs (Concurrent.shared s)) = Some (Reg (B "BBAA")).
Proof. vm_compute. repeat split. Qed.

Lemma nth_error_set_nth_same {A} (l : list A) :
  forall i x y, nth_error l i = Some y -> nth_error (Concurrent.set_nth i x l) i = Some x.
Proof.
  induction l as [|a l IH]; intros [|i] x y H; simpl in *; try discriminate; auto.
  now apply IH with y.
Qed.

Lemma nth_error_set_nth_other {A} (l : list A) :
  forall i j x, i <> j -> nth_error (Concurrent.set_nth i x l) j = nth_error l j.
Proof.
  induction l as [|a l IH]; intros [|i] [|j] x H; simpl; auto; try contradiction.
  all: try (apply IH; congruence).
Qed.

(** A step of worker [i] that only moves [i] to a place outside the
    critical section, or keeps it inside, keeps the invariant. *)
Lemma lock_inv_set s i u u' w' :
  lock_inv s ->
  nth_error (Concurrent.workers s) i = Some u ->
  (Concurrent.in_critical u' = true -> Concurrent.in_critical u = true) ->
  lock_inv (Concurrent.mkCstate (Concurrent.scope s) w' (Concurrent.holder s)
              (Concurrent.set_nth i u' (Concurrent.workers s))).
Proof.
  intros Hinv Hi Hc Hsc j v Hj Hv. simpl in *. specialize (Hinv Hsc).
  destruct (Nat.eq_dec i j) as [<- | Hne].
  - rewrite (nth_error_set_nth_same _ _ _ _ Hi) in Hj. injection Hj as <-.
    apply (Hinv i u Hi). auto.
  - rewrite nth_error_set_nth_other in Hj by assumption. now apply (Hinv j v).
Qed.

Lemma step_lock_inv i s : lock_inv s -> lock_inv (Concurrent.step i s).
Proof.
  intros Hinv. unfold Concurrent.step.
  destruct (nth_error (Concurrent.workers s) i) as [u|] eqn:Hi; [|exact Hinv].
  destruct (Concurrent.pc u) as [|f|f rest|f|] eqn:Hpc.
  - destruct (Sys.open (Concurrent.target u) O_WRONLY_CREAT_TRUNC (Concurrent.shared s))
      as [[[f|]|] w'];
      apply (lock_inv_set s i u _ w' Hinv Hi); discriminate.
  - destruct (Concurrent.scope s) eqn:Hsc0.
    2:{ destruct (Concurrent.holder s); intros Hsc; simpl in Hsc; congruence. }
    specialize (Hinv Hsc0).
    destruct (Concurrent.holder s) as [h|] eqn:Hh.
    { intros _. rewrite Hh. exact Hinv. }
    intros _ j v Hj Hv. simpl in *.
    destruct (Nat.eq_dec i j) as [<- | Hne]; [reflexivity|].
    rewrite nth_error_set_nth_other in Hj by assumption.
    specialize (Hinv j v Hj Hv). congruence.
  - destruct rest as [|b rest].
    + apply (lock_inv_set s i u _ _ Hinv Hi).
      intros _. unfold Concurrent.in_critical. now rewrite Hpc.
    + destruct (Sys.write f (firstn (Z.to_nat Posix.BUF) (b :: rest)) (Concurrent.shared s))
        as [[[wr f']|] w']; apply (lock_inv_set s i u _ w' Hinv Hi); try discriminate.
      intros _. unfold Concurrent.in_critical. now rewrite Hpc.
  - intros Hsc j v Hj Hv. simpl in *. specialize (Hinv Hsc).
    assert (Hu : Concurrent.in_critical u = true)
      by (unfold Concurrent.in_critical; now rewrite Hpc).
    pose proof (Hinv i u Hi Hu) as Hhold.
    destruct (Nat.eq_dec i j) as [<- | Hne].
    + rewrite (nth_error_set_nth_same _ _ _ _ Hi) in Hj. injection Hj as <-. discriminate.
    + rewrite nth_error_set_nth_other in Hj by assumption.
      specialize (Hinv j v Hj Hv). congruence.
  - exact Hinv.
Qed.

Lemma run_lock_inv sched : forall s, lock_inv s -> lock_inv (Concurrent.run sched s).
Proof.
  induction sched as [|i sched IH]; intros s H; simpl; [exact H|].
  apply IH. now apply step_lock_inv.
Qed.

Lemma start_lock_inv sc w uploads : lock_inv (Concurrent.start sc w uploads).
Proof.
  intros _ i u Hi Hu. unfold Concurrent.start in Hi. simpl in Hi.
  rewrite nth_error_map in Hi.
  destruct (nth_error uploads i); [|discriminate].
  injection Hi as <-. discriminate.
Qed.

Lemma run_scope sched : forall s, Concurrent.scope (Concurrent.run sched s) = Concurrent.scope s.
Proof.
  induction sched as [|i sched IH]; intros s; simpl; [reflexivity|].
  rewrite IH. unfold Concurrent.step.
  destruct (nth_error (Concurrent.workers s) i) as [u|]; [|reflexivity].
  destruct (Concurrent.pc u) as [|f|f rest|f|]; try reflexivity.
  - now destruct (Sys.open _ _ _) as [[[f|]|] w'].
  - destruct (Concurrent.scope s) eqn:E, (Concurrent.holder s); simpl; congruence.
  - destruct rest; [reflexivity|].
    now destruct (Sys.write _ _ _) as [[[wr f']|] w'].
Qed.

(** Were the lock one that a worker holds against the others, as the
    specification takes it, two workers would never both be between
    [lock_fd] and [unlock_fd], under any schedule; the file is emptied
    before the lock is asked for all the same. *)
Lemma lock_exclusive sched w uploads i j u v :
  let s := Concurrent.run sched (Concurrent.start Concurrent.PerWorker w uploads) in
  nth_error (Concurrent.workers s) i = Some u ->
  nth_error (Concurrent.workers s) j = Some v ->
  Concurrent.in_critical u = true ->
  Concurrent.in_critical v = true ->
  i = j.
Proof.
  intros s Hi Hj Hu Hv.
  pose proof (run_lock_inv sched _ (start_lock_inv Concurrent.PerWorker w uploads)) as Hinv.
  specialize (Hinv (run_scope sched _)).
  pose proof (Hinv i u Hi Hu) as H1. pose proof (Hinv j v Hj Hv) as H2.
  fold s in H1, H2. congruence.
Qed.

(** ** The loop ends *)

Lemma preserves_shrinks {A} (m : M A) : preserves rx m -> shrinks m.
Proof. intros H w. now rewrite H. Qed.

Lemma shrinks_bind {A C} (m : M A) (k : A -> M C) :
  shrinks m -> (forall a, shrinks (k a)) -> shrinks (bind m k).
Proof.
  intros Hm Hk w. unfold bind. specialize (Hm w).
  destruct (m w) as [[a|] w1]; simpl in Hm; [|exact Hm]. specialize (Hk a w1). lia.
Qed.

Lemma posix_recv_all_shrinks len : shrinks (Posix.recv_all len).
Proof.
  intros w. unfold Posix.recv_all.
  destruct (posix_recv_all_from_spec (rx w) (rx_end w) len [])
    as (n & data & rest & E & _ & _ & Hr & _).
  rewrite E. exact Hr.
Qed.

Lemma sys_write_rx f buf : preserves rx (Sys.write f buf).
Proof.
  intros w. unfold Sys.write.
  destruct (fs_lookup (fd_key f) (fs w)) as [[c|]|]; try reflexivity.
  destruct (Nat.min (List.length buf) (disk_free w)); destruct buf; reflexivity.
Qed.

Lemma sys_fsync_rx f : preserves rx (Sys.fsync f).
Proof. intros w. reflexivity. Qed.

#[local] Hint Resolve sys_write_rx sys_fsync_rx : rxframe.

Lemma posix_upload_loop_shrinks fuel :
  forall f remaining, shrinks (Posix.upload_loop fuel f remaining).
Proof.
  induction fuel as [|fuel IH]; intros f remaining; rewrite posix_upload_loop_eq;
    destruct (remaining >? 0).
  - apply preserves_shrinks, preserves_ret.
  - apply preserves_shrinks. unfold Posix.unlock_fd. rx_frame.
  - apply shrinks_bind; [apply posix_recv_all_shrinks|]. intros [n buf].
    destruct (n <=? 0).
    + apply preserves_shrinks. unfold Posix.unlock_fd. rx_frame.
    + apply shrinks_bind; [apply preserves_shrinks; auto with rxframe|]. intros [wr f'].
      destruct (negb (wr =? n)).
      * apply preserves_shrinks. unfold Posix.unlock_fd. rx_frame.
      * apply IH.
  - apply preserves_shrinks. unfold Posix.unlock_fd. rx_frame.
Qed.

Lemma posix_handle_upload_shrinks storage_dir name size :
  shrinks (Posix.handle_upload storage_dir name size).
Proof.
  unfold Posix.handle_upload, Posix.lock_fd, Posix.unlock_fd.
  destruct (size <? 0); [apply preserves_shrinks; rx_frame|].
  destruct (Posix.path_join MAX_PATH storage_dir name); [|apply preserves_shrinks; rx_frame].
  apply shrinks_bind; [apply preserves_shrinks; auto with rxframe|]. intros [f|].
  2:{ apply preserves_shrinks; rx_frame. }
  apply shrinks_bind; [apply preserves_shrinks; auto with rxframe|]. intros l.
  destruct (l <? 0); [apply preserves_shrinks; rx_frame|].
  apply shrinks_bind; [apply preserves_shrinks; auto with rxframe|]. intros _.
  apply shrinks_bind; [apply preserves_shrinks; auto with rxframe|]. intros ok.
  destruct (negb ok); [apply preserves_shrinks; rx_frame|].
  intros w. apply posix_upload_loop_shrinks.
Qed.

Lemma posix_exec_line_shrinks storage_dir line : shrinks (Posix.exec_line storage_dir line).
Proof.
  unfold Posix.exec_line.
  destruct (dispatch line);
    try solve [apply preserves_shrinks; rx_frame].
  apply shrinks_bind; [apply posix_handle_upload_shrinks|].
  intros _. apply preserves_shrinks, preserves_ret.
Qed.

(** A line of at least one byte takes at least one item off the socket. *)
Lemma posix_recv_line_consumes items :
  forall tl cap out n buf rest,
    Posix.recv_line_from items tl cap out = (n, buf, rest) ->
    (List.length rest <= List.length items)%nat
    /\ (Z.of_nat (List.length out) < n -> (List.length rest < List.length items)%nat).
Proof.
  induction items as [|it items IH]; intros tl cap out n buf rest H;
    rewrite posix_recv_line_from_eq in H;
    destruct (List.length out + 1 <? cap)%nat.
  - destruct tl; [destruct (List.length out =? 0)%nat eqn:E|];
      injection H as <- <- <-; split; auto; try lia.
    all: try (apply Nat.eqb_eq in E; lia).
  - injection H as <- <- <-. split; auto; lia.
  - destruct it as [c|].
    + destruct (Ascii.eqb c LF).
      * injection H as <- <- <-. simpl. split; lia.
      * apply IH in H. simpl. destruct H as [H1 H2]. split; lia.
    + apply IH in H. simpl. destruct H as [H1 H2]. split; lia.
  - injection H as <- <- <-. split; auto; lia.
Qed.

Lemma posix_handler_step_progress storage_dir w :
  fst (Posix.handler_step storage_dir w) <> Some Ready
  \/ (List.length (rx (snd (Posix.handler_step storage_dir w))) < List.length (rx w))%nat.
Proof.
  destruct (Posix.recv_line MAX_LINE w) as [[[n buf]|] w1] eqn:E.
  2:{ unfold Posix.recv_line in E.
      destruct (Posix.recv_line_from (rx w) (rx_end w) MAX_LINE []) as [[n' out] rest].
      discriminate E. }
  rewrite (posix_handler_step_eq _ _ _ _ _ E).
  unfold Posix.recv_line in E.
  destruct (Posix.recv_line_from (rx w) (rx_end w) MAX_LINE []) as [[n' out] rest] eqn:E'.
  injection E as <- <- <-.
  apply posix_recv_line_consumes in E'. destruct E' as [H1 H2].
  destruct (n' <=? 0) eqn:En; [left; discriminate|]. right.
  apply Z.leb_gt in En. simpl in H2. specialize (H2 En).
  destruct (chomp (Libc.cstr out)) as [|c line]; [exact H2|].
  pose proof (posix_exec_line_shrinks storage_dir (c :: line) (set_rx rest w)) as Hs.
  simpl rx in Hs at 2. lia.
Qed.

Lemma posix_handler_step_steady storage_dir : steady (Posix.handler_step storage_dir).
Proof.
  unfold Posix.handler_step.
  apply steady_bind; [apply posix_recv_line_steady|]. intros [n buf].
  destruct (n <=? 0); [apply steady_ret|].
  destruct (chomp (Libc.cstr buf)); [apply steady_ret | apply posix_exec_line_steady].
Qed.

Lemma posix_client_loop_steady storage_dir fuel : steady (Posix.client_loop fuel storage_dir).
Proof.
  induction fuel as [|fuel IH]; simpl; [apply steady_ret|].
  apply steady_bind; [apply posix_handler_step_steady|].
  intros [|]; [exact IH | apply steady_ret].
Qed.

(** With fuel above the number of items on the socket the loop is never
    cut short: it ends in [Closed], or with the process. *)
Lemma posix_client_loop_closes storage_dir fuel :
  forall w, (List.length (rx w) < fuel)%nat ->
            fst (Posix.client_loop fuel storage_dir w) <> Some Ready.
Proof.
  induction fuel as [|fuel IH]; intros w Hfuel; [lia|].
  simpl. unfold bind at 1.
  pose proof (posix_handler_step_progress storage_dir w) as Hp.
  destruct (Posix.handler_step storage_dir w) as [[[|]|] w1]; simpl in Hp.
  - apply IH. destruct Hp as [Hp | Hp]; [now contradiction Hp | lia].
  - discriminate.
  - discriminate.
Qed.

(** [client_thread] always comes to its end, whatever the client sends: the
    connection is closed, unless a send to a client that has gone raises
    SIGPIPE and ends the process. *)
Lemma posix_client_thread_closes storage_dir w :
  fst (Posix.client_thread storage_dir w) <> Some Ready
  /\ (no_sigpipe w -> fst (Posix.client_thread storage_dir w) = Some Closed).
Proof.
  assert (Hnr : fst (Posix.client_thread storage_dir w) <> Some Ready).
  { unfold Posix.client_thread, bind.
    pose proof (posix_send_line_rx (nl "OK WELCOME") w) as Hrx.
    destruct (Posix.send_line (nl "OK WELCOME") w) as [[n|] w1]; [|discriminate].
    apply posix_client_loop_closes. lia. }
  split; [exact Hnr|]. intros Hns.
  assert (Hs : steady (Posix.client_thread storage_dir)).
  { unfold Posix.client_thread. apply steady_bind; [apply posix_send_line_steady|].
    intros n w1. apply posix_client_loop_steady. }
  destruct (Hs w) as (_ & _ & Hv). specialize (Hv Hns).
  destruct (fst (Posix.client_thread storage_dir w)) as [[|]|];
    [now contradiction Hnr | reflexivity | now contradiction Hv].
Qed.
